(** * Lifelogs: event ingestion, bulk import and tag filtering

    A shallow embedding of the import routes (`/json`, `/csv`,
    `/csv/preview`), of `parseTimestamp` and `parseCSVLine`, and of the
    event routes `POST /` and `GET /` of the Lifelogs API, followed by the
    properties of the specification that concern them.

    Conventions of the embedding.
    - A JavaScript string is the list of its UTF-16 code units.
    - A JavaScript number that the code treats as a count or an epoch
      value is an integer ([nat] for indices, [Z] for timestamps).
    - A handler is a computation in the monad [M]: it reads and updates a
      [World] (the `events` table and the number of identifiers drawn so
      far) and either returns or throws.
    - What the platform decides and the repository does not (how
      `Date.parse` reads a string, which identifier `ulid()` draws, whether
      D1 accepts an `INSERT`, the wording of a `SyntaxError`) is a field of
      [Host]; theorems are stated for every host, and [refHost] is one
      concrete host on which the handlers can be run. *)

From Stdlib Require Import String Ascii List ZArith NArith Arith Bool Lia.
From Stdlib Require Import DecimalString Sorted.
Import ListNotations.

Set Implicit Arguments.

(** ** JavaScript strings *)

Definition jsstring := list N.

(** A literal: the code units of an ASCII string. *)
Definition js (s : string) : jsstring :=
  map N_of_ascii (list_ascii_of_string s).

(** The code unit of an ASCII character. *)
Definition chr (c : ascii) : N := N_of_ascii c.

Definition DQUOTE : N := 34.
Definition COMMA : N := chr ",".
Definition LF : N := 10.
Definition CR : N := 13.
Definition TAB : N := 9.
Definition BACKSPACE : N := 8.
Definition FORM_FEED : N := 12.
Definition BACKSLASH : N := 92.

Definition jsstring_eqb (a b : jsstring) : bool :=
  if list_eq_dec N.eq_dec a b then true else false.

(** `${n}` for a non-negative integer. *)
Definition nat_to_jsstring (n : nat) : jsstring :=
  js (NilZero.string_of_uint (Nat.to_uint n)).

(** WhiteSpace and LineTerminator code units of ECMAScript, the ones
    `String.prototype.trim` removes. *)
Definition is_whitespace (c : N) : bool :=
  existsb (N.eqb c)
    [9; 10; 11; 12; 13; 32; 160; 5760; 8232; 8233; 8239; 8287; 12288; 65279]%N
  || ((8192 <=? c) && (c <=? 8202))%N.

Fixpoint trimStart (s : jsstring) : jsstring :=
  match s with
  | c :: r => if is_whitespace c then trimStart r else s
  | [] => []
  end.

Definition trimEnd (s : jsstring) : jsstring := rev (trimStart (rev s)).

Definition trim (s : jsstring) : jsstring := trimEnd (trimStart s).

(** `s.split(sep)` for a one-unit separator: never empty, one more piece
    than there are separators. *)
Fixpoint split (sep : N) (s : jsstring) : list jsstring :=
  match s with
  | [] => [[]]
  | c :: r =>
      if N.eqb c sep then [] :: split sep r
      else match split sep r with
           | h :: t => (c :: h) :: t
           | [] => [[c]]
           end
  end.

(** `a.join(sep)` on an array of strings. *)
Fixpoint join (sep : jsstring) (l : list jsstring) : jsstring :=
  match l with
  | [] => []
  | [x] => x
  | x :: r => x ++ sep ++ join sep r
  end.

(** `a.includes(x)` and `a.indexOf(x)` on an array of strings. *)
Definition includes (a : list jsstring) (x : jsstring) : bool :=
  existsb (jsstring_eqb x) a.

Fixpoint indexOf_from (a : list jsstring) (x : jsstring) (i : Z) : Z :=
  match a with
  | [] => (-1)%Z
  | y :: r => if jsstring_eqb y x then i else indexOf_from r x (i + 1)%Z
  end.

Definition indexOf (a : list jsstring) (x : jsstring) : Z := indexOf_from a x 0%Z.

(** `a[i]`: [None] is `undefined`. *)
Definition js_index {A} (a : list A) (i : Z) : option A :=
  if (i <? 0)%Z then None else nth_error a (Z.to_nat i).

(** Truthiness of a value that is a string or `undefined`. *)
Definition truthy_cell (v : option jsstring) : bool :=
  match v with
  | Some (_ :: _) => true
  | _ => false
  end.

(** ** parseCSVLine

    The loop of `parseCSVLine` over the remaining code units [line] with
    its three variables; the look-ahead at `line[i + 1]` is the match on the
    next unit and `i++` the jump over it. *)
Fixpoint parseCSVLine_loop (line : jsstring) (result : list jsstring)
    (current : jsstring) (inQuotes : bool) : list jsstring :=
  match line with
  | [] => result ++ [trim current]
  | char :: rest =>
      if N.eqb char DQUOTE then
        match inQuotes, rest with
        | true, next :: rest' =>
            if N.eqb next DQUOTE
            then parseCSVLine_loop rest' result (current ++ [DQUOTE]) inQuotes
            else parseCSVLine_loop rest result current (negb inQuotes)
        | _, _ => parseCSVLine_loop rest result current (negb inQuotes)
        end
      else if N.eqb char COMMA && negb inQuotes then
        parseCSVLine_loop rest (result ++ [trim current]) [] inQuotes
      else parseCSVLine_loop rest result (current ++ [char]) inQuotes
  end.

Definition parseCSVLine (line : jsstring) : list jsstring :=
  parseCSVLine_loop line [] [] false.

(** ** Exceptions and the handler monad *)

(** A thrown value: an `Error` object with its message, or anything else. *)
Inductive exn :=
| ErrorObj (message : jsstring)
| NotAnError.

(** `err instanceof Error ? err.message : fallback` *)
Definition error_message (fallback : jsstring) (e : exn) : jsstring :=
  match e with
  | ErrorObj m => m
  | NotAnError => fallback
  end.

Inductive result (A : Type) :=
| Ok (a : A)
| Throw (e : exn).
Arguments Ok {A} a.
Arguments Throw {A} e.

(** ** parseTimestamp *)

(** What reaches `parseTimestamp`: a number, a string, or (a CSV row with
    too few cells) `undefined`. *)
Inductive tsvalue :=
| TsNumber (n : Z)
| TsString (s : jsstring)
| TsUndefined.

Definition tsvalue_of_cell (v : option jsstring) : tsvalue :=
  match v with
  | Some s => TsString s
  | None => TsUndefined
  end.

(** `${value}` *)
Definition tsvalue_to_jsstring (v : tsvalue) : jsstring :=
  match v with
  | TsNumber n => js (NilZero.string_of_int (Z.to_int n))
  | TsString s => s
  | TsUndefined => js "undefined"
  end.

Section ParseTimestamp.

(** `new Date(s).getTime()` for a string [s]; [None] is `NaN`. *)
Variable Date_parse : jsstring -> option Z.

(** `new Date(value).getTime()`: `new Date(undefined)` is an invalid date. *)
Definition Date_getTime (v : tsvalue) : option Z :=
  match v with
  | TsNumber n => Some n
  | TsString s => Date_parse s
  | TsUndefined => None
  end.

Definition parseTimestamp (value : tsvalue) : result Z :=
  match value with
  | TsNumber n =>
      if (n <? 10000000000)%Z then Ok (n * 1000)%Z else Ok n
  | _ =>
      match Date_getTime value with
      | Some t => Ok t
      | None => Throw (ErrorObj (js "Invalid timestamp: " ++ tsvalue_to_jsstring value))
      end
  end.

End ParseTimestamp.

(** ** JSON values, `JSON.parse` and `JSON.stringify`

    A number is kept as its exact decimal value [m * 10 ^ e] with no
    trailing zero in [m] (the rounding to binary64 is left out); an object
    is the list of its properties in the order `JSON.stringify` walks
    them. *)

#[warnings="-register-all"]
Inductive json :=
| JNull
| JBool (b : bool)
| JNumber (m e : Z)
| JString (s : jsstring)
| JArray (xs : list json)
| JObject (props : list (jsstring * json)).

(** Truthiness, as in `data ? ... : null`. *)
Definition truthy (v : json) : bool :=
  match v with
  | JNull => false
  | JBool b => b
  | JNumber m _ => negb (m =? 0)%Z
  | JString s => match s with [] => false | _ => true end
  | JArray _ | JObject _ => true
  end.

Module Json.

Definition is_ws (c : N) : bool := existsb (N.eqb c) [chr " "; TAB; LF; CR].

Fixpoint skip_ws (s : jsstring) : jsstring :=
  match s with
  | c :: r => if is_ws c then skip_ws r else s
  | [] => []
  end.

Definition is_digit (c : N) : bool := ((48 <=? c) && (c <=? 57))%N.

(** The longest prefix of digits, and what follows it. *)
Fixpoint digits (s : jsstring) : jsstring * jsstring :=
  match s with
  | c :: r =>
      if is_digit c then let '(d, r') := digits r in (c :: d, r') else ([], s)
  | [] => ([], [])
  end.

Definition digits_value (d : jsstring) : Z :=
  fold_left (fun acc c => (acc * 10 + (Z.of_N c - 48))%Z) d 0%Z.

Fixpoint strip_zeros (fuel : nat) (m e : Z) : Z * Z :=
  match fuel with
  | O => (m, e)
  | S fuel' =>
      if ((m mod 10) =? 0)%Z then strip_zeros fuel' (m / 10)%Z (e + 1)%Z
      else (m, e)
  end.

Definition normalize (d : jsstring) (e : Z) : Z * Z :=
  let m := digits_value d in
  if (m =? 0)%Z then (0, 0)%Z else strip_zeros (length d) m e.

(** A JSON number: an optional minus, an integer part without a leading
    zero, an optional fraction, an optional exponent. *)
Definition parse_number (s : jsstring) : option (json * jsstring) :=
  let '(neg, s1) :=
    match s with
    | c :: r => if N.eqb c (chr "-") then (true, r) else (false, s)
    | [] => (false, s)
    end in
  let int_part :=
    match s1 with
    | c :: r =>
        if N.eqb c (chr "0") then Some ([c], r)
        else if is_digit c then Some (digits s1)
        else None
    | [] => None
    end in
  match int_part with
  | None => None
  | Some (ip, s2) =>
      let frac_part :=
        match s2 with
        | c :: r =>
            if N.eqb c (chr ".") then
              match digits r with
              | ([], _) => None
              | (fp, r') => Some (fp, r')
              end
            else Some ([], s2)
        | [] => Some ([], s2)
        end in
      match frac_part with
      | None => None
      | Some (fp, s3) =>
          let exp_part :=
            match s3 with
            | c :: r =>
                if N.eqb c (chr "e") || N.eqb c (chr "E") then
                  let '(eneg, r1) :=
                    match r with
                    | sg :: r' =>
                        if N.eqb sg (chr "-") then (true, r')
                        else if N.eqb sg (chr "+") then (false, r')
                        else (false, r)
                    | [] => (false, r)
                    end in
                  match digits r1 with
                  | ([], _) => None
                  | (ed, r2) =>
                      let v := digits_value ed in
                      Some ((if eneg then - v else v)%Z, r2)
                  end
                else Some (0%Z, s3)
            | [] => Some (0%Z, s3)
            end in
          match exp_part with
          | None => None
          | Some (ex, s4) =>
              let '(m, e) := normalize (ip ++ fp) (ex - Z.of_nat (length fp))%Z in
              Some (JNumber (if neg then - m else m)%Z e, s4)
          end
      end
  end.

Definition hex_value (c : N) : option N :=
  if is_digit c then Some (c - 48)%N
  else if ((97 <=? c) && (c <=? 102))%N then Some (c - 87)%N
  else if ((65 <=? c) && (c <=? 70))%N then Some (c - 55)%N
  else None.

Definition parse_hex4 (s : jsstring) : option (N * jsstring) :=
  match s with
  | a :: b :: c :: d :: r =>
      match hex_value a, hex_value b, hex_value c, hex_value d with
      | Some x, Some y, Some z, Some w =>
          Some (((x * 16 + y) * 16 + z) * 16 + w, r)%N
      | _, _, _, _ => None
      end
  | _ => None
  end.

(** The characters of a string after its opening quote. *)
Fixpoint parse_chars (s : jsstring) (acc : jsstring) : option (jsstring * jsstring) :=
  match s with
  | [] => None
  | c :: r =>
      if N.eqb c DQUOTE then Some (acc, r)
      else if N.eqb c BACKSLASH then
        match r with
        | [] => None
        | x :: r' =>
            if N.eqb x (chr "u") then
              match r' with
              | a :: b :: c' :: d :: r'' =>
                  match parse_hex4 [a; b; c'; d] with
                  | Some (u, _) => parse_chars r'' (acc ++ [u])
                  | None => None
                  end
              | _ => None
              end
            else
              let unit :=
                if N.eqb x DQUOTE then Some DQUOTE
                else if N.eqb x BACKSLASH then Some BACKSLASH
                else if N.eqb x (chr "/") then Some (chr "/")
                else if N.eqb x (chr "b") then Some BACKSPACE
                else if N.eqb x (chr "f") then Some FORM_FEED
                else if N.eqb x (chr "n") then Some LF
                else if N.eqb x (chr "r") then Some CR
                else if N.eqb x (chr "t") then Some TAB
                else None in
              match unit with
              | Some u => parse_chars r' (acc ++ [u])
              | None => None
              end
        end
      else if (c <? 32)%N then None
      else parse_chars r (acc ++ [c])
  end.

Fixpoint strip_prefix (p s : jsstring) : option jsstring :=
  match p, s with
  | [], _ => Some s
  | a :: p', b :: s' => if N.eqb a b then strip_prefix p' s' else None
  | _ :: _, [] => None
  end.

Definition is_array_index (k : jsstring) : option Z :=
  match k with
  | [] => None
  | c :: r =>
      if forallb is_digit k && (negb (N.eqb c (chr "0")) || match r with [] => true | _ => false end)
      then let v := digits_value k in
           if (v <? 4294967295)%Z then Some v else None
      else None
  end.

Fixpoint insert_index (i : Z) (k : jsstring) (v : json)
    (props : list (jsstring * json)) : list (jsstring * json) :=
  match props with
  | [] => [(k, v)]
  | (k', v') :: rest =>
      match is_array_index k' with
      | Some j => if (j <? i)%Z then (k', v') :: insert_index i k v rest
                  else (k, v) :: props
      | None => (k, v) :: props
      end
  end.

Fixpoint replace_value (k : jsstring) (v : json)
    (props : list (jsstring * json)) : list (jsstring * json) :=
  match props with
  | [] => []
  | (k', v') :: rest =>
      if jsstring_eqb k' k then (k', v) :: rest
      else (k', v') :: replace_value k v rest
  end.

(** `CreateDataProperty(obj, k, v)`: an existing key keeps its place, a
    new array-index key goes among the index keys in ascending order, any
    other new key goes last. *)
Definition define_property (props : list (jsstring * json)) (k : jsstring) (v : json)
    : list (jsstring * json) :=
  if existsb (fun kv => jsstring_eqb (fst kv) k) props then replace_value k v props
  else match is_array_index k with
       | Some i => insert_index i k v props
       | None => props ++ [(k, v)]
       end.

Fixpoint parse_value (fuel : nat) (s : jsstring) : option (json * jsstring) :=
  match fuel with
  | O => None
  | S fuel' =>
      match skip_ws s with
      | [] => None
      | c :: r =>
          if N.eqb c (chr "[") then
            match skip_ws r with
            | c' :: r' =>
                if N.eqb c' (chr "]") then Some (JArray [], r')
                else parse_elements fuel' r []
            | [] => None
            end
          else if N.eqb c (chr "{") then
            match skip_ws r with
            | c' :: r' =>
                if N.eqb c' (chr "}") then Some (JObject [], r')
                else parse_members fuel' r []
            | [] => None
            end
          else if N.eqb c DQUOTE then
            match parse_chars r [] with
            | Some (str, r') => Some (JString str, r')
            | None => None
            end
          else if N.eqb c (chr "t") then
            option_map (fun r' => (JBool true, r')) (strip_prefix (js "rue") r)
          else if N.eqb c (chr "f") then
            option_map (fun r' => (JBool false, r')) (strip_prefix (js "alse") r)
          else if N.eqb c (chr "n") then
            option_map (fun r' => (JNull, r')) (strip_prefix (js "ull") r)
          else parse_number (c :: r)
      end
  end
with parse_elements (fuel : nat) (s : jsstring) (acc : list json)
    : option (json * jsstring) :=
  match fuel with
  | O => None
  | S fuel' =>
      match parse_value fuel' s with
      | None => None
      | Some (v, r) =>
          match skip_ws r with
          | c :: r' =>
              if N.eqb c (chr ",") then parse_elements fuel' r' (acc ++ [v])
              else if N.eqb c (chr "]") then Some (JArray (acc ++ [v]), r')
              else None
          | [] => None
          end
      end
  end
with parse_members (fuel : nat) (s : jsstring) (acc : list (jsstring * json))
    : option (json * jsstring) :=
  match fuel with
  | O => None
  | S fuel' =>
      match skip_ws s with
      | q :: r0 =>
          if N.eqb q DQUOTE then
            match parse_chars r0 [] with
            | None => None
            | Some (k, r1) =>
                match skip_ws r1 with
                | colon :: r2 =>
                    if N.eqb colon (chr ":") then
                      match parse_value fuel' r2 with
                      | None => None
                      | Some (v, r3) =>
                          match skip_ws r3 with
                          | c :: r4 =>
                              if N.eqb c (chr ",")
                              then parse_members fuel' r4 (define_property acc k v)
                              else if N.eqb c (chr "}")
                              then Some (JObject (define_property acc k v), r4)
                              else None
                          | [] => None
                          end
                      end
                    else None
                | [] => None
                end
            end
          else None
      | [] => None
      end
  end.

(** `JSON.parse(text)`; [None] is the thrown `SyntaxError`. The fuel
    bounds the nesting of the calls: an opening bracket or an element
    costs at most two calls and takes at least one code unit. *)
Definition parse (text : jsstring) : option json :=
  match parse_value (2 * length text + 2) text with
  | Some (v, r) => match skip_ws r with [] => Some v | _ => None end
  | None => None
  end.

(** *** `JSON.stringify` *)

Definition hex_digit (n : N) : N := if (n <? 10)%N then (48 + n)%N else (87 + n)%N.

Definition unicode_escape (c : N) : jsstring :=
  [92; 117; hex_digit (c / 4096); hex_digit ((c / 256) mod 16);
   hex_digit ((c / 16) mod 16); hex_digit (c mod 16)]%N.

Definition is_high_surrogate (c : N) : bool := ((55296 <=? c) && (c <=? 56319))%N.
Definition is_low_surrogate (c : N) : bool := ((56320 <=? c) && (c <=? 57343))%N.

(** `QuoteJSONString` without the enclosing quotes: short escapes, a
    `\u` escape for the other control units and for a surrogate that is
    not part of a pair. *)
Fixpoint quote_units (s : jsstring) : jsstring :=
  match s with
  | [] => []
  | c :: r =>
      if N.eqb c DQUOTE then [BACKSLASH; DQUOTE] ++ quote_units r
      else if N.eqb c BACKSLASH then [BACKSLASH; BACKSLASH] ++ quote_units r
      else if N.eqb c BACKSPACE then [BACKSLASH; chr "b"] ++ quote_units r
      else if N.eqb c FORM_FEED then [BACKSLASH; chr "f"] ++ quote_units r
      else if N.eqb c LF then [BACKSLASH; chr "n"] ++ quote_units r
      else if N.eqb c CR then [BACKSLASH; chr "r"] ++ quote_units r
      else if N.eqb c TAB then [BACKSLASH; chr "t"] ++ quote_units r
      else if (c <? 32)%N then unicode_escape c ++ quote_units r
      else if is_high_surrogate c then
        match r with
        | d :: r' =>
            if is_low_surrogate d then c :: d :: quote_units r'
            else unicode_escape c ++ quote_units r
        | [] => unicode_escape c
        end
      else if is_low_surrogate c then unicode_escape c ++ quote_units r
      else c :: quote_units r
  end.

Definition quote (s : jsstring) : jsstring := [DQUOTE] ++ quote_units s ++ [DQUOTE].

Definition decimal_digits (z : Z) : jsstring :=
  js (NilZero.string_of_uint (N.to_uint (Z.to_N z))).

(** `Number::toString` on the decimal [m * 10 ^ e], [m] without trailing
    zero: [k] digits, the decimal point after the [n]-th. *)
Definition number_to_jsstring (m e : Z) : jsstring :=
  if (m =? 0)%Z then js "0"
  else
    let ds := decimal_digits (Z.abs m) in
    let k := Z.of_nat (length ds) in
    let n := (k + e)%Z in
    let body :=
      if ((k <=? n) && (n <=? 21))%Z then ds ++ repeat (chr "0") (Z.to_nat (n - k))
      else if ((0 <? n) && (n <=? 21))%Z then
        firstn (Z.to_nat n) ds ++ [chr "."] ++ skipn (Z.to_nat n) ds
      else if ((-6 <? n) && (n <=? 0))%Z then
        js "0." ++ repeat (chr "0") (Z.to_nat (- n)) ++ ds
      else
        let ex := (n - 1)%Z in
        let exs := (if (ex <? 0)%Z then [chr "-"] else [chr "+"]) ++ decimal_digits (Z.abs ex) in
        match ds with
        | [] => []
        | [d] => [d] ++ [chr "e"] ++ exs
        | d :: r => d :: (chr ".") :: r ++ [chr "e"] ++ exs
        end in
    (if (m <? 0)%Z then [chr "-"] else []) ++ body.

Fixpoint stringify (v : json) : jsstring :=
  match v with
  | JNull => js "null"
  | JBool true => js "true"
  | JBool false => js "false"
  | JNumber m e => number_to_jsstring m e
  | JString s => quote s
  | JArray xs => [chr "["] ++ join [chr ","] (map stringify xs) ++ [chr "]"]
  | JObject props =>
      [chr "{"]
      ++ join [chr ","] (map (fun kv => let '(k, x) := kv in
                                      quote k ++ [chr ":"] ++ stringify x) props)
      ++ [chr "}"]
  end.

End Json.

Definition JSON_parse := Json.parse.
Definition JSON_stringify := Json.stringify.

(** ** SQL `LIKE`

    `%` stands for any run of characters, `_` for any one character, and
    the letters A to Z match without regard to case (SQLite, which D1
    runs, with its default settings and no ESCAPE clause). *)

Definition ascii_upper (c : N) : N :=
  if ((97 <=? c) && (c <=? 122))%N then (c - 32)%N else c.

Fixpoint like (pattern text : jsstring) : bool :=
  match pattern with
  | [] => match text with [] => true | _ :: _ => false end
  | p :: pattern' =>
      if N.eqb p (chr "%") then
        (fix any_suffix (t : jsstring) : bool :=
           like pattern' t
           || match t with
              | [] => false
              | _ :: t' => any_suffix t'
              end) text
      else
        match text with
        | [] => false
        | c :: text' =>
            (N.eqb p (chr "_") || N.eqb (ascii_upper p) (ascii_upper c)) && like pattern' text'
        end
  end.

(** ** A date parser for the reference host

    The ECMAScript date-time string format in the forms `YYYY-MM-DD` and
    `YYYY-MM-DDTHH:mm:ss[.sss]Z`; every other string is an invalid date. *)

Module IsoDate.

Local Open Scope Z_scope.

Definition days_from_civil (y m d : Z) : Z :=
  let y' := if m <=? 2 then y - 1 else y in
  let era := y' / 400 in
  let yoe := y' - era * 400 in
  let mp := (m + 9) mod 12 in
  let doy := (153 * mp + 2) / 5 + d - 1 in
  let doe := yoe * 365 + yoe / 4 - yoe / 100 + doy in
  era * 146097 + doe - 719468.

Definition is_leap (y : Z) : bool :=
  (y mod 4 =? 0) && (negb (y mod 100 =? 0) || (y mod 400 =? 0)).

Definition days_in_month (y m : Z) : Z :=
  if m =? 2 then (if is_leap y then 29 else 28)
  else if (m =? 4) || (m =? 6) || (m =? 9) || (m =? 11) then 30
  else 31.

(** Exactly [n] digits. *)
Fixpoint number (n : nat) (s : jsstring) (acc : Z) : option (Z * jsstring) :=
  match n with
  | O => Some (acc, s)
  | S n' =>
      match s with
      | c :: r =>
          if Json.is_digit c then number n' r (acc * 10 + (Z.of_N c - 48)) else None
      | [] => None
      end
  end.

Definition expect (c : N) (s : jsstring) : option jsstring :=
  match s with
  | x :: r => if N.eqb x c then Some r else None
  | [] => None
  end.

Definition bind {A B} (o : option A) (f : A -> option B) : option B :=
  match o with
  | Some a => f a
  | None => None
  end.

Definition parse_time (s : jsstring) : option Z :=
  bind (number 2 s 0) (fun '(hh, s) =>
  bind (expect 58 s) (fun s =>
  bind (number 2 s 0) (fun '(mm, s) =>
  bind (expect 58 s) (fun s =>
  bind (number 2 s 0) (fun '(ss, s) =>
  bind (match s with
        | c :: r => if N.eqb c (chr ".") then number 3 r 0 else Some (0, s)
        | [] => Some (0, s)
        end) (fun '(ms, s) =>
  match s with
  | [z] =>
      if N.eqb z (chr "Z") && (hh <=? 23) && (mm <=? 59) && (ss <=? 59)
      then Some (((hh * 60 + mm) * 60 + ss) * 1000 + ms)
      else None
  | _ => None
  end)))))).

Definition parse (s : jsstring) : option Z :=
  bind (number 4 s 0) (fun '(y, s) =>
  bind (expect 45 s) (fun s =>
  bind (number 2 s 0) (fun '(m, s) =>
  bind (expect 45 s) (fun s =>
  bind (number 2 s 0) (fun '(d, s) =>
  if (1 <=? m) && (m <=? 12) && (1 <=? d) && (d <=? days_in_month y m) then
    let day := days_from_civil y m d * 86400000 in
    match s with
    | [] => Some day
    | t :: r => if N.eqb t (chr "T") then option_map (Z.add day) (parse_time r) else None
    end
  else None))))).

End IsoDate.

(** ** The `events` table, the host and the handler monad *)

(** A row of `events`; `data` and `tags` hold serialized text or NULL. *)
Record Event := {
  ev_id : jsstring;
  ev_user_id : jsstring;
  ev_timestamp : Z;
  ev_event_type : jsstring;
  ev_data : option jsstring;
  ev_tags : option jsstring;
  ev_source : jsstring;
  ev_created_at : Z
}.

(** The values bound to the `INSERT INTO events` statement, in the order
    of its placeholders; the event type of a CSV row may be `undefined`. *)
Record InsertParams := {
  p_id : jsstring;
  p_user_id : jsstring;
  p_timestamp : Z;
  p_event_type : option jsstring;
  p_data : option jsstring;
  p_tags : option jsstring;
  p_source : jsstring;
  p_created_at : Z
}.

Record Host := {
  (** `new Date(s).getTime()`, [None] for `NaN` *)
  Date_parse : jsstring -> option Z;
  (** the identifier the n-th call of `ulid()` returns *)
  ulid : nat -> jsstring;
  (** `prepare(INSERT ...).bind(...).run()`: the new table, or what it throws *)
  D1_insert : list Event -> InsertParams -> result (list Event);
  (** the message of the `SyntaxError` that `JSON.parse` throws on a text *)
  SyntaxError_message : jsstring -> jsstring
}.

Record World := {
  events : list Event;
  ulid_calls : nat
}.

Definition M (A : Type) : Type := World -> result A * World.

Definition ret {A} (a : A) : M A := fun w => (Ok a, w).

Definition bind {A B} (m : M A) (f : A -> M B) : M B :=
  fun w =>
    match m w with
    | (Ok a, w') => f a w'
    | (Throw e, w') => (Throw e, w')
    end.

Definition throw {A} (e : exn) : M A := fun w => (Throw e, w).

(** `try { body } catch (err) { handler }` *)
Definition try_catch {A} (body : M A) (handler : exn -> M A) : M A :=
  fun w =>
    match body w with
    | (Ok a, w') => (Ok a, w')
    | (Throw e, w') => handler e w'
    end.

Definition lift {A} (r : result A) : M A := fun w => (r, w).

Declare Scope handler_scope.
Delimit Scope handler_scope with handler.
Notation "x <- m ;; k" := (bind m (fun x => k))
  (at level 61, m at next level, right associativity) : handler_scope.
Notation "m ;;; k" := (bind m (fun _ => k))
  (at level 61, right associativity) : handler_scope.
Local Open Scope handler_scope.

Definition draw_ulid (H : Host) : M jsstring :=
  fun w => (Ok (ulid H (ulid_calls w)),
            {| events := events w; ulid_calls := S (ulid_calls w) |}).

Definition run_insert (H : Host) (p : InsertParams) : M unit :=
  fun w =>
    match D1_insert H (events w) p with
    | Ok t => (Ok tt, {| events := t; ulid_calls := ulid_calls w |})
    | Throw e => (Throw e, w)
    end.

(** `c.json(body)` and `c.json({ error }, status)`. *)
Inductive response (A : Type) :=
| Success (body : A)
| Failure (status : nat) (error : jsstring).
Arguments Success {A} body.
Arguments Failure {A} status error.

(** `v ? JSON.stringify(v) : null` *)
Definition stringify_or_null (v : json) : option jsstring :=
  if truthy v then Some (JSON_stringify v) else None.

(** ** The import routes *)

(** `results` of both import loops. *)
Record Results := {
  success : nat;
  results_errors : list jsstring
}.

Definition succeed (r : Results) : Results :=
  {| success := S (success r); results_errors := results_errors r |}.

Definition push_error (r : Results) (e : jsstring) : Results :=
  {| success := success r; results_errors := results_errors r ++ [e] |}.

(** The body of an import response. *)
Record ImportReport := {
  imported : nat;
  total : nat;
  errors : list jsstring
}.

(** *** `POST /json` *)

(** An element of `events` after validation by `eventImportSchema`. *)
Record ImportEvent := {
  ie_timestamp : tsvalue;
  ie_event_type : jsstring;
  ie_data : option json;
  ie_tags : option (list jsstring)
}.

Definition json_error (i : nat) (err : exn) : jsstring :=
  js "Event " ++ nat_to_jsstring i ++ js ": " ++ error_message (js "Unknown error") err.

(** The body of the `try` for `events[i]`. *)
Definition json_row (H : Host) (now : Z) (user : jsstring) (event : ImportEvent) : M unit :=
  eventId <- draw_ulid H ;;
  timestamp <- lift (parseTimestamp (Date_parse H) (ie_timestamp event)) ;;
  run_insert H
    {| p_id := eventId;
       p_user_id := user;
       p_timestamp := timestamp;
       p_event_type := Some (ie_event_type event);
       p_data := match ie_data event with
                 | Some d => stringify_or_null d
                 | None => None
                 end;
       p_tags := match ie_tags event with
                 | Some t => stringify_or_null (JArray (map JString t))
                 | None => None
                 end;
       p_source := js "json_import";
       p_created_at := now |}.

(** `for (let i = ...; i < events.length; i++)` from index [i] on, [rest]
    being `events.slice(i)`. *)
Fixpoint json_loop (H : Host) (now : Z) (user : jsstring) (i : nat)
    (rest : list ImportEvent) (results : Results) : M Results :=
  match rest with
  | [] => ret results
  | event :: rest' =>
      results' <- try_catch
                    (json_row H now user event ;;; ret (succeed results))
                    (fun err => ret (push_error results (json_error i err))) ;;
      json_loop H now user (S i) rest' results'
  end.

Definition import_json (H : Host) (now : Z) (user : jsstring)
    (evs : list ImportEvent) : M (response ImportReport) :=
  results <- json_loop H now user 0 evs {| success := 0; results_errors := [] |} ;;
  ret (Success {| imported := success results;
                  total := length evs;
                  errors := results_errors results |}).

(** *** `POST /csv` *)

Definition requiredColumns : list jsstring := [js "timestamp"; js "event_type"].

(** The four column indices read off the header. *)
Record Columns := {
  timestampIdx : Z;
  eventTypeIdx : Z;
  dataIdx : Z;
  tagsIdx : Z
}.

Definition columns_of (header : list jsstring) : Columns :=
  {| timestampIdx := indexOf header (js "timestamp");
     eventTypeIdx := indexOf header (js "event_type");
     dataIdx := indexOf header (js "data");
     tagsIdx := indexOf header (js "tags") |}.

Definition csv_error (i : nat) (err : exn) : jsstring :=
  js "Line " ++ nat_to_jsstring (i + 1) ++ js ": " ++ error_message (js "Unknown error") err.

(** `if (idx !== -1 && values[idx]) { try { v = JSON.parse(values[idx]) }
    catch { throw new Error(message) } }`, [v] being null before. *)
Definition decode_cell (values : list jsstring) (idx : Z) (message : jsstring) : result json :=
  if negb (idx =? -1)%Z && truthy_cell (js_index values idx) then
    match JSON_parse (match js_index values idx with Some s => s | None => [] end) with
    | Some v => Ok v
    | None => Throw (ErrorObj message)
    end
  else Ok JNull.

(** The body of the `try` for a non-empty trimmed line. *)
Definition csv_row (H : Host) (now : Z) (user : jsstring) (cols : Columns)
    (line : jsstring) : M unit :=
  let values := parseCSVLine line in
  eventId <- draw_ulid H ;;
  timestamp <- lift (parseTimestamp (Date_parse H)
                       (tsvalue_of_cell (js_index values (timestampIdx cols)))) ;;
  let eventType := js_index values (eventTypeIdx cols) in
  data <- lift (decode_cell values (dataIdx cols) (js "Invalid JSON in data column")) ;;
  tags <- lift (decode_cell values (tagsIdx cols) (js "Invalid JSON in tags column")) ;;
  run_insert H
    {| p_id := eventId;
       p_user_id := user;
       p_timestamp := timestamp;
       p_event_type := eventType;
       p_data := stringify_or_null data;
       p_tags := stringify_or_null tags;
       p_source := js "csv_import";
       p_created_at := now |}.

(** `for (let i = ...; i < lines.length; i++)` from index [i] on, [rest]
    being `lines.slice(i)`. *)
Fixpoint csv_loop (H : Host) (now : Z) (user : jsstring) (cols : Columns) (i : nat)
    (rest : list jsstring) (results : Results) : M Results :=
  match rest with
  | [] => ret results
  | l :: rest' =>
      let line := trim l in
      match line with
      | [] => csv_loop H now user cols (S i) rest' results
      | _ :: _ =>
          results' <- try_catch
                        (csv_row H now user cols line ;;; ret (succeed results))
                        (fun err => ret (push_error results (csv_error i err))) ;;
          csv_loop H now user cols (S i) rest' results'
      end
  end.

Definition too_short : jsstring := js "CSV must have at least a header and one data row".

Definition import_csv (H : Host) (now : Z) (user : jsstring) (body : jsstring)
    : M (response ImportReport) :=
  let lines := split LF (trim body) in
  if length lines <? 2 then ret (Failure 400 too_short)
  else
    let header := parseCSVLine (hd [] lines) in
    match find (fun col => negb (includes header col)) requiredColumns with
    | Some col => ret (Failure 400 (js "Missing required column: " ++ col))
    | None =>
        results <- csv_loop H now user (columns_of header) 1 (tl lines)
                     {| success := 0; results_errors := [] |} ;;
        ret (Success {| imported := success results;
                        total := length lines - 1;
                        errors := results_errors results |})
    end.

(** *** `POST /csv/preview` *)

Record PreviewRow := {
  pv_line : nat;
  pv_timestamp : option jsstring;
  pv_event_type : option jsstring;
  pv_data : json;
  pv_tags : json;
  pv_error : option jsstring
}.

Inductive PreviewBody :=
| PreviewInvalid (error : jsstring)
| PreviewValid (columns : list jsstring) (total_rows : nat) (preview : list PreviewRow).

(** `if (idx !== -1 && values[idx]) v = JSON.parse(values[idx])`; the
    `SyntaxError` goes up as it is. *)
Definition decode_cell_raw (H : Host) (values : list jsstring) (idx : Z) : result json :=
  if negb (idx =? -1)%Z && truthy_cell (js_index values idx) then
    let text := match js_index values idx with Some s => s | None => [] end in
    match JSON_parse text with
    | Some v => Ok v
    | None => Throw (ErrorObj (SyntaxError_message H text))
    end
  else Ok JNull.

(** The `try` and `catch` for a non-empty trimmed line: the row pushed. *)
Definition preview_row (H : Host) (cols : Columns) (i : nat) (line : jsstring) : PreviewRow :=
  let values := parseCSVLine line in
  let failed err :=
    {| pv_line := i + 1; pv_timestamp := Some []; pv_event_type := Some [];
       pv_data := JNull; pv_tags := JNull;
       pv_error := Some (error_message (js "Parse error") err) |} in
  match decode_cell_raw H values (dataIdx cols) with
  | Throw err => failed err
  | Ok data =>
      match decode_cell_raw H values (tagsIdx cols) with
      | Throw err => failed err
      | Ok tags =>
          {| pv_line := i + 1;
             pv_timestamp := js_index values (timestampIdx cols);
             pv_event_type := js_index values (eventTypeIdx cols);
             pv_data := data; pv_tags := tags; pv_error := None |}
      end
  end.

(** `for (let i = ...; i < maxPreview; i++)` from index [i] on, [rest]
    being `lines.slice(i)`. *)
Fixpoint preview_loop (H : Host) (cols : Columns) (maxPreview : nat) (i : nat)
    (rest : list jsstring) (preview : list PreviewRow) : list PreviewRow :=
  match rest with
  | [] => preview
  | l :: rest' =>
      if i <? maxPreview then
        let line := trim l in
        match line with
        | [] => preview_loop H cols maxPreview (S i) rest' preview
        | _ :: _ =>
            preview_loop H cols maxPreview (S i) rest' (preview ++ [preview_row H cols i line])
        end
      else preview
  end.

Definition preview_csv (H : Host) (body : jsstring) : M (response PreviewBody) :=
  let lines := split LF (trim body) in
  if length lines <? 2 then ret (Failure 400 too_short)
  else
    let header := parseCSVLine (hd [] lines) in
    let missingColumns := filter (fun col => negb (includes header col)) requiredColumns in
    if 0 <? length missingColumns then
      ret (Success (PreviewInvalid
                      (js "Missing required columns: " ++ join (js ", ") missingColumns)))
    else
      let maxPreview := Nat.min (length lines) 6 in
      let preview := preview_loop H (columns_of header) maxPreview 1 (tl lines) [] in
      ret (Success (PreviewValid header (length lines - 1) preview)).

(** ** The event routes *)

(** An event as the API returns it, `data` and `tags` decoded. *)
Record EventView := {
  view_id : jsstring;
  view_user_id : jsstring;
  view_timestamp : Z;
  view_event_type : jsstring;
  view_data : json;
  view_tags : json;
  view_source : jsstring;
  view_created_at : Z
}.

(** *** `POST /` *)

(** The request body after validation by `createEventSchema`. *)
Record CreateEvent := {
  ce_timestamp : option Z;
  ce_event_type : jsstring;
  ce_data : option json;
  ce_tags : option (list jsstring);
  ce_source : option jsstring
}.

Definition create_event (H : Host) (now : Z) (user : jsstring) (body : CreateEvent)
    : M (response EventView) :=
  eventId <- draw_ulid H ;;
  run_insert H
    {| p_id := eventId;
       p_user_id := user;
       p_timestamp := match ce_timestamp body with Some t => t | None => now end;
       p_event_type := Some (ce_event_type body);
       p_data := match ce_data body with
                 | Some d => stringify_or_null d
                 | None => None
                 end;
       p_tags := match ce_tags body with
                 | Some t => stringify_or_null (JArray (map JString t))
                 | None => None
                 end;
       p_source := match ce_source body with Some s => s | None => js "manual" end;
       p_created_at := now |} ;;;
  ret (Success
         {| view_id := eventId;
            view_user_id := user;
            view_timestamp := match ce_timestamp body with Some t => t | None => now end;
            view_event_type := ce_event_type body;
            view_data := match ce_data body with Some d => d | None => JNull end;
            view_tags := match ce_tags body with
                         | Some t => JArray (map JString t)
                         | None => JArray []
                         end;
            view_source := match ce_source body with Some s => s | None => js "manual" end;
            view_created_at := now |}).

(** *** `GET /` *)

(** The query after validation by `listQuerySchema`. *)
Record ListQuery := {
  q_event_type : option jsstring;
  q_start : option Z;
  q_end : option Z;
  q_tags : option jsstring;
  q_limit : nat;
  q_offset : nat
}.

(** A conjunct of the WHERE clause with the parameter bound to it. *)
Inductive condition :=
| UserIdIs (user : jsstring)
| EventTypeIs (event_type : jsstring)
| TimestampAtLeast (start : Z)
| TimestampAtMost (stop : Z)
| TagsLike (pattern : jsstring).

(** `tags.split(',').map((t) => t.trim())` *)
Definition tagList (tags : jsstring) : list jsstring := map trim (split COMMA tags).

(** The pattern bound for one tag: the tag between double quotes
    between two percent signs. *)
Definition tag_pattern (tag : jsstring) : jsstring :=
  [chr "%"; DQUOTE] ++ tag ++ [DQUOTE; chr "%"].

(** The conditions `query` accumulates, in order. *)
Definition build_where (user : jsstring) (q : ListQuery) : list condition :=
  [UserIdIs user]
  ++ match q_event_type q with
     | Some (c :: r) => [EventTypeIs (c :: r)]
     | _ => []
     end
  ++ match q_start q with
     | Some start => if (start =? 0)%Z then [] else [TimestampAtLeast start]
     | None => []
     end
  ++ match q_end q with
     | Some stop => if (stop =? 0)%Z then [] else [TimestampAtMost stop]
     | None => []
     end
  ++ match q_tags q with
     | Some (c :: r) => map (fun tag => TagsLike (tag_pattern tag)) (tagList (c :: r))
     | _ => []
     end.

(** Whether a row satisfies a conjunct; `NULL LIKE ?` is not true. *)
Definition holds (e : Event) (c : condition) : bool :=
  match c with
  | UserIdIs u => jsstring_eqb (ev_user_id e) u
  | EventTypeIs t => jsstring_eqb (ev_event_type e) t
  | TimestampAtLeast s => (s <=? ev_timestamp e)%Z
  | TimestampAtMost s => (ev_timestamp e <=? s)%Z
  | TagsLike p => match ev_tags e with
                  | Some t => like p t
                  | None => false
                  end
  end.

(** `ORDER BY timestamp DESC`, rows of equal timestamp in table order. *)
Fixpoint insert_desc (e : Event) (sorted : list Event) : list Event :=
  match sorted with
  | [] => [e]
  | x :: r =>
      if (ev_timestamp x <? ev_timestamp e)%Z then e :: sorted
      else x :: insert_desc e r
  end.

Definition order_by_timestamp_desc (rows : list Event) : list Event :=
  fold_right insert_desc [] rows.

(** The SELECT of the list route. *)
Definition select_events (table : list Event) (user : jsstring) (q : ListQuery) : list Event :=
  let matching := filter (fun e => forallb (holds e) (build_where user q)) table in
  firstn (q_limit q) (skipn (q_offset q) (order_by_timestamp_desc matching)).

(** `text ? JSON.parse(text) : fallback` on a TEXT column; the
    `SyntaxError` of a text that does not parse goes up. *)
Definition parse_column (H : Host) (column : option jsstring) (fallback : json) : result json :=
  match column with
  | Some (c :: r) =>
      match JSON_parse (c :: r) with
      | Some v => Ok v
      | None => Throw (ErrorObj (SyntaxError_message H (c :: r)))
      end
  | _ => Ok fallback
  end.

Definition view_of (H : Host) (e : Event) : result EventView :=
  match parse_column H (ev_data e) JNull with
  | Throw err => Throw err
  | Ok data =>
      match parse_column H (ev_tags e) (JArray []) with
      | Throw err => Throw err
      | Ok tags =>
          Ok {| view_id := ev_id e;
                view_user_id := ev_user_id e;
                view_timestamp := ev_timestamp e;
                view_event_type := ev_event_type e;
                view_data := data;
                view_tags := tags;
                view_source := ev_source e;
                view_created_at := ev_created_at e |}
      end
  end.

(** `result.results.map(...)` *)
Fixpoint views_of (H : Host) (rows : list Event) : result (list EventView) :=
  match rows with
  | [] => Ok []
  | e :: rest =>
      match view_of H e with
      | Throw err => Throw err
      | Ok v =>
          match views_of H rest with
          | Throw err => Throw err
          | Ok vs => Ok (v :: vs)
          end
      end
  end.

(** The page of `GET /` (the `meta` block repeats the query and the
    length of the page). *)
Definition list_events (H : Host) (user : jsstring) (q : ListQuery)
    : M (response (list EventView)) :=
  fun w =>
    match views_of H (select_events (events w) user q) with
    | Ok vs => (Ok (Success vs), w)
    | Throw err => (Throw err, w)
    end.

(** The tag set of a returned event: the strings of its `tags` array. *)
Definition has_tag (v : EventView) (tag : jsstring) : bool :=
  match view_tags v with
  | JArray xs =>
      existsb (fun x => match x with
                        | JString s => jsstring_eqb s tag
                        | _ => false
                        end) xs
  | _ => false
  end.

(** ** The reference host

    Dates in the ISO forms of [IsoDate], identifiers numbered in the order
    they are drawn, and a database that stores every row it is given
    except one whose event type is `undefined`, which the D1 binding
    refuses. *)
Definition refHost : Host :=
  {| Date_parse := IsoDate.parse;
     ulid := fun n => js "01H" ++ nat_to_jsstring n;
     D1_insert := fun table p =>
       match p_event_type p with
       | None => Throw (ErrorObj (js "D1_TYPE_ERROR: Type 'undefined' not supported for value 'undefined'"))
       | Some ty =>
           Ok (table ++ [{| ev_id := p_id p;
                            ev_user_id := p_user_id p;
                            ev_timestamp := p_timestamp p;
                            ev_event_type := ty;
                            ev_data := p_data p;
                            ev_tags := p_tags p;
                            ev_source := p_source p;
                            ev_created_at := p_created_at p |}])
       end;
     SyntaxError_message := fun _ => js "Unexpected token in JSON" |}.

Definition emptyWorld : World := {| events := []; ulid_calls := 0 |}.

(** ** Predicates and sample inputs used by the statements *)

(** No double quote in [s]. *)
Definition unquoted (s : jsstring) : bool := forallb (fun c => negb (N.eqb c DQUOTE)) s.

(** Neither a double quote nor a comma in [s]. *)
Definition plain (s : jsstring) : bool :=
  forallb (fun c => negb (N.eqb c DQUOTE) && negb (N.eqb c COMMA)) s.


(** The lines of a text-mode body, its header and its data lines. *)
Definition lines_of (body : jsstring) : list jsstring := split LF (trim body).
Definition header_of (body : jsstring) : list jsstring := parseCSVLine (hd [] (lines_of body)).
Definition data_lines (body : jsstring) : list jsstring := tl (lines_of body).

Definition valid_header (body : jsstring) : bool :=
  includes (header_of body) (js "timestamp") && includes (header_of body) (js "event_type").

(** A line the loops skip: empty once trimmed. *)
Definition is_blank (l : jsstring) : bool :=
  match trim l with
  | [] => true
  | _ :: _ => false
  end.

Definition unlines (ls : list jsstring) : jsstring := join [LF] ls.

(** The normalization of a text-mode row, the part of [csv_row] between
    drawing the identifier and the INSERT: timestamp, then `data`, then
    `tags`. *)
Definition csv_normalize (H : Host) (cols : Columns) (line : jsstring) : result (Z * json * json) :=
  let values := parseCSVLine line in
  match parseTimestamp (Date_parse H) (tsvalue_of_cell (js_index values (timestampIdx cols))) with
  | Throw err => Throw err
  | Ok timestamp =>
      match decode_cell values (dataIdx cols) (js "Invalid JSON in data column") with
      | Throw err => Throw err
      | Ok data =>
          match decode_cell values (tagsIdx cols) (js "Invalid JSON in tags column") with
          | Throw err => Throw err
          | Ok tags => Ok (timestamp, data, tags)
          end
      end
  end.

(** Sample inputs. *)

Definition alice : jsstring := js "user-1".

Definition row_ok : jsstring := js "2024-01-15T08:30:00Z,weight".

(** Three data lines, the second one empty. *)
Definition body_blank_line : jsstring :=
  unlines [js "timestamp,event_type"; row_ok; js ""; js "2024-01-16T08:30:00Z,run"].

(** Three data rows, the second with a `data` cell that is not JSON. *)
Definition body_bad_data : jsstring :=
  unlines [js "timestamp,event_type,data";
           js "2024-01-15T08:30:00Z,weight,{}";
           js "2024-01-16T08:30:00Z,weight,{oops";
           js "2024-01-17T08:30:00Z,weight,{}"].


(** One data row whose `data` and `tags` cells are JSON numbers. *)
Definition body_scalar_cells : jsstring :=
  unlines [js "timestamp,event_type,data,tags"; js "2024-01-15T08:30:00Z,weight,5,7"].

(** A header and nothing else. *)
Definition body_header_only : jsstring := js "timestamp,event_type".

(** Fifty data rows. *)
Definition body_fifty_rows : jsstring :=
  unlines (js "timestamp,event_type" :: repeat row_ok 50).

(** Fifty data lines, the second one empty. *)
Definition body_fifty_lines_one_blank : jsstring :=
  unlines (js "timestamp,event_type" :: row_ok :: js "" :: repeat row_ok 48).

(** A header without `event_type`. *)
Definition body_no_event_type : jsstring :=
  unlines [js "timestamp,type"; js "2024-01-15T08:30:00Z,weight"].


(** An event tagged `health`, and the list query that filters on [tags]
    alone. *)
Definition health_event : CreateEvent :=
  {| ce_timestamp := Some 1705307400000%Z; ce_event_type := js "weight";
     ce_data := None; ce_tags := Some [js "health"]; ce_source := None |}.

Definition query_tags (tags : jsstring) : ListQuery :=
  {| q_event_type := None; q_start := None; q_end := None;
     q_tags := Some tags; q_limit := 100; q_offset := 0 |}.

(** The reference of an error message: "Line n: ..." and "Event n: ...". *)
Definition line_ref (n : nat) (message : jsstring) : jsstring :=
  js "Line " ++ nat_to_jsstring n ++ js ": " ++ message.

Definition event_ref (n : nat) (message : jsstring) : jsstring :=
  js "Event " ++ nat_to_jsstring n ++ js ": " ++ message.

(** * More of the code: the remaining event routes *)

(** ** `GET /:id`, `PATCH /:id`, `DELETE /:id`, `GET /types/list`

    The statements of these routes are run on the table as SQL defines
    them: none of them can violate a constraint of `events`. *)

(** `WHERE id = ? AND user_id = ?` *)
Definition is_event (eventId user : jsstring) (e : Event) : bool :=
  jsstring_eqb (ev_id e) eventId && jsstring_eqb (ev_user_id e) user.

(** `SELECT * FROM events WHERE id = ? AND user_id = ?` with `.first()` *)
Definition find_event (table : list Event) (eventId user : jsstring) : option Event :=
  find (is_event eventId user) table.

Definition not_found : jsstring := js "Event not found".

Definition get_event (H : Host) (user eventId : jsstring) : M (response EventView) :=
  fun w =>
    match find_event (events w) eventId user with
    | None => (Ok (Failure 404 not_found), w)
    | Some event =>
        match view_of H event with
        | Ok v => (Ok (Success v), w)
        | Throw err => (Throw err, w)
        end
    end.

(** The request body after validation by `updateEventSchema`. *)
Record UpdateEvent := {
  ue_timestamp : option Z;
  ue_event_type : option jsstring;
  ue_data : option json;
  ue_tags : option (list jsstring)
}.

(** An assignment of the SET clause with the parameter bound to it. *)
Inductive assignment :=
| SetTimestamp (t : Z)
| SetEventType (ty : jsstring)
| SetData (text : jsstring)
| SetTags (text : jsstring).

(** `updates` and `params` as the four `if (body.x !== undefined)` build
    them. *)
Definition build_updates (body : UpdateEvent) : list assignment :=
  match ue_timestamp body with Some t => [SetTimestamp t] | None => [] end
  ++ match ue_event_type body with Some ty => [SetEventType ty] | None => [] end
  ++ match ue_data body with Some d => [SetData (JSON_stringify d)] | None => [] end
  ++ match ue_tags body with
     | Some t => [SetTags (JSON_stringify (JArray (map JString t)))]
     | None => []
     end.

Definition assign (e : Event) (a : assignment) : Event :=
  match a with
  | SetTimestamp t =>
      {| ev_id := ev_id e; ev_user_id := ev_user_id e; ev_timestamp := t;
         ev_event_type := ev_event_type e; ev_data := ev_data e; ev_tags := ev_tags e;
         ev_source := ev_source e; ev_created_at := ev_created_at e |}
  | SetEventType ty =>
      {| ev_id := ev_id e; ev_user_id := ev_user_id e; ev_timestamp := ev_timestamp e;
         ev_event_type := ty; ev_data := ev_data e; ev_tags := ev_tags e;
         ev_source := ev_source e; ev_created_at := ev_created_at e |}
  | SetData text =>
      {| ev_id := ev_id e; ev_user_id := ev_user_id e; ev_timestamp := ev_timestamp e;
         ev_event_type := ev_event_type e; ev_data := Some text; ev_tags := ev_tags e;
         ev_source := ev_source e; ev_created_at := ev_created_at e |}
  | SetTags text =>
      {| ev_id := ev_id e; ev_user_id := ev_user_id e; ev_timestamp := ev_timestamp e;
         ev_event_type := ev_event_type e; ev_data := ev_data e; ev_tags := Some text;
         ev_source := ev_source e; ev_created_at := ev_created_at e |}
  end.

(** `UPDATE events SET ... WHERE id = ? AND user_id = ?` *)
Definition sql_update (table : list Event) (updates : list assignment)
    (eventId user : jsstring) : list Event :=
  map (fun e => if is_event eventId user e then fold_left assign updates e else e) table.

(** The event of the PATCH response: the row read back, or, were it
    gone, an object with `data` and `tags` alone ([None]). *)
Definition update_event (H : Host) (user eventId : jsstring) (body : UpdateEvent)
    : M (response (option EventView)) :=
  fun w =>
    match find_event (events w) eventId user with
    | None => (Ok (Failure 404 not_found), w)
    | Some existing =>
        let updates := build_updates body in
        match updates with
        | [] => (Ok (Failure 400 (js "No fields to update")), w)
        | _ :: _ =>
            let w' := {| events := sql_update (events w) updates eventId user;
                         ulid_calls := ulid_calls w |} in
            match find_event (events w') eventId user with
            | None => (Ok (Success None), w')
            | Some updated =>
                match view_of H updated with
                | Ok v => (Ok (Success (Some v)), w')
                | Throw err => (Throw err, w')
                end
            end
        end
    end.

(** `DELETE FROM events WHERE id = ? AND user_id = ?` *)
Definition sql_delete (table : list Event) (eventId user : jsstring) : list Event :=
  filter (fun e => negb (is_event eventId user e)) table.

(** `result.meta.changes` *)
Definition changes (before after : list Event) : nat := length before - length after.

Definition delete_event (user eventId : jsstring) : M (response unit) :=
  fun w =>
    let table' := sql_delete (events w) eventId user in
    let w' := {| events := table'; ulid_calls := ulid_calls w |} in
    if changes (events w) table' =? 0 then (Ok (Failure 404 not_found), w')
    else (Ok (Success tt), w').

(** The order of TEXT values under the BINARY collation, on code units
    (the byte order of UTF-8, but for a surrogate pair against a unit
    above the surrogates). *)
Fixpoint jsstring_ltb (a b : jsstring) : bool :=
  match a, b with
  | _, [] => false
  | [], _ :: _ => true
  | x :: a', y :: b' => (x <? y)%N || (N.eqb x y && jsstring_ltb a' b')
  end.

(** `DISTINCT ... ORDER BY event_type`: insertion into a sorted list
    without duplicates. *)
Fixpoint insert_distinct (x : jsstring) (sorted : list jsstring) : list jsstring :=
  match sorted with
  | [] => [x]
  | y :: r =>
      if jsstring_eqb x y then sorted
      else if jsstring_ltb x y then x :: sorted
      else y :: insert_distinct x r
  end.

(** `SELECT DISTINCT event_type FROM events WHERE user_id = ? ORDER BY
    event_type` *)
Definition select_types (table : list Event) (user : jsstring) : list jsstring :=
  fold_right insert_distinct []
    (map ev_event_type (filter (fun e => jsstring_eqb (ev_user_id e) user) table)).

Definition list_types (user : jsstring) : M (response (list jsstring)) :=
  fun w => (Ok (Success (select_types (events w) user)), w).

(** Sample worlds and requests for the event routes. *)

Definition bob : jsstring := js "user-2".

(** The world after `alice` has created [health_event]; its id is the
    first identifier of the reference host. *)
Definition world_one : World := snd (create_event refHost 0 alice health_event emptyWorld).

Definition first_id : jsstring := ulid refHost 0.

Definition retype_body : UpdateEvent :=
  {| ue_timestamp := None; ue_event_type := Some (js "mass");
     ue_data := None; ue_tags := None |}.

(** The rows of one owner. *)
Definition rows_of (user : jsstring) (table : list Event) : list Event :=
  filter (fun e => jsstring_eqb (ev_user_id e) user) table.

(** A query with another page. *)
Definition with_page (q : ListQuery) (limit offset : nat) : ListQuery :=
  {| q_event_type := q_event_type q; q_start := q_start q; q_end := q_end q;
     q_tags := q_tags q; q_limit := limit; q_offset := offset |}.




(** * More of the code: what the imports leave in the table *)

(** The row an INSERT stores for the values bound to it. *)
Definition row_of (p : InsertParams) (event_type : jsstring) : Event :=
  {| ev_id := p_id p;
     ev_user_id := p_user_id p;
     ev_timestamp := p_timestamp p;
     ev_event_type := event_type;
     ev_data := p_data p;
     ev_tags := p_tags p;
     ev_source := p_source p;
     ev_created_at := p_created_at p |}.

(** A host whose database, when it accepts an INSERT, has appended the
    row it was given. *)
Definition stores_rows (H : Host) : Prop :=
  forall table p table',
    D1_insert H table p = Ok table' ->
    exists ty, p_event_type p = Some ty /\ table' = table ++ [row_of p ty].

(** A row of `events` that text mode made of the line [l]: stamped with
    the owner, the source and the time of the request, its timestamp
    what `Date` reads in the timestamp cell, its event type the event
    type cell. *)
Definition csv_row_of (H : Host) (now : Z) (user : jsstring) (cols : Columns)
    (l : jsstring) (e : Event) : Prop :=
  ev_user_id e = user /\ ev_source e = js "csv_import" /\ ev_created_at e = now
  /\ exists cell,
       js_index (parseCSVLine (trim l)) (timestampIdx cols) = Some cell
       /\ Date_parse H cell = Some (ev_timestamp e)
       /\ js_index (parseCSVLine (trim l)) (eventTypeIdx cols) = Some (ev_event_type e).


(** [sub] is [l] with some elements left out. *)
Inductive sublist {A} : list A -> list A -> Prop :=
| sublist_nil : sublist [] []
| sublist_skip x sub l : sublist sub l -> sublist sub (x :: l)
| sublist_keep x sub l : sublist sub l -> sublist (x :: sub) (x :: l).

(** [s] does not start with white space. *)
Definition starts_clean (s : jsstring) : Prop :=
  match s with
  | c :: _ => is_whitespace c = false
  | [] => True
  end.

(** * More of the code: password hashing (`lib/password.ts`) *)

(** ** Base64: `btoa` and `atob`

    `btoa` refuses a code unit above 255 and encodes the others as
    bytes; `atob` is the forgiving decoding of the HTML standard. *)

Module Base64.

Definition EQUALS : N := 61.

(** The 64 characters: A to Z, a to z, 0 to 9, plus, slash. *)
Definition char_of (n : N) : N :=
  if (n <? 26)%N then (65 + n)%N
  else if (n <? 52)%N then (97 + (n - 26))%N
  else if (n <? 62)%N then (48 + (n - 52))%N
  else if (n =? 62)%N then 43%N
  else 47%N.

Definition index_of (c : N) : option N :=
  if ((65 <=? c) && (c <=? 90))%N then Some (c - 65)%N
  else if ((97 <=? c) && (c <=? 122))%N then Some (c - 97 + 26)%N
  else if ((48 <=? c) && (c <=? 57))%N then Some (c - 48 + 52)%N
  else if (c =? 43)%N then Some 62%N
  else if (c =? 47)%N then Some 63%N
  else None.

Fixpoint encode (bytes : list N) : jsstring :=
  match bytes with
  | [] => []
  | [a] => [char_of (a / 4); char_of ((a mod 4) * 16); EQUALS; EQUALS]%N
  | [a; b] =>
      [char_of (a / 4); char_of ((a mod 4) * 16 + b / 16);
       char_of ((b mod 16) * 4); EQUALS]%N
  | a :: b :: c :: rest =>
      (char_of (a / 4) :: char_of ((a mod 4) * 16 + b / 16)
       :: char_of ((b mod 16) * 4 + c / 64) :: char_of (c mod 64) :: encode rest)%N
  end.

(** One or two `=` at the end are removed. *)
Definition strip_padding (data : jsstring) : jsstring :=
  match rev data with
  | e1 :: e2 :: r =>
      if N.eqb e1 EQUALS then (if N.eqb e2 EQUALS then rev r else rev (e2 :: r))
      else data
  | [e1] => if N.eqb e1 EQUALS then [] else data
  | [] => data
  end.

(** Four characters give three bytes; a rest of two or three characters
    gives one or two bytes, its last bits dropped. *)
Fixpoint decode_groups (data : jsstring) : option (list N) :=
  match data with
  | [] => Some []
  | [_] => None
  | [a; b] =>
      match index_of a, index_of b with
      | Some x, Some y => Some [x * 4 + y / 16]%N
      | _, _ => None
      end
  | [a; b; c] =>
      match index_of a, index_of b, index_of c with
      | Some x, Some y, Some z => Some [x * 4 + y / 16; (y mod 16) * 16 + z / 4]%N
      | _, _, _ => None
      end
  | a :: b :: c :: d :: rest =>
      match index_of a, index_of b, index_of c, index_of d, decode_groups rest with
      | Some x, Some y, Some z, Some w, Some bytes =>
          Some (x * 4 + y / 16 :: (y mod 16) * 16 + z / 4 :: (z mod 4) * 64 + w :: bytes)%N
      | _, _, _, _, _ => None
      end
  end.

Definition is_ascii_whitespace (c : N) : bool :=
  existsb (N.eqb c) [9; 10; 12; 13; 32]%N.

Definition InvalidCharacterError : exn :=
  ErrorObj (js "InvalidCharacterError").

End Base64.

Definition btoa (binary : jsstring) : result jsstring :=
  if forallb (fun c => (c <? 256)%N) binary then Ok (Base64.encode binary)
  else Throw Base64.InvalidCharacterError.

Definition atob (data : jsstring) : result jsstring :=
  let data := filter (fun c => negb (Base64.is_ascii_whitespace c)) data in
  let data := if length data mod 4 =? 0 then Base64.strip_padding data else data in
  if length data mod 4 =? 1 then Throw Base64.InvalidCharacterError
  else match Base64.decode_groups data with
       | Some bytes => Ok bytes
       | None => Throw Base64.InvalidCharacterError
       end.

(** `parseInt(s, 10)`: white space, a sign, then the longest run of
    digits; [None] is `NaN`. *)
Definition parseInt (s : jsstring) : option Z :=
  let s := trimStart s in
  let '(sign, s) :=
    match s with
    | c :: r =>
        if N.eqb c (chr "-") then ((-1)%Z, r)
        else if N.eqb c (chr "+") then (1%Z, r)
        else (1%Z, s)
    | [] => (1%Z, s)
    end in
  match Json.digits s with
  | ([], _) => None
  | (d, _) => Some (sign * Json.digits_value d)%Z
  end.

(** ** `hashPassword` and `verifyPassword` *)

Definition PBKDF2_ITERATIONS : Z := 100000.
Definition SALT_LENGTH : nat := 16.
Definition KEY_LENGTH : nat := 32.

Definition DOLLAR : N := 36.

(** An `ArrayBuffer` is the list of its bytes. *)
Definition is_bytes (buffer : list N) : Prop := Forall (fun b => (b < 256)%N) buffer.

(** `String.fromCharCode(n)` and the store of a number into a
    `Uint8Array`. *)
Definition fromCharCode (n : N) : N := (n mod 65536)%N.
Definition to_uint8 (n : N) : N := (n mod 256)%N.

Definition arrayBufferToBase64 (buffer : list N) : result jsstring :=
  let binary := map fromCharCode buffer in
  btoa binary.

Definition base64ToArrayBuffer (base64 : jsstring) : result (list N) :=
  match atob base64 with
  | Throw err => Throw err
  | Ok binary => Ok (map to_uint8 binary)
  end.

(** What Web Crypto and the encoder decide: the UTF-8 bytes of a string,
    and `importKey` followed by `deriveBits` for PBKDF2 with SHA-256, on
    the password bytes, the salt, the iteration count ([None] for `NaN`)
    and the number of bits. *)
Record Crypto := {
  TextEncoder_encode : jsstring -> list N;
  deriveBits : list N -> list N -> option Z -> nat -> result (list N)
}.

(** `hashPassword`, [salt] being the bytes `crypto.getRandomValues` drew. *)
Definition hashPassword (C : Crypto) (salt : list N) (password : jsstring) : result jsstring :=
  let passwordBuffer := TextEncoder_encode C password in
  match deriveBits C passwordBuffer salt (Some PBKDF2_ITERATIONS) (KEY_LENGTH * 8) with
  | Throw err => Throw err
  | Ok derivedBits =>
      match arrayBufferToBase64 salt with
      | Throw err => Throw err
      | Ok saltBase64 =>
          match arrayBufferToBase64 derivedBits with
          | Throw err => Throw err
          | Ok hashBase64 =>
              Ok (js "pbkdf2" ++ [DOLLAR]
                  ++ js (NilZero.string_of_int (Z.to_int PBKDF2_ITERATIONS)) ++ [DOLLAR]
                  ++ saltBase64 ++ [DOLLAR] ++ hashBase64)
          end
      end
  end.

(** The loop of the comparison: `result |= a.charCodeAt(i) ^
    b.charCodeAt(i)` for every index of [a]; past the end of [b] the
    code is `NaN`, which the exclusive or takes as 0. *)
Fixpoint compare_loop (a b : jsstring) (result : N) : N :=
  match a with
  | [] => result
  | x :: a' =>
      match b with
      | y :: b' => compare_loop a' b' (N.lor result (N.lxor x y))
      | [] => compare_loop a' [] (N.lor result (N.lxor x 0))
      end
  end.

Definition verifyPassword (C : Crypto) (password storedHash : jsstring) : result bool :=
  let parts := split DOLLAR storedHash in
  if negb (length parts =? 4)
     || negb (match js_index parts 0 with
              | Some p => jsstring_eqb p (js "pbkdf2")
              | None => false
              end)
  then Ok false
  else
    let iterations := parseInt (nth 1 parts []) in
    match base64ToArrayBuffer (nth 2 parts []) with
    | Throw err => Throw err
    | Ok salt =>
        let expectedHash := nth 3 parts [] in
        let passwordBuffer := TextEncoder_encode C password in
        match deriveBits C passwordBuffer salt iterations (KEY_LENGTH * 8) with
        | Throw err => Throw err
        | Ok derivedBits =>
            match arrayBufferToBase64 derivedBits with
            | Throw err => Throw err
            | Ok computedHash =>
                if negb (length computedHash =? length expectedHash) then Ok false
                else Ok (N.eqb (compare_loop computedHash expectedHash 0) 0)
            end
        end
    end.

(** A toy derivation for running the code: the bytes of the password
    followed by the salt. *)
Definition toyCrypto : Crypto :=
  {| TextEncoder_encode := map to_uint8;
     deriveBits := fun password salt iterations bits =>
       match iterations with
       | Some _ => Ok (password ++ salt)
       | None => Throw (ErrorObj (js "TypeError"))
       end |}.

(** The encoding without its padding, and the padding. *)
Fixpoint unpadded (bytes : list N) : jsstring :=
  match bytes with
  | [] => []
  | [a] => [Base64.char_of (a / 4); Base64.char_of ((a mod 4) * 16)]%N
  | [a; b] =>
      [Base64.char_of (a / 4); Base64.char_of ((a mod 4) * 16 + b / 16);
       Base64.char_of ((b mod 16) * 4)]%N
  | a :: b :: c :: rest =>
      (Base64.char_of (a / 4) :: Base64.char_of ((a mod 4) * 16 + b / 16)
       :: Base64.char_of ((b mod 16) * 4 + c / 64) :: Base64.char_of (c mod 64)
       :: unpadded rest)%N
  end.

Fixpoint padding (bytes : list N) : jsstring :=
  match bytes with
  | [] => []
  | [_] => [Base64.EQUALS; Base64.EQUALS]
  | [_; _] => [Base64.EQUALS]
  | _ :: _ :: _ :: rest => padding rest
  end.

(** A character of the alphabet. *)
Definition in_alphabet (c : N) : Prop := Base64.index_of c <> None.

(** The text `hashPassword` builds from a salt and the derived bits. *)
Definition stored_hash (salt derivedBits : list N) : jsstring :=
  js "pbkdf2" ++ [DOLLAR] ++ js "100000" ++ [DOLLAR]
  ++ Base64.encode salt ++ [DOLLAR] ++ Base64.encode derivedBits.

(** * Accounts and sessions

    The tables `auth_users`, `auth_sessions` and
    `auth_verification_tokens`, the statements the code runs on them, the
    two middlewares and the routes of `/api/auth`.  What the platform
    draws during a request (`Date.now()`, `crypto.randomUUID()`, the
    random salt) is an argument of the handler, in the order of the
    draws. *)

Record UserRow := {
  usr_id : jsstring;
  usr_email : jsstring;
  usr_email_verified : Z;
  usr_password_hash : jsstring;
  usr_created_at : Z;
  usr_updated_at : option Z
}.

Record Session := {
  ses_id : jsstring;
  ses_user_id : jsstring;
  ses_expires_at : Z;
  ses_created_at : Z
}.

Record VerificationToken := {
  tok_id : jsstring;
  tok_user_id : jsstring;
  tok_token : jsstring;
  tok_type : jsstring;
  tok_expires_at : Z;
  tok_created_at : Z
}.

Record Db := {
  auth_users : list UserRow;
  auth_sessions : list Session;
  auth_verification_tokens : list VerificationToken
}.

(** The columns the middleware selects: the interface `User`. *)
Record User := {
  user_id : jsstring;
  user_email : jsstring;
  user_email_verified : Z;
  user_created_at : Z;
  user_updated_at : option Z
}.

Definition user_of (row : UserRow) : User :=
  {| user_id := usr_id row;
     user_email := usr_email row;
     user_email_verified := usr_email_verified row;
     user_created_at := usr_created_at row;
     user_updated_at := usr_updated_at row |}.

(** `String.prototype.toLowerCase`, the hashing primitives, and what
    `run()` throws when a statement violates a constraint of the
    schema. *)
Record Platform := {
  toLowerCase : jsstring -> jsstring;
  crypto : Crypto;
  SQLITE_CONSTRAINT : exn
}.

(** ** Statements *)

(** `SELECT ... FROM auth_users WHERE email = ?`, first row *)
Definition user_by_email (db : Db) (address : jsstring) : option UserRow :=
  find (fun row => jsstring_eqb (usr_email row) address) (auth_users db).

(** `SELECT ... FROM auth_users WHERE id = ?`, first row *)
Definition user_by_id (db : Db) (userId : jsstring) : option UserRow :=
  find (fun row => jsstring_eqb (usr_id row) userId) (auth_users db).

(** `SELECT * FROM auth_sessions WHERE id = ? AND expires_at > ?`, first row *)
Definition live_session (db : Db) (sessionId : jsstring) (now : Z) : option Session :=
  find (fun s => jsstring_eqb (ses_id s) sessionId && (now <? ses_expires_at s)%Z)
       (auth_sessions db).

(** `INSERT INTO auth_users (id, email, password_hash, created_at)`: the
    id is the primary key, the email is `UNIQUE`, `email_verified`
    defaults to 0 and `updated_at` to `NULL`. *)
Definition insert_user (P : Platform) (db : Db)
    (userId address passwordHash : jsstring) (now : Z) : result Db :=
  if existsb (fun row => jsstring_eqb (usr_id row) userId
                         || jsstring_eqb (usr_email row) address) (auth_users db)
  then Throw (SQLITE_CONSTRAINT P)
  else Ok {| auth_users := auth_users db
               ++ [{| usr_id := userId;
                      usr_email := address;
                      usr_email_verified := 0;
                      usr_password_hash := passwordHash;
                      usr_created_at := now;
                      usr_updated_at := None |}];
             auth_sessions := auth_sessions db;
             auth_verification_tokens := auth_verification_tokens db |}.

(** `INSERT INTO auth_sessions (id, user_id, expires_at, created_at)`: the
    id is the primary key and `user_id` references `auth_users(id)`. *)
Definition insert_session (P : Platform) (db : Db)
    (sessionId userId : jsstring) (expiresAt now : Z) : result Db :=
  if existsb (fun s => jsstring_eqb (ses_id s) sessionId) (auth_sessions db)
     || negb (existsb (fun row => jsstring_eqb (usr_id row) userId) (auth_users db))
  then Throw (SQLITE_CONSTRAINT P)
  else Ok {| auth_users := auth_users db;
             auth_sessions := auth_sessions db
               ++ [{| ses_id := sessionId;
                      ses_user_id := userId;
                      ses_expires_at := expiresAt;
                      ses_created_at := now |}];
             auth_verification_tokens := auth_verification_tokens db |}.

(** `DELETE FROM auth_sessions WHERE id = ?` *)
Definition delete_session (db : Db) (sessionId : jsstring) : Db :=
  {| auth_users := auth_users db;
     auth_sessions :=
       filter (fun s => negb (jsstring_eqb (ses_id s) sessionId)) (auth_sessions db);
     auth_verification_tokens := auth_verification_tokens db |}.

(** `DELETE FROM auth_sessions WHERE user_id = ?` *)
Definition delete_sessions_of (db : Db) (userId : jsstring) : Db :=
  {| auth_users := auth_users db;
     auth_sessions :=
       filter (fun s => negb (jsstring_eqb (ses_user_id s) userId)) (auth_sessions db);
     auth_verification_tokens := auth_verification_tokens db |}.

(** `SELECT * FROM auth_verification_tokens WHERE token = ? AND type =
    'password_reset' AND expires_at > ?`, first row *)
Definition reset_token (db : Db) (token : jsstring) (now : Z) : option VerificationToken :=
  find (fun t => jsstring_eqb (tok_token t) token
                 && jsstring_eqb (tok_type t) (js "password_reset")
                 && (now <? tok_expires_at t)%Z)
       (auth_verification_tokens db).

(** `DELETE FROM auth_verification_tokens WHERE user_id = ? AND type =
    'password_reset'` *)
Definition delete_reset_tokens (db : Db) (userId : jsstring) : Db :=
  {| auth_users := auth_users db;
     auth_sessions := auth_sessions db;
     auth_verification_tokens :=
       filter (fun t => negb (jsstring_eqb (tok_user_id t) userId
                              && jsstring_eqb (tok_type t) (js "password_reset")))
              (auth_verification_tokens db) |}.

(** `DELETE FROM auth_verification_tokens WHERE id = ?` *)
Definition delete_token (db : Db) (tokenId : jsstring) : Db :=
  {| auth_users := auth_users db;
     auth_sessions := auth_sessions db;
     auth_verification_tokens :=
       filter (fun t => negb (jsstring_eqb (tok_id t) tokenId))
              (auth_verification_tokens db) |}.

(** `INSERT INTO auth_verification_tokens (id, user_id, token, type,
    expires_at, created_at)`: the id is the primary key, the token is
    `UNIQUE` and `user_id` references `auth_users(id)`. *)
Definition insert_token (P : Platform) (db : Db)
    (tokenId userId token type : jsstring) (expiresAt now : Z) : result Db :=
  if existsb (fun t => jsstring_eqb (tok_id t) tokenId || jsstring_eqb (tok_token t) token)
             (auth_verification_tokens db)
     || negb (existsb (fun row => jsstring_eqb (usr_id row) userId) (auth_users db))
  then Throw (SQLITE_CONSTRAINT P)
  else Ok {| auth_users := auth_users db;
             auth_sessions := auth_sessions db;
             auth_verification_tokens := auth_verification_tokens db
               ++ [{| tok_id := tokenId;
                      tok_user_id := userId;
                      tok_token := token;
                      tok_type := type;
                      tok_expires_at := expiresAt;
                      tok_created_at := now |}] |}.

(** `UPDATE auth_users SET password_hash = ?, updated_at = ? WHERE id = ?` *)
Definition update_password (db : Db) (passwordHash : jsstring) (now : Z) (userId : jsstring)
    : Db :=
  {| auth_users :=
       map (fun row =>
              if jsstring_eqb (usr_id row) userId
              then {| usr_id := usr_id row;
                      usr_email := usr_email row;
                      usr_email_verified := usr_email_verified row;
                      usr_password_hash := passwordHash;
                      usr_created_at := usr_created_at row;
                      usr_updated_at := Some now |}
              else row)
           (auth_users db);
     auth_sessions := auth_sessions db;
     auth_verification_tokens := auth_verification_tokens db |}.

(** ** The middlewares *)

(** The variables of the request context. *)
Record Vars := {
  var_user : option User;
  var_session : option Session
}.

Definition no_vars : Vars := {| var_user := None; var_session := None |}.

(** `authMiddleware`: [cookie] is what `getCookie` returns for
    `lifelogs_session`, [now] what `Date.now()` returns; the result is the
    context `next()` runs in. *)
Definition authMiddleware (now : Z) (db : Db) (cookie : option jsstring) : Vars :=
  match cookie with
  | Some sessionId =>
      if truthy_cell cookie then
        match live_session db sessionId now with
        | Some session =>
            match user_by_id db (ses_user_id session) with
            | Some row => {| var_user := Some (user_of row); var_session := Some session |}
            | None => no_vars
            end
        | None => no_vars
        end
      else no_vars
  | None => no_vars
  end.

(** `requireAuth` in front of a handler that reads `c.get('user')`; the
    handler runs on a state of its own. *)
Definition requireAuth {S A : Type} (vars : Vars)
    (next : User -> S -> result (response A) * S) : S -> result (response A) * S :=
  match var_user vars with
  | None => fun s => (Ok (Failure 401 (js "Unauthorized")), s)
  | Some user => next user
  end.

(** ** The routes of `/api/auth` *)

Definition SESSION_DURATION_MS : Z := 30 * 24 * 60 * 60 * 1000.

(** The `user` object of a response. *)
Record UserBody := {
  body_id : jsstring;
  body_email : jsstring;
  body_email_verified : Z
}.

(** What a response does to the session cookie. *)
Inductive cookie_header :=
| NoCookie
| SetCookie (value : jsstring) (maxAge : Z)
| DeleteCookie.

Record Reply (A : Type) := {
  reply : response A;
  cookie_of : cookie_header
}.

(** `POST /register`, on a body that passed `registerSchema` *)
Definition register (P : Platform) (userId : jsstring) (salt : list N) (now : Z)
    (sessionId : jsstring) (address password : jsstring) (db : Db)
    : result (Reply UserBody) * Db :=
  match user_by_email db (toLowerCase P address) with
  | Some _ =>
      (Ok {| reply := Failure 400 (js "Email already registered"); cookie_of := NoCookie |},
       db)
  | None =>
      match hashPassword (crypto P) salt password with
      | Throw err => (Throw err, db)
      | Ok passwordHash =>
          match insert_user P db userId (toLowerCase P address) passwordHash now with
          | Throw err => (Throw err, db)
          | Ok db1 =>
              let expiresAt := (now + SESSION_DURATION_MS)%Z in
              match insert_session P db1 sessionId userId expiresAt now with
              | Throw err => (Throw err, db1)
              | Ok db2 =>
                  (Ok {| reply := Success {| body_id := userId;
                                             body_email := toLowerCase P address;
                                             body_email_verified := 0 |};
                         cookie_of := SetCookie sessionId (SESSION_DURATION_MS / 1000) |},
                   db2)
              end
          end
      end
  end.

(** `POST /login`, on a body that passed `loginSchema` *)
Definition login (P : Platform) (sessionId : jsstring) (now : Z)
    (address password : jsstring) (db : Db) : result (Reply UserBody) * Db :=
  let invalid :=
    {| reply := Failure 401 (js "Invalid email or password"); cookie_of := NoCookie |} in
  match user_by_email db (toLowerCase P address) with
  | None => (Ok invalid, db)
  | Some user =>
      match verifyPassword (crypto P) password (usr_password_hash user) with
      | Throw err => (Throw err, db)
      | Ok false => (Ok invalid, db)
      | Ok true =>
          let expiresAt := (now + SESSION_DURATION_MS)%Z in
          match insert_session P db sessionId (usr_id user) expiresAt now with
          | Throw err => (Throw err, db)
          | Ok db1 =>
              (Ok {| reply := Success {| body_id := usr_id user;
                                         body_email := usr_email user;
                                         body_email_verified := usr_email_verified user |};
                     cookie_of := SetCookie sessionId (SESSION_DURATION_MS / 1000) |},
               db1)
          end
      end
  end.

(** `POST /logout`; the body is `{ success: true }`. *)
Definition logout (vars : Vars) (db : Db) : Reply unit * Db :=
  let db1 :=
    match var_session vars with
    | Some session => delete_session db (ses_id session)
    | None => db
    end in
  ({| reply := Success tt; cookie_of := DeleteCookie |}, db1).

(** `GET /me` behind `requireAuth` *)
Definition me (vars : Vars) (db : Db) : result (response UserBody) * Db :=
  requireAuth vars
    (fun user db =>
       (Ok (Success {| body_id := user_id user;
                       body_email := user_email user;
                       body_email_verified := user_email_verified user |}), db))
    db.

(** `POST /forgot-password` *)
Definition forgot_password (P : Platform) (tokenId token : jsstring) (now : Z)
    (address : jsstring) (db : Db) : result (response unit) * Db :=
  match user_by_email db (toLowerCase P address) with
  | None => (Ok (Success tt), db)
  | Some user =>
      let db1 := delete_reset_tokens db (usr_id user) in
      let expiresAt := (now + 60 * 60 * 1000)%Z in
      match insert_token P db1 tokenId (usr_id user) token (js "password_reset")
                         expiresAt now with
      | Throw err => (Throw err, db1)
      | Ok db2 => (Ok (Success tt), db2)
      end
  end.

(** `POST /reset-password`; [asked] is the `Date.now()` of the query,
    [now] the later one. *)
Definition reset_password (P : Platform) (asked : Z) (salt : list N) (now : Z)
    (token password : jsstring) (db : Db) : result (response unit) * Db :=
  match reset_token db token asked with
  | None => (Ok (Failure 400 (js "Invalid or expired token")), db)
  | Some tokenRecord =>
      match hashPassword (crypto P) salt password with
      | Throw err => (Throw err, db)
      | Ok passwordHash =>
          let db1 := update_password db passwordHash now (tok_user_id tokenRecord) in
          let db2 := delete_sessions_of db1 (tok_user_id tokenRecord) in
          let db3 := delete_token db2 (tok_id tokenRecord) in
          (Ok (Success tt), db3)
      end
  end.

(** A platform to run the code on: ASCII lower case and the toy
    derivation. *)
Definition ascii_lower (c : N) : N :=
  if (65 <=? c)%N && (c <=? 90)%N then (c + 32)%N else c.

Definition toyPlatform : Platform :=
  {| toLowerCase := map ascii_lower;
     crypto := toyCrypto;
     SQLITE_CONSTRAINT := ErrorObj (js "D1_ERROR: constraint failed") |}.

Definition emptyDb : Db :=
  {| auth_users := []; auth_sessions := []; auth_verification_tokens := [] |}.

(** The tables after `ann` has registered and logged in once more. *)
Definition db_ann : Db :=
  snd (login toyPlatform (js "s2") 2000 (js "ann@example.org") (js "correct horse")
         (snd (register toyPlatform (js "u1") [7; 8]%N 1000 (js "s1")
                 (js "ann@example.org") (js "correct horse") emptyDb))).

(** The same tables with a password-reset token for `ann`. *)
Definition db_ann_token : Db :=
  snd (forgot_password toyPlatform (js "t1") (js "reset-me") 5000 (js "ann@example.org")
         db_ann).

(** * Schemas

    The table `event_schemas` and the routes of `/api/schemas` that
    write to it.  A handler runs for the id of the authenticated user on
    the table, reads `auth_users` for the foreign key, and is given what
    `ulid()` and `Date.now()` return. *)

Record EventSchema := {
  sch_id : jsstring;
  sch_user_id : jsstring;
  sch_name : jsstring;
  sch_label : jsstring;
  sch_fields : jsstring;
  sch_icon : option jsstring;
  sch_color : option jsstring;
  sch_default_tags : option jsstring;
  sch_created_at : Z
}.

(** The `schema` object of a response. *)
Record SchemaView := {
  sv_id : jsstring;
  sv_user_id : jsstring;
  sv_name : jsstring;
  sv_label : jsstring;
  sv_fields : json;
  sv_icon : option jsstring;
  sv_color : option jsstring;
  sv_default_tags : json;
  sv_created_at : Z
}.

(** The request body after validation by `createSchemaSchema`; a field
    definition is the JSON object validation returns. *)
Record CreateSchema := {
  cs_name : jsstring;
  cs_label : jsstring;
  cs_fields : list json;
  cs_icon : option jsstring;
  cs_color : option jsstring;
  cs_default_tags : option (list jsstring)
}.

(** `WHERE name = ? AND user_id = ?` *)
Definition is_named (name user : jsstring) (r : EventSchema) : bool :=
  jsstring_eqb (sch_name r) name && jsstring_eqb (sch_user_id r) user.

(** `WHERE id = ? AND user_id = ?` *)
Definition is_schema (schemaId user : jsstring) (r : EventSchema) : bool :=
  jsstring_eqb (sch_id r) schemaId && jsstring_eqb (sch_user_id r) user.

(** `INSERT INTO event_schemas`: the id is the primary key, `(user_id,
    name)` is `UNIQUE` and `user_id` references `auth_users(id)`. *)
Definition insert_schema (P : Platform) (db : Db) (table : list EventSchema)
    (row : EventSchema) : result (list EventSchema) :=
  if existsb (fun r => jsstring_eqb (sch_id r) (sch_id row)
                       || is_named (sch_name row) (sch_user_id row) r) table
     || negb (existsb (fun u => jsstring_eqb (usr_id u) (sch_user_id row)) (auth_users db))
  then Throw (SQLITE_CONSTRAINT P)
  else Ok (table ++ [row]).

(** `POST /`; the status of the success is 201. *)
Definition create_schema (P : Platform) (db : Db) (user schemaId : jsstring) (now : Z)
    (body : CreateSchema) (table : list EventSchema)
    : result (response SchemaView) * list EventSchema :=
  match find (is_named (cs_name body) user) table with
  | Some _ => (Ok (Failure 400 (js "Schema with this name already exists")), table)
  | None =>
      match insert_schema P db table
              {| sch_id := schemaId;
                 sch_user_id := user;
                 sch_name := cs_name body;
                 sch_label := cs_label body;
                 sch_fields := JSON_stringify (JArray (cs_fields body));
                 sch_icon := cs_icon body;
                 sch_color := cs_color body;
                 sch_default_tags :=
                   match cs_default_tags body with
                   | Some tags => Some (JSON_stringify (JArray (map JString tags)))
                   | None => None
                   end;
                 sch_created_at := now |} with
      | Throw err => (Throw err, table)
      | Ok table' =>
          (Ok (Success {| sv_id := schemaId;
                          sv_user_id := user;
                          sv_name := cs_name body;
                          sv_label := cs_label body;
                          sv_fields := JArray (cs_fields body);
                          sv_icon := cs_icon body;
                          sv_color := cs_color body;
                          sv_default_tags :=
                            match cs_default_tags body with
                            | Some tags => JArray (map JString tags)
                            | None => JArray []
                            end;
                          sv_created_at := now |}),
           table')
      end
  end.

(** The request body after validation by `updateSchemaSchema`. *)
Record UpdateSchema := {
  us_label : option jsstring;
  us_fields : option (list json);
  us_icon : option jsstring;
  us_color : option jsstring;
  us_default_tags : option (list jsstring)
}.

(** An assignment of the SET clause with the parameter bound to it. *)
Inductive schema_assignment :=
| SetLabel (label : jsstring)
| SetFields (text : jsstring)
| SetIcon (icon : jsstring)
| SetColor (color : jsstring)
| SetDefaultTags (text : jsstring).

(** `updates` and `params` as the five `if (body.x !== undefined)` build
    them. *)
Definition build_schema_updates (body : UpdateSchema) : list schema_assignment :=
  match us_label body with Some l => [SetLabel l] | None => [] end
  ++ match us_fields body with
     | Some f => [SetFields (JSON_stringify (JArray f))]
     | None => []
     end
  ++ match us_icon body with Some i => [SetIcon i] | None => [] end
  ++ match us_color body with Some c => [SetColor c] | None => [] end
  ++ match us_default_tags body with
     | Some t => [SetDefaultTags (JSON_stringify (JArray (map JString t)))]
     | None => []
     end.

Definition assign_schema (r : EventSchema) (a : schema_assignment) : EventSchema :=
  match a with
  | SetLabel label =>
      {| sch_id := sch_id r; sch_user_id := sch_user_id r; sch_name := sch_name r;
         sch_label := label; sch_fields := sch_fields r; sch_icon := sch_icon r;
         sch_color := sch_color r; sch_default_tags := sch_default_tags r;
         sch_created_at := sch_created_at r |}
  | SetFields text =>
      {| sch_id := sch_id r; sch_user_id := sch_user_id r; sch_name := sch_name r;
         sch_label := sch_label r; sch_fields := text; sch_icon := sch_icon r;
         sch_color := sch_color r; sch_default_tags := sch_default_tags r;
         sch_created_at := sch_created_at r |}
  | SetIcon icon =>
      {| sch_id := sch_id r; sch_user_id := sch_user_id r; sch_name := sch_name r;
         sch_label := sch_label r; sch_fields := sch_fields r; sch_icon := Some icon;
         sch_color := sch_color r; sch_default_tags := sch_default_tags r;
         sch_created_at := sch_created_at r |}
  | SetColor color =>
      {| sch_id := sch_id r; sch_user_id := sch_user_id r; sch_name := sch_name r;
         sch_label := sch_label r; sch_fields := sch_fields r; sch_icon := sch_icon r;
         sch_color := Some color; sch_default_tags := sch_default_tags r;
         sch_created_at := sch_created_at r |}
  | SetDefaultTags text =>
      {| sch_id := sch_id r; sch_user_id := sch_user_id r; sch_name := sch_name r;
         sch_label := sch_label r; sch_fields := sch_fields r; sch_icon := sch_icon r;
         sch_color := sch_color r; sch_default_tags := Some text;
         sch_created_at := sch_created_at r |}
  end.

(** `UPDATE event_schemas SET ... WHERE id = ? AND user_id = ?` *)
Definition sql_update_schema (table : list EventSchema) (updates : list schema_assignment)
    (schemaId user : jsstring) : list EventSchema :=
  map (fun r => if is_schema schemaId user r then fold_left assign_schema updates r else r)
      table.

(** `{ ...schema, fields: ..., default_tags: ... }` *)
Definition schema_view_of (H : Host) (r : EventSchema) : result SchemaView :=
  match parse_column H (Some (sch_fields r)) (JArray []) with
  | Throw err => Throw err
  | Ok fields =>
      match parse_column H (sch_default_tags r) (JArray []) with
      | Throw err => Throw err
      | Ok tags =>
          Ok {| sv_id := sch_id r;
                sv_user_id := sch_user_id r;
                sv_name := sch_name r;
                sv_label := sch_label r;
                sv_fields := fields;
                sv_icon := sch_icon r;
                sv_color := sch_color r;
                sv_default_tags := tags;
                sv_created_at := sch_created_at r |}
      end
  end.

(** `PATCH /:id`; the schema of the response is the row read back, or,
    were it gone, an object with `fields` and `default_tags` alone
    ([None]). *)
Definition update_schema (H : Host) (user schemaId : jsstring) (body : UpdateSchema)
    (table : list EventSchema) : result (response (option SchemaView)) * list EventSchema :=
  match find (is_schema schemaId user) table with
  | None => (Ok (Failure 404 (js "Schema not found")), table)
  | Some existing =>
      let updates := build_schema_updates body in
      match updates with
      | [] => (Ok (Failure 400 (js "No fields to update")), table)
      | _ :: _ =>
          let table' := sql_update_schema table updates schemaId user in
          match find (is_schema schemaId user) table' with
          | None => (Ok (Success None), table')
          | Some updated =>
              match schema_view_of H updated with
              | Ok v => (Ok (Success (Some v)), table')
              | Throw err => (Throw err, table')
              end
          end
      end
  end.

(** `DELETE /:id` *)
Definition delete_schema (user schemaId : jsstring) (table : list EventSchema)
    : response unit * list EventSchema :=
  let table' := filter (fun r => negb (is_schema schemaId user r)) table in
  if length table - length table' =? 0 then (Failure 404 (js "Schema not found"), table')
  else (Success tt, table').

Definition weight_schema : CreateSchema :=
  {| cs_name := js "weight";
     cs_label := js "Weight";
     cs_fields := [JObject [(js "name", JString (js "value"));
                            (js "label", JString (js "Value"));
                            (js "type", JString (js "number"))]];
     cs_icon := None;
     cs_color := None;
     cs_default_tags := None |}.

(** * Chart data

    `eventsToChartData` of the web client, on the events as the API
    returns them. *)

(** `data?.[key]` when its value is a number, as the pair of the
    mantissa and the decimal exponent ([None] for `undefined` and for
    every value that is not a number): an own property of an object, an
    element or the `length` of an array, the `length` of a string; what
    the prototypes add is never a number. *)
Definition number_property (data : json) (key : jsstring) : option (Z * Z) :=
  match data with
  | JObject props =>
      match find (fun kv => jsstring_eqb (fst kv) key) props with
      | Some (_, JNumber m e) => Some (m, e)
      | _ => None
      end
  | JArray xs =>
      if jsstring_eqb key (js "length") then Some (Z.of_nat (length xs), 0%Z)
      else
        match find (fun i => jsstring_eqb (nat_to_jsstring i) key) (seq 0 (length xs)) with
        | Some i =>
            match nth_error xs i with
            | Some (JNumber m e) => Some (m, e)
            | _ => None
            end
        | None => None
        end
  | JString s =>
      if jsstring_eqb key (js "length") then Some (Z.of_nat (length s), 0%Z) else None
  | JNull | JBool _ | JNumber _ _ => None
  end.

(** `new Date(t).getTime()`: [None] is `NaN`, the time value of a date
    out of range. *)
Definition getTime (t : Z) : option Z :=
  if (Z.abs t <=? 8640000000000000)%Z then Some t else None.

Record ChartDataPoint := {
  pt_x : option Z;
  pt_y : Z * Z
}.

(** The points before the sort: `filter` then `map`. *)
Definition chart_points (events : list EventView) (valueField : jsstring)
    : list ChartDataPoint :=
  map (fun event =>
         {| pt_x := getTime (view_timestamp event);
            pt_y := match number_property (view_data event) valueField with
                    | Some value => value
                    | None => (0%Z, 0%Z)
                    end |})
      (filter (fun event =>
                 match number_property (view_data event) valueField with
                 | Some _ => true
                 | None => false
                 end)
              events).

(** `a.x.getTime() - b.x.getTime()`, [None] for `NaN` *)
Definition compare_points (a b : ChartDataPoint) : option Z :=
  match pt_x a, pt_x b with
  | Some s, Some t => Some (s - t)%Z
  | _, _ => None
  end.

(** `Array.prototype.sort` with that comparator: the sort is stable and
    takes `NaN` as 0, so [a] stays before [b] unless the comparator is
    positive.  (With a comparator that is not consistent the order is
    left to the implementation; this is the order of an insertion
    sort.) *)
Definition stays_before (a b : ChartDataPoint) : bool :=
  match compare_points a b with
  | Some v => (v <=? 0)%Z
  | None => true
  end.

Fixpoint sort_insert (p : ChartDataPoint) (sorted : list ChartDataPoint)
    : list ChartDataPoint :=
  match sorted with
  | [] => [p]
  | q :: rest => if stays_before p q then p :: sorted else q :: sort_insert p rest
  end.

Definition sort_points (points : list ChartDataPoint) : list ChartDataPoint :=
  fold_right sort_insert [] points.

Definition eventsToChartData (events : list EventView) (valueField : jsstring)
    : list ChartDataPoint :=
  sort_points (chart_points events valueField).

(** The points of one moment. *)
Definition at_time (t : Z) (p : ChartDataPoint) : bool :=
  match pt_x p with
  | Some s => (s =? t)%Z
  | None => false
  end.

Definition reading (time : Z) (data : json) : EventView :=
  {| view_id := js "e";
     view_user_id := js "u1";
     view_timestamp := time;
     view_event_type := js "weight";
     view_data := data;
     view_tags := JArray [];
     view_source := js "manual";
     view_created_at := time |}.

Definition readings : list EventView :=
  [reading 300 (JObject [(js "kg", JNumber 71 0)]);
   reading 100 (JObject [(js "kg", JNumber 70 0)]);
   reading 200 (JObject [(js "kg", JString (js "heavy"))]);
   reading 100 (JObject [(js "kg", JNumber 72 0)]);
   reading 150 JNull].

(** * Properties *)

(** ** Strings and lists *)

Lemma jsstring_eqb_eq a b : jsstring_eqb a b = true <-> a = b.
Proof.
  unfold jsstring_eqb. destruct (list_eq_dec N.eq_dec a b); split; congruence.
Qed.

Lemma jsstring_eqb_refl a : jsstring_eqb a a = true.
Proof. now apply jsstring_eqb_eq. Qed.

Lemma split_length_pos sep s : 1 <= length (split sep s).
Proof.
  induction s as [|c r IH]; simpl; [lia|].
  destruct (N.eqb c sep); simpl; [lia|].
  destruct (split sep r); simpl in *; lia.
Qed.

(** ** parseCSVLine *)

Section ParseCSVLine.

Variables (result : list jsstring) (current : jsstring).

(** Outside quotes a comma closes the field. *)
Lemma loop_comma rest :
  parseCSVLine_loop (COMMA :: rest) result current false
  = parseCSVLine_loop rest (result ++ [trim current]) [] false.
Proof. reflexivity. Qed.

(** An opening quote only switches the mode. *)
Lemma loop_open rest :
  parseCSVLine_loop (DQUOTE :: rest) result current false
  = parseCSVLine_loop rest result current true.
Proof. simpl. now destruct rest. Qed.



End ParseCSVLine.

(** Inside quotes every unit but the quote is taken as it is, commas
    included. *)
Lemma loop_in_quotes s : forall rest result current,
  unquoted s = true ->
  parseCSVLine_loop (s ++ rest) result current true
  = parseCSVLine_loop rest result (current ++ s) true.
Proof.
  induction s as [|c s IH]; intros rest result current Hs; simpl in *.
  - now rewrite app_nil_r.
  - apply andb_prop in Hs as [Hc Hs].
    apply negb_true_iff in Hc. rewrite Hc, andb_false_r.
    rewrite IH by assumption. now rewrite <- app_assoc.
Qed.

(** Outside quotes every unit but the quote and the comma is taken as it
    is. *)
Lemma loop_plain s : forall rest result current,
  plain s = true ->
  parseCSVLine_loop (s ++ rest) result current false
  = parseCSVLine_loop rest result (current ++ s) false.
Proof.
  induction s as [|c s IH]; intros rest result current Hs; simpl in *.
  - now rewrite app_nil_r.
  - apply andb_prop in Hs as [Hc Hs]. apply andb_prop in Hc as [Hq Hc].
    apply negb_true_iff in Hq, Hc. rewrite Hq, Hc. simpl.
    rewrite IH by assumption. now rewrite <- app_assoc.
Qed.






(** ** parseTimestamp *)



(** ** The import loops *)

Section ImportLoops.

Variables (H : Host) (now : Z) (user : jsstring).

Local Ltac run := unfold bind, try_catch, ret, lift, throw; simpl.

(** One turn of the `/json` loop. *)
Lemma json_loop_step i event rest results w :
  json_loop H now user i (event :: rest) results w
  = match json_row H now user event w with
    | (Ok _, w') => json_loop H now user (S i) rest (succeed results) w'
    | (Throw err, w') =>
        json_loop H now user (S i) rest (push_error results (json_error i err)) w'
    end.
Proof.
  simpl. run. now destruct (json_row H now user event w) as [[[]|err] w'].
Qed.


(** The `/json` loop ends, has counted every record once, and has only
    added messages that carry the index of a record. *)
Lemma json_loop_inv rest : forall i results w,
  exists results' w' added,
    json_loop H now user i rest results w = (Ok results', w')
    /\ results_errors results' = results_errors results ++ added
    /\ success results' + length added = success results + length rest
    /\ Forall (fun e => exists k err, k < length rest /\ e = json_error (i + k) err) added.
Proof.
  induction rest as [|event rest IH]; intros i results w.
  - exists results, w, []. simpl. rewrite app_nil_r. repeat split; auto.
  - rewrite json_loop_step.
    destruct (json_row H now user event w) as [[[]|err] w1].
    + destruct (IH (S i) (succeed results) w1) as (r' & w' & added & Hrun & Herr & Hcount & Hall).
      exists r', w', added. simpl in *. repeat split; auto; try lia.
      eapply Forall_impl; [|exact Hall]. intros e (k & err & Hk & ->).
      exists (S k), err. split; [lia|]. f_equal. lia.
    + destruct (IH (S i) (push_error results (json_error i err)) w1)
        as (r' & w' & added & Hrun & Herr & Hcount & Hall).
      exists r', w', (json_error i err :: added). simpl in *.
      rewrite <- app_assoc in Herr. repeat split; auto; try lia.
      constructor.
      * exists 0, err. split; [lia|]. f_equal. lia.
      * eapply Forall_impl; [|exact Hall]. intros e (k & err' & Hk & ->).
        exists (S k), err'. split; [lia|]. f_equal. lia.
Qed.


Variable cols : Columns.

(** One turn of the `/csv` loop on a blank line. *)
Lemma csv_loop_blank i l rest results w :
  is_blank l = true ->
  csv_loop H now user cols i (l :: rest) results w
  = csv_loop H now user cols (S i) rest results w.
Proof.
  unfold is_blank. simpl. now destruct (trim l).
Qed.

(** One turn of the `/csv` loop on any other line. *)
Lemma csv_loop_step i l rest results w :
  is_blank l = false ->
  csv_loop H now user cols i (l :: rest) results w
  = match csv_row H now user cols (trim l) w with
    | (Ok _, w') => csv_loop H now user cols (S i) rest (succeed results) w'
    | (Throw err, w') =>
        csv_loop H now user cols (S i) rest (push_error results (csv_error i err)) w'
    end.
Proof.
  unfold is_blank. simpl. destruct (trim l) as [|c r]; [discriminate|]. intros _.
  run. now destruct (csv_row H now user cols (c :: r) w) as [[[]|err] w'].
Qed.

(** [csv_row] draws an identifier, normalizes, and inserts. *)
Lemma csv_row_normalize line w :
  csv_row H now user cols line w
  = match csv_normalize H cols line with
    | Throw err => (Throw err, {| events := events w; ulid_calls := S (ulid_calls w) |})
    | Ok (timestamp, data, tags) =>
        run_insert H
          {| p_id := ulid H (ulid_calls w);
             p_user_id := user;
             p_timestamp := timestamp;
             p_event_type := js_index (parseCSVLine line) (eventTypeIdx cols);
             p_data := stringify_or_null data;
             p_tags := stringify_or_null tags;
             p_source := js "csv_import";
             p_created_at := now |}
          {| events := events w; ulid_calls := S (ulid_calls w) |}
    end.
Proof.
  unfold csv_row, csv_normalize, draw_ulid. run.
  destruct (parseTimestamp _ _); [|reflexivity].
  destruct (decode_cell _ (dataIdx cols) _); [|reflexivity].
  now destruct (decode_cell _ (tagsIdx cols) _).
Qed.

(** The `/csv` loop ends, has counted every line that is not blank once,
    and has only added messages that carry the index of a line. *)
Lemma csv_loop_inv rest : forall i results w,
  exists results' w' added,
    csv_loop H now user cols i rest results w = (Ok results', w')
    /\ results_errors results' = results_errors results ++ added
    /\ success results' + length added + length (filter is_blank rest)
       = success results + length rest
    /\ Forall (fun e => exists k err, k < length rest /\ e = csv_error (i + k) err) added.
Proof.
  induction rest as [|l rest IH]; intros i results w.
  - exists results, w, []. simpl. rewrite app_nil_r. repeat split; auto.
  - assert (Hshift : forall j added,
              Forall (fun e => exists k err, k < length rest /\ e = csv_error (S j + k) err) added ->
              Forall (fun e => exists k err, k < length (l :: rest) /\ e = csv_error (j + k) err) added).
    { intros j added Hall. eapply Forall_impl; [|exact Hall].
      intros e (k & err & Hk & ->). exists (S k), err. simpl. split; [lia|]. f_equal. lia. }
    destruct (is_blank l) eqn:Hl.
    + rewrite csv_loop_blank by assumption.
      destruct (IH (S i) results w) as (r' & w' & added & Hrun & Herr & Hcount & Hall).
      exists r', w', added. simpl. rewrite Hl. simpl. repeat split; auto; lia.
    + rewrite csv_loop_step by assumption.
      destruct (csv_row H now user cols (trim l) w) as [[[]|err] w1].
      * destruct (IH (S i) (succeed results) w1) as (r' & w' & added & Hrun & Herr & Hcount & Hall).
        exists r', w', added. simpl in *. rewrite Hl. repeat split; auto; lia.
      * destruct (IH (S i) (push_error results (csv_error i err)) w1)
          as (r' & w' & added & Hrun & Herr & Hcount & Hall).
        exists r', w', (csv_error i err :: added). simpl in *. rewrite Hl.
        rewrite <- app_assoc in Herr. repeat split; auto; try lia.
        constructor; auto.
        exists 0, err. split; [lia|]. f_equal. lia.
Qed.

(** A line that does not normalize leaves its message, with its index,
    in the errors. *)
Lemma csv_loop_records rest : forall i results w results' w' k l err,
  csv_loop H now user cols i rest results w = (Ok results', w') ->
  nth_error rest k = Some l ->
  is_blank l = false ->
  csv_normalize H cols (trim l) = Throw err ->
  In (csv_error (i + k) err) (results_errors results').
Proof.
  induction rest as [|l0 rest IH]; intros i results w results' w' k l err Hrun Hnth Hl Hbad.
  - now destruct k.
  - destruct k as [|k]; simpl in Hnth.
    + injection Hnth as ->.
      rewrite csv_loop_step, csv_row_normalize, Hbad in Hrun by assumption.
      match type of Hrun with csv_loop _ _ _ _ _ _ ?r ?w1 = _ =>
        destruct (csv_loop_inv rest (S i) r w1) as (r2 & w2 & added & Hrun2 & Herr & _)
      end.
      rewrite Hrun2 in Hrun. injection Hrun as <- <-.
      rewrite Herr. simpl. rewrite Nat.add_0_r.
      apply in_or_app. left. apply in_or_app. right. now left.
    + replace (i + S k) with (S i + k) by lia.
      destruct (is_blank l0) eqn:Hl0.
      * rewrite csv_loop_blank in Hrun by assumption. eapply IH; eauto.
      * rewrite csv_loop_step in Hrun by assumption.
        destruct (csv_row H now user cols (trim l0) w) as [[[]|e] w1]; eapply IH; eauto.
Qed.

End ImportLoops.

(** ** The import handlers *)

Lemma length_tl {A} (l : list A) : length (tl l) = length l - 1.
Proof. destruct l; simpl; lia. Qed.


(** The first required column a header lacks. *)
Lemma find_missing_column header :
  find (fun col => negb (includes header col)) requiredColumns
  = if includes header (js "timestamp")
    then if includes header (js "event_type") then None else Some (js "event_type")
    else Some (js "timestamp").
Proof.
  unfold requiredColumns. cbn [find].
  now destruct (includes header (js "timestamp")), (includes header (js "event_type")).
Qed.

Section ImportHandlers.

Variables (H : Host) (now : Z) (user : jsstring).

(** `/json` answers with the results of its loop. *)
Lemma import_json_run evs w :
  exists results w',
    json_loop H now user 0 evs {| success := 0; results_errors := [] |} w = (Ok results, w')
    /\ import_json H now user evs w
       = (Ok (Success {| imported := success results;
                         total := length evs;
                         errors := results_errors results |}), w').
Proof.
  destruct (json_loop_inv H now user evs 0 {| success := 0; results_errors := [] |} w)
    as (r & w' & added & Hrun & _).
  exists r, w'. split; [assumption|].
  unfold import_json, bind, ret. now rewrite Hrun.
Qed.

(** `/csv` has three outcomes: too short, a column missing, or the
    results of its loop. *)
Lemma import_csv_cases body w :
  (length (lines_of body) < 2
   /\ import_csv H now user body w = (Ok (Failure 400 too_short), w))
  \/ (2 <= length (lines_of body) /\ valid_header body = false
      /\ exists col, In col requiredColumns
         /\ import_csv H now user body w
            = (Ok (Failure 400 (js "Missing required column: " ++ col)), w))
  \/ (2 <= length (lines_of body) /\ valid_header body = true
      /\ exists results w',
         csv_loop H now user (columns_of (header_of body)) 1 (data_lines body)
           {| success := 0; results_errors := [] |} w = (Ok results, w')
         /\ import_csv H now user body w
            = (Ok (Success {| imported := success results;
                              total := length (lines_of body) - 1;
                              errors := results_errors results |}), w')).
Proof.
  unfold import_csv, valid_header, header_of, data_lines, lines_of.
  set (lines := split LF (trim body)).
  destruct (Nat.ltb_spec (length lines) 2) as [Hlen|Hlen]; [left; now split|right].
  set (header := parseCSVLine (hd [] lines)).
  rewrite find_missing_column.
  destruct (includes header (js "timestamp")) eqn:Hts; cbn [negb andb].
  - destruct (includes header (js "event_type")) eqn:Het; cbn [negb andb].
    + right. repeat split; auto.
      destruct (csv_loop_inv H now user (columns_of header) (tl lines) 1
                  {| success := 0; results_errors := [] |} w)
        as (r & w' & added & Hrun & _).
      exists r, w'. split; [assumption|]. unfold bind, ret. now rewrite Hrun.
    + left. repeat split; auto. exists (js "event_type"). split; [simpl; auto | reflexivity].
  - left. repeat split; auto. exists (js "timestamp"). split; [simpl; auto | reflexivity].
Qed.

(** A report comes only from the loop. *)
Lemma import_csv_report body w r w' :
  import_csv H now user body w = (Ok (Success r), w') ->
  2 <= length (lines_of body) /\ valid_header body = true
  /\ exists results,
     csv_loop H now user (columns_of (header_of body)) 1 (data_lines body)
       {| success := 0; results_errors := [] |} w = (Ok results, w')
     /\ r = {| imported := success results;
               total := length (lines_of body) - 1;
               errors := results_errors results |}.
Proof.
  intros Hrun.
  destruct (import_csv_cases body w)
    as [(_ & E) | [(_ & _ & col & _ & E) | (Hlen & Hv & res & w1 & Hloop & E)]];
    rewrite E in Hrun; try discriminate.
  injection Hrun as <- <-. eauto.
Qed.

End ImportHandlers.

(** C1, as the code has it. In structured mode the report counts every
    record once: imported + len(errors) = total = the number of records.
    In text mode total is the number of physical lines after the header,
    and the lines that are blank once trimmed are counted by neither
    imported nor errors: imported + len(errors) + blank lines = total, so
    the two sides agree when no data line is blank. *)
Theorem import_accounting (H : Host) (now : Z) (user : jsstring) :
  (forall evs w, exists r w',
      import_json H now user evs w = (Ok (Success r), w')
      /\ total r = length evs
      /\ imported r + length (errors r) = total r)
  /\ (forall body w r w',
      import_csv H now user body w = (Ok (Success r), w') ->
      total r = length (data_lines body)
      /\ imported r + length (errors r) + length (filter is_blank (data_lines body)) = total r
      /\ (filter is_blank (data_lines body) = [] -> imported r + length (errors r) = total r)).
Proof.
  split.
  - intros evs w.
    destruct (import_json_run H now user evs w) as (res & w' & Hloop & Hrun).
    exists {| imported := success res; total := length evs; errors := results_errors res |}, w'.
    split; [assumption|]. simpl. split; [reflexivity|].
    destruct (json_loop_inv H now user evs 0 {| success := 0; results_errors := [] |} w)
      as (r2 & w2 & added & Hloop2 & Herr & Hcount & _).
    rewrite Hloop2 in Hloop. injection Hloop as <- <-.
    rewrite Herr. simpl in *. lia.
  - intros body w r w' Hrun.
    apply import_csv_report in Hrun as (Hlen & _ & res & Hloop & ->). simpl.
    destruct (csv_loop_inv H now user (columns_of (header_of body)) (data_lines body) 1
                {| success := 0; results_errors := [] |} w)
      as (r2 & w2 & added & Hloop2 & Herr & Hcount & _).
    rewrite Hloop2 in Hloop. injection Hloop as <- <-.
    rewrite Herr. simpl in *. unfold data_lines in *. rewrite length_tl in *.
    split; [reflexivity|]. split; [lia|]. intros Hnone. rewrite Hnone in Hcount. simpl in Hcount. lia.
Qed.

(** A text-mode body with a blank data line: two rows imported, no error,
    total three. *)
Lemma import_csv_blank_line_uncounted :
  exists r w',
    import_csv refHost 0 alice body_blank_line emptyWorld = (Ok (Success r), w')
    /\ imported r = 2 /\ errors r = [] /\ total r = 3
    /\ imported r + length (errors r) <> total r.
Proof.
  eexists. eexists. split; [vm_compute; reflexivity|]. simpl. repeat split. lia.
Qed.

Lemma import_accounting_witness :
  exists r w',
    import_csv refHost 0 alice body_blank_line emptyWorld = (Ok (Success r), w')
    /\ total r = 3
    /\ imported r + length (errors r) + 1 = total r.
Proof.
  destruct (import_csv refHost 0 alice body_blank_line emptyWorld) as [res w'] eqn:E.
  pose proof E as E'. vm_compute in E'. injection E' as <- <-.
  destruct (proj2 (import_accounting refHost 0 alice) _ _ _ _ E) as (Ht & Hc & _).
  eexists. eexists. split; [reflexivity|]. split; [exact Ht | exact Hc].
Defined.




(** C8. When the header lacks `timestamp` or `event_type`, `/csv` answers
    with one error for the whole request and leaves the world as it was:
    no row was read, no identifier drawn, no event inserted. *)
Theorem import_csv_missing_column (H : Host) (now : Z) (user body : jsstring) (w : World) :
  includes (header_of body) (js "timestamp") = false
  \/ includes (header_of body) (js "event_type") = false ->
  exists error, import_csv H now user body w = (Ok (Failure 400 error), w).
Proof.
  intros Hmiss.
  destruct (import_csv_cases H now user body w)
    as [(_ & E) | [(_ & _ & col & _ & E) | (_ & Hv & _)]]; eauto.
  unfold valid_header in Hv. apply andb_prop in Hv as [Hts Het].
  destruct Hmiss; congruence.
Qed.

Lemma import_csv_missing_column_witness :
  import_csv refHost 0 alice body_no_event_type emptyWorld
  = (Ok (Failure 400 (js "Missing required column: event_type")), emptyWorld).
Proof.
  assert (Hmiss : includes (header_of body_no_event_type) (js "timestamp") = false
                  \/ includes (header_of body_no_event_type) (js "event_type") = false)
    by (right; reflexivity).
  destruct (import_csv_missing_column refHost 0 alice body_no_event_type emptyWorld Hmiss)
    as (error & E).
  rewrite E. vm_compute in E. injection E as <-. reflexivity.
Defined.

(** C10. A body that, once trimmed, has fewer than two lines is refused by
    `/csv` and by `/csv/preview` with one error for the whole request, and
    the world is left as it was. *)
Theorem short_body_rejected (H : Host) (now : Z) (user body : jsstring) (w : World) :
  length (lines_of body) < 2 ->
  import_csv H now user body w = (Ok (Failure 400 too_short), w)
  /\ preview_csv H body w = (Ok (Failure 400 too_short), w).
Proof.
  intros Hlen. unfold lines_of in Hlen. apply Nat.ltb_lt in Hlen.
  unfold import_csv, preview_csv. now rewrite Hlen.
Qed.

Lemma short_body_rejected_witness :
  import_csv refHost 0 alice body_header_only emptyWorld = (Ok (Failure 400 too_short), emptyWorld)
  /\ preview_csv refHost (js "") emptyWorld = (Ok (Failure 400 too_short), emptyWorld).
Proof.
  assert (H1 : length (lines_of body_header_only) < 2) by (vm_compute; lia).
  assert (H2 : length (lines_of (js "")) < 2) by (vm_compute; lia).
  split.
  - exact (proj1 (short_body_rejected refHost 0 alice body_header_only emptyWorld H1)).
  - exact (proj2 (short_body_rejected refHost 0 alice (js "") emptyWorld H2)).
Defined.

(** ** Preview *)

Section Preview.

Variables (H : Host) (cols : Columns).

Lemma preview_loop_length rest : forall maxPreview i preview,
  length (preview_loop H cols maxPreview i rest preview)
  = length preview
    + length (filter (fun l => negb (is_blank l)) (firstn (maxPreview - i) rest)).
Proof.
  induction rest as [|l rest IH]; intros maxPreview i preview.
  - simpl. rewrite firstn_nil. simpl. lia.
  - simpl. destruct (Nat.ltb_spec i maxPreview) as [Hi|Hi].
    + replace (maxPreview - i) with (S (maxPreview - S i)) by lia.
      cbn [firstn filter]. destruct (trim l) as [|c r] eqn:Hl.
      * replace (is_blank l) with true by (unfold is_blank; now rewrite Hl).
        apply IH.
      * replace (is_blank l) with false by (unfold is_blank; now rewrite Hl).
        rewrite IH, length_app. simpl. lia.
    + replace (maxPreview - i) with 0 by lia. simpl. lia.
Qed.





(** The part of the normalization the preview shares with the import:
    a sample row carries an error exactly when its `data` cell or its
    `tags` cell does not decode. *)
Lemma preview_row_error_iff i line :
  pv_error (preview_row H cols i line) <> None
  <-> decode_cell (parseCSVLine line) (dataIdx cols) (js "Invalid JSON in data column")
      = Throw (ErrorObj (js "Invalid JSON in data column"))
      \/ decode_cell (parseCSVLine line) (tagsIdx cols) (js "Invalid JSON in tags column")
         = Throw (ErrorObj (js "Invalid JSON in tags column")).
Proof.
  unfold preview_row, decode_cell_raw, decode_cell.
  destruct (negb (dataIdx cols =? -1)%Z && truthy_cell _);
    [destruct (JSON_parse _)|];
    (destruct (negb (tagsIdx cols =? -1)%Z && truthy_cell _);
     [destruct (JSON_parse _)|]); simpl;
    split; intros Hx; try discriminate; auto; try (now elim Hx);
    destruct Hx; discriminate.
Qed.

End Preview.

(** `/csv/preview` has three outcomes: too short, a column missing, or
    the sampled rows; none touches the world. *)
Lemma preview_csv_cases (H : Host) (body : jsstring) (w : World) :
  (length (lines_of body) < 2
   /\ preview_csv H body w = (Ok (Failure 400 too_short), w))
  \/ (2 <= length (lines_of body) /\ valid_header body = false
      /\ exists error, preview_csv H body w = (Ok (Success (PreviewInvalid error)), w))
  \/ (2 <= length (lines_of body) /\ valid_header body = true
      /\ preview_csv H body w
         = (Ok (Success (PreviewValid (header_of body) (length (lines_of body) - 1)
                           (preview_loop H (columns_of (header_of body))
                              (Nat.min (length (lines_of body)) 6) 1 (data_lines body) []))),
            w)).
Proof.
  unfold preview_csv, valid_header, header_of, data_lines, lines_of.
  set (lines := split LF (trim body)).
  destruct (Nat.ltb_spec (length lines) 2) as [Hlen|Hlen]; [left; now split|right].
  set (header := parseCSVLine (hd [] lines)).
  unfold requiredColumns. cbn [filter].
  destruct (includes header (js "timestamp")), (includes header (js "event_type"));
    cbn [negb andb length Nat.ltb Nat.leb];
    [right; now repeat split | left | left | left]; repeat split; auto;
    eexists; reflexivity.
Qed.

(** The first five data lines are the lines the preview loop visits. *)
Lemma firstn_preview_bound {A} (lines : list A) :
  firstn (Nat.min (length lines) 6 - 1) (tl lines) = firstn 5 (tl lines).
Proof.
  destruct (Nat.le_gt_cases 6 (length lines)) as [Hlen|Hlen].
  - now rewrite Nat.min_r by lia.
  - rewrite Nat.min_l by lia.
    rewrite !firstn_all2; auto; rewrite length_tl; lia.
Qed.

(** C9, as the code has it. For a body with a valid header and at least
    one data line, `/csv/preview` leaves the world as it was and returns
    the columns of the header, total_rows equal to the number of data
    lines of the whole body, and one sample row for each of the first five
    data lines that is not blank, hence at most five; with fifty data
    lines of which the first five are not blank it returns exactly five
    rows and total_rows = 50. *)
Theorem preview_csv_spec (H : Host) (body : jsstring) (w : World) :
  valid_header body = true ->
  2 <= length (lines_of body) ->
  exists preview,
    preview_csv H body w
    = (Ok (Success (PreviewValid (header_of body) (length (data_lines body)) preview)), w)
    /\ length preview
       = length (filter (fun l => negb (is_blank l)) (firstn 5 (data_lines body)))
    /\ length preview <= 5
    /\ (length (data_lines body) = 50 ->
        forallb (fun l => negb (is_blank l)) (firstn 5 (data_lines body)) = true ->
        length preview = 5).
Proof.
  intros Hv Hlen.
  destruct (preview_csv_cases H body w) as [(Hlt & _) | [(_ & Hv' & _) | (_ & _ & E)]];
    [lia | congruence |].
  eexists. split; [|split; [|split]].
  - rewrite E. unfold data_lines. now rewrite length_tl.
  - rewrite preview_loop_length. unfold data_lines. now rewrite firstn_preview_bound.
  - rewrite preview_loop_length. unfold data_lines. rewrite firstn_preview_bound.
    cbn [length Nat.add].
    etransitivity; [apply filter_length_le | apply firstn_le_length].
  - intros H50 Hall. rewrite preview_loop_length. unfold data_lines in *.
    rewrite firstn_preview_bound. cbn [length Nat.add].
    rewrite forallb_filter_id by exact Hall.
    rewrite length_firstn. lia.
Qed.

Lemma preview_csv_spec_witness :
  exists preview,
    preview_csv refHost body_fifty_rows emptyWorld
    = (Ok (Success (PreviewValid (header_of body_fifty_rows)
                      (length (data_lines body_fifty_rows)) preview)), emptyWorld)
    /\ length (data_lines body_fifty_rows) = 50
    /\ length preview = 5.
Proof.
  assert (Hv : valid_header body_fifty_rows = true) by (vm_compute; reflexivity).
  assert (Hlen : 2 <= length (lines_of body_fifty_rows)) by (vm_compute; lia).
  assert (H50 : length (data_lines body_fifty_rows) = 50) by (vm_compute; reflexivity).
  assert (Hall : forallb (fun l => negb (is_blank l)) (firstn 5 (data_lines body_fifty_rows)) = true)
    by (vm_compute; reflexivity).
  destruct (preview_csv_spec refHost body_fifty_rows emptyWorld Hv Hlen)
    as (preview & E & _ & _ & H5).
  exists preview. split; [exact E|]. split; [exact H50 | exact (H5 H50 Hall)].
Defined.

(** A valid header with no data line is refused outright, and fifty data
    lines of which the second is blank give four sample rows. *)
Lemma preview_csv_short_or_blank :
  (valid_header body_header_only = true
   /\ preview_csv refHost body_header_only emptyWorld
      = (Ok (Failure 400 too_short), emptyWorld))
  /\ (valid_header body_fifty_lines_one_blank = true
      /\ exists columns preview,
         preview_csv refHost body_fifty_lines_one_blank emptyWorld
         = (Ok (Success (PreviewValid columns 50 preview)), emptyWorld)
         /\ length preview = 4
         /\ length preview <> 5).
Proof.
  split; split; try (vm_compute; reflexivity).
  eexists. eexists. split; [vm_compute; reflexivity|]. simpl. split; [reflexivity | lia].
Qed.




(** ** Cells that are JSON but not an object or an array *)

(** A cell that is there, not empty, and not JSON makes the decoding
    throw. *)
Lemma decode_cell_undecodable (values : list jsstring) (idx : Z) (message cell : jsstring) :
  idx <> (-1)%Z -> js_index values idx = Some cell -> cell <> [] ->
  JSON_parse cell = None ->
  decode_cell values idx message = Throw (ErrorObj message).
Proof.
  intros Hidx Hcell Hne Hbad. unfold decode_cell. rewrite Hcell.
  apply Z.eqb_neq in Hidx. rewrite Hidx. destruct cell; [congruence|]. simpl.
  now rewrite Hbad.
Qed.

(** What does hold of the `data` and `tags` cells: a row with a `data` or
    `tags` cell that is not empty and is not JSON text is recorded as an
    error of its line. *)
Lemma import_csv_undecodable_cell (H : Host) (now : Z) (user body : jsstring)
    (w w' : World) (r : ImportReport) (k : nat) (l cell : jsstring) (idx : Z) :
  import_csv H now user body w = (Ok (Success r), w') ->
  nth_error (data_lines body) k = Some l -> is_blank l = false ->
  idx = dataIdx (columns_of (header_of body)) \/ idx = tagsIdx (columns_of (header_of body)) ->
  idx <> (-1)%Z -> js_index (parseCSVLine (trim l)) idx = Some cell -> cell <> [] ->
  JSON_parse cell = None ->
  exists message, In (line_ref (k + 2) message) (errors r).
Proof.
  intros Himp Hnth Hl Hidx Hcol Hcell Hne Hbad.
  apply import_csv_report in Himp as (_ & _ & res & Hloop & ->). simpl.
  assert (Hthrow : exists err, csv_normalize H (columns_of (header_of body)) (trim l) = Throw err).
  { unfold csv_normalize.
    destruct (parseTimestamp _ _); [|eauto].
    destruct Hidx as [-> | ->].
    - erewrite decode_cell_undecodable by eassumption. eauto.
    - destruct (decode_cell _ (dataIdx _) _); [|eauto].
      erewrite decode_cell_undecodable by eassumption. eauto. }
  destruct Hthrow as (err & Hthrow).
  exists (error_message (js "Unknown error") err).
  replace (k + 2) with (1 + k + 1) by lia.
  change (In (csv_error (1 + k) err) (results_errors res)).
  eapply csv_loop_records; eauto.
Qed.

(** C6 on the code: a row whose `data` cell is the number 5 and whose
    `tags` cell is the number 7 is imported without an error, and both
    numbers are stored. *)
Theorem import_csv_accepts_scalar_cells :
  JSON_parse (js "5") = Some (JNumber 5 0)
  /\ JSON_parse (js "7") = Some (JNumber 7 0)
  /\ exists r w',
       import_csv refHost 0 alice body_scalar_cells emptyWorld = (Ok (Success r), w')
       /\ imported r = 1 /\ total r = 1 /\ errors r = []
       /\ map ev_data (events w') = [Some (js "5")]
       /\ map ev_tags (events w') = [Some (js "7")].
Proof.
  split; [vm_compute; reflexivity|]. split; [vm_compute; reflexivity|].
  eexists. eexists. split; [vm_compute; reflexivity|].
  repeat split; vm_compute; reflexivity.
Qed.

(** ** Listing by tags *)

Lemma insert_desc_in e x sorted : In x (insert_desc e sorted) <-> x = e \/ In x sorted.
Proof.
  induction sorted as [|y r IH]; simpl; [intuition|].
  destruct (ev_timestamp y <? ev_timestamp e)%Z; simpl; rewrite ?IH; intuition.
Qed.

Lemma order_by_timestamp_desc_in x rows : In x (order_by_timestamp_desc rows) <-> In x rows.
Proof.
  unfold order_by_timestamp_desc.
  induction rows as [|e rows IH]; simpl; [tauto|].
  rewrite insert_desc_in, IH. intuition.
Qed.

(** What does hold of the page: its rows are rows of the table, of the
    owner, and for every requested tag the serialized `tags` of the row
    matches the pattern built from that tag (all of the patterns, not any
    of them). *)
Lemma select_events_sound table user q e :
  In e (select_events table user q) ->
  In e table
  /\ ev_user_id e = user
  /\ forall tags tag,
       q_tags q = Some tags -> tags <> [] -> In tag (tagList tags) ->
       exists text, ev_tags e = Some text /\ like (tag_pattern tag) text = true.
Proof.
  unfold select_events. intros Hin.
  assert (Hin' : In e (order_by_timestamp_desc
                         (filter (fun e => forallb (holds e) (build_where user q)) table))).
  { set (sorted := order_by_timestamp_desc _) in *.
    rewrite <- (firstn_skipn (q_offset q) sorted). apply in_or_app. right.
    set (rest := skipn (q_offset q) sorted) in *.
    rewrite <- (firstn_skipn (q_limit q) rest). apply in_or_app. now left. }
  apply order_by_timestamp_desc_in, filter_In in Hin' as [Htable Hwhere].
  rewrite forallb_forall in Hwhere. split; [assumption|]. split.
  - apply jsstring_eqb_eq. apply (Hwhere (UserIdIs user)). unfold build_where. simpl. auto.
  - intros tags tag Htags Hne Htag.
    assert (Hc : In (TagsLike (tag_pattern tag)) (build_where user q)).
    { unfold build_where. rewrite Htags. destruct tags as [|c r]; [congruence|].
      repeat (apply in_or_app; right).
      change (TagsLike (tag_pattern tag)) with ((fun t => TagsLike (tag_pattern t)) tag).
      now apply in_map. }
    apply Hwhere in Hc. simpl in Hc. destruct (ev_tags e) as [text|]; [eauto | discriminate].
Qed.

(** C4 on the code: with one stored event whose only tag is `health`, the
    list route returns it for the tag filter `h_alth` and for the tag
    filter `%`, neither of which is a tag of the event. *)
Theorem list_events_wildcard_tags :
  exists shown w v,
    create_event refHost 0 alice health_event emptyWorld = (Ok (Success shown), w)
    /\ map ev_tags (events w) = [Some (JSON_stringify (JArray [JString (js "health")]))]
    /\ list_events refHost alice (query_tags (js "h_alth")) w = (Ok (Success [v]), w)
    /\ list_events refHost alice (query_tags (js "%")) w = (Ok (Success [v]), w)
    /\ view_tags v = JArray [JString (js "health")]
    /\ has_tag v (js "h_alth") = false
    /\ has_tag v (js "%") = false.
Proof.
  do 3 eexists. split; [vm_compute; reflexivity|].
  repeat split; vm_compute; reflexivity.
Qed.

(** * More of the code: properties of the event routes *)

Lemma is_event_true eventId user e :
  is_event eventId user e = true <-> ev_id e = eventId /\ ev_user_id e = user.
Proof.
  unfold is_event. rewrite andb_true_iff, !jsstring_eqb_eq. tauto.
Qed.

Lemma find_event_some table eventId user e :
  find_event table eventId user = Some e ->
  In e table /\ ev_id e = eventId /\ ev_user_id e = user.
Proof.
  intros Hf. apply find_some in Hf as [Hin He]. now apply is_event_true in He.
Qed.

Lemma find_event_none table eventId user :
  find_event table eventId user = None <->
  forall e, In e table -> ev_id e = eventId -> ev_user_id e <> user.
Proof.
  split.
  - intros Hf e Hin Hid Hu.
    pose proof (find_none _ _ Hf e Hin) as Hn.
    assert (Ht : is_event eventId user e = true) by now apply is_event_true.
    congruence.
  - intros Hall. unfold find_event.
    destruct (find (is_event eventId user) table) as [e|] eqn:Hf; [|reflexivity].
    apply find_some in Hf as [Hin He]. apply is_event_true in He as [Hid Hu].
    now elim (Hall e Hin Hid).
Qed.

Lemma view_of_fields (H : Host) e v :
  view_of H e = Ok v ->
  view_id v = ev_id e /\ view_user_id v = ev_user_id e
  /\ view_timestamp v = ev_timestamp e /\ view_event_type v = ev_event_type e
  /\ view_source v = ev_source e /\ view_created_at v = ev_created_at e.
Proof.
  unfold view_of. destruct (parse_column H (ev_data e) JNull); [|discriminate].
  destruct (parse_column H (ev_tags e) (JArray [])); [|discriminate].
  intros [= <-]. simpl. repeat split.
Qed.

(** X1. `GET /:id` never changes the world; it answers 404 when no row
    has both the id and the owner, in particular when the id is an event
    of another owner; and an event it returns is a row of the table with
    that id and that owner. *)
Theorem get_event_owner_scoped (H : Host) (user eventId : jsstring) (w : World) :
  snd (get_event H user eventId w) = w
  /\ ((forall e, In e (events w) -> ev_id e = eventId -> ev_user_id e <> user) ->
      get_event H user eventId w = (Ok (Failure 404 not_found), w))
  /\ (forall v, fst (get_event H user eventId w) = Ok (Success v) ->
      view_id v = eventId /\ view_user_id v = user
      /\ exists e, In e (events w) /\ view_of H e = Ok v).
Proof.
  unfold get_event. split; [|split].
  - destruct (find_event _ _ _); [|reflexivity]. now destruct (view_of H e).
  - intros Hnone. apply find_event_none in Hnone. now rewrite Hnone.
  - intros v. destruct (find_event _ _ _) as [e|] eqn:Hf; [|discriminate].
    apply find_event_some in Hf as (Hin & Hid & Hu).
    destruct (view_of H e) as [v'|] eqn:Hv; [|discriminate].
    simpl. intros [= <-]. apply view_of_fields in Hv as Hfields.
    destruct Hfields as (-> & -> & _). eauto.
Qed.

Lemma get_event_owner_scoped_witness :
  get_event refHost bob first_id world_one = (Ok (Failure 404 not_found), world_one).
Proof.
  apply (proj1 (proj2 (get_event_owner_scoped refHost bob first_id world_one))).
  intros e [<-|[]] _. vm_compute. discriminate.
Defined.

(** The row the PATCH leaves in place of [e]: the supplied fields
    replaced, the others kept. *)
Lemma fold_assign_build_updates body e :
  fold_left assign (build_updates body) e
  = {| ev_id := ev_id e;
       ev_user_id := ev_user_id e;
       ev_timestamp := match ue_timestamp body with Some t => t | None => ev_timestamp e end;
       ev_event_type := match ue_event_type body with Some ty => ty | None => ev_event_type e end;
       ev_data := match ue_data body with
                  | Some d => Some (JSON_stringify d)
                  | None => ev_data e
                  end;
       ev_tags := match ue_tags body with
                  | Some t => Some (JSON_stringify (JArray (map JString t)))
                  | None => ev_tags e
                  end;
       ev_source := ev_source e;
       ev_created_at := ev_created_at e |}.
Proof.
  unfold build_updates.
  destruct e, (ue_timestamp body), (ue_event_type body), (ue_data body), (ue_tags body);
    reflexivity.
Qed.

Lemma is_event_fold_assign eventId user updates e :
  is_event eventId user (fold_left assign updates e) = is_event eventId user e.
Proof.
  revert e. induction updates as [|a updates IH]; intros e; [reflexivity|].
  simpl. rewrite IH. now destruct a.
Qed.

Lemma find_event_sql_update table updates eventId user :
  find_event (sql_update table updates eventId user) eventId user
  = option_map (fold_left assign updates) (find_event table eventId user).
Proof.
  unfold find_event, sql_update.
  induction table as [|e table IH]; [reflexivity|]. simpl.
  destruct (is_event eventId user e) eqn:He.
  - now rewrite is_event_fold_assign, He.
  - now rewrite He.
Qed.



(** `UPDATE` row by row. *)
Lemma sql_update_rows table body eventId user :
  Forall2 (fun e e' =>
             if is_event eventId user e
             then e' = fold_left assign (build_updates body) e
             else e' = e)
    table (sql_update table (build_updates body) eventId user).
Proof.
  unfold sql_update. induction table as [|e t IH]; simpl; constructor; auto.
  now destruct (is_event eventId user e).
Qed.

(** X3. A `PATCH /:id` that finds the event and carries at least one
    field keeps the number and the order of the rows, leaves every row
    that is not the event of that owner as it was, and in the event
    replaces each supplied field (`data` and `tags` wholesale, by the
    serialized new value) while `id`, `user_id`, `source`, `created_at`
    and the omitted fields stay; the response is the row read back. *)
Theorem update_event_effect (H : Host) (user eventId : jsstring) (body : UpdateEvent)
    (w : World) (existing : Event) :
  find_event (events w) eventId user = Some existing ->
  build_updates body <> [] ->
  let w' := snd (update_event H user eventId body w) in
  ulid_calls w' = ulid_calls w
  /\ Forall2 (fun e e' =>
                if is_event eventId user e
                then e' = {| ev_id := ev_id e;
                             ev_user_id := ev_user_id e;
                             ev_timestamp := match ue_timestamp body with
                                             | Some t => t
                                             | None => ev_timestamp e
                                             end;
                             ev_event_type := match ue_event_type body with
                                              | Some ty => ty
                                              | None => ev_event_type e
                                              end;
                             ev_data := match ue_data body with
                                        | Some d => Some (JSON_stringify d)
                                        | None => ev_data e
                                        end;
                             ev_tags := match ue_tags body with
                                        | Some t => Some (JSON_stringify (JArray (map JString t)))
                                        | None => ev_tags e
                                        end;
                             ev_source := ev_source e;
                             ev_created_at := ev_created_at e |}
                else e' = e)
       (events w) (events w')
  /\ (forall r, fst (update_event H user eventId body w) = Ok (Success r) ->
      exists v, r = Some v
        /\ view_of H (fold_left assign (build_updates body) existing) = Ok v
        /\ view_id v = eventId /\ view_user_id v = user
        /\ view_created_at v = ev_created_at existing
        /\ view_source v = ev_source existing).
Proof.
  intros Hfind Hsome. unfold update_event. rewrite Hfind.
  destruct (build_updates body) as [|a updates] eqn:Hb; [congruence|]. rewrite <- Hb.
  cbn [events]. rewrite find_event_sql_update, Hfind. cbn [option_map].
  destruct (view_of H (fold_left assign (build_updates body) existing)) as [v|err] eqn:Hv;
    cbn [snd fst events ulid_calls]; (split; [reflexivity|]); split.
  1,3: eapply Forall2_impl; [|apply sql_update_rows]; intros e e'; cbv beta;
       destruct (is_event eventId user e); auto;
       intros ->; apply fold_assign_build_updates.
  - intros r [= <-]. exists v. split; [reflexivity|]. split; [reflexivity|].
    apply find_event_some in Hfind as (_ & Hid & Hu).
    apply view_of_fields in Hv as (-> & -> & _ & _ & -> & ->).
    rewrite fold_assign_build_updates. simpl. auto.
  - discriminate.
Qed.

Lemma update_event_effect_witness :
  ulid_calls (snd (update_event refHost alice first_id retype_body world_one))
  = ulid_calls world_one
  /\ map ev_event_type (events (snd (update_event refHost alice first_id retype_body world_one)))
     = [js "mass"].
Proof.
  destruct (find_event (events world_one) first_id alice) as [existing|] eqn:F;
    [|vm_compute in F; discriminate].
  assert (Hb : build_updates retype_body <> []) by (vm_compute; discriminate).
  split.
  - exact (proj1 (update_event_effect refHost alice first_id retype_body world_one F Hb)).
  - vm_compute. reflexivity.
Defined.

(** X4. A `PATCH /:id` that answers with an error has not written: the
    status is 404 or 400 and the world is the one it started from. *)
Theorem update_event_failure_keeps_world (H : Host) (user eventId : jsstring)
    (body : UpdateEvent) (w w' : World) (status : nat) (error : jsstring) :
  update_event H user eventId body w = (Ok (Failure status error), w') ->
  w' = w
  /\ ((status = 404 /\ find_event (events w) eventId user = None)
      \/ (status = 400 /\ ue_timestamp body = None /\ ue_event_type body = None
          /\ ue_data body = None /\ ue_tags body = None)).
Proof.
  unfold update_event.
  destruct (find_event (events w) eventId user) as [existing|] eqn:Hfind.
  - destruct (build_updates body) as [|a updates] eqn:Hb.
    + intros [= <- <- <-]. split; [reflexivity|]. right. unfold build_updates in Hb.
      destruct (ue_timestamp body), (ue_event_type body), (ue_data body), (ue_tags body);
        try discriminate. auto.
    + cbn [events]. rewrite find_event_sql_update, Hfind. cbn [option_map].
      destruct (view_of H _); intros E; discriminate E.
  - intros [= <- <- <-]. auto.
Qed.

Lemma update_event_failure_keeps_world_witness :
  snd (update_event refHost alice first_id
         {| ue_timestamp := None; ue_event_type := None; ue_data := None; ue_tags := None |}
         world_one) = world_one.
Proof.
  destruct (update_event refHost alice first_id
              {| ue_timestamp := None; ue_event_type := None; ue_data := None; ue_tags := None |}
              world_one) as [r w'] eqn:E.
  pose proof E as E'. vm_compute in E'. injection E' as <- <-.
  exact (proj1 (update_event_failure_keeps_world _ _ _ _ _ E)).
Defined.

Lemma filter_same_length {A} (f : A -> bool) (l : list A) :
  length (filter f l) = length l -> filter f l = l.
Proof.
  induction l as [|x l IH]; simpl; [reflexivity|].
  destruct (f x); simpl; intros Hlen.
  - f_equal. apply IH. lia.
  - pose proof (filter_length_le f l). lia.
Qed.

Lemma sql_delete_changes table eventId user :
  changes table (sql_delete table eventId user) = 0 <->
  sql_delete table eventId user = table.
Proof.
  unfold changes, sql_delete. split.
  - intros Hc. apply filter_same_length.
    pose proof (filter_length_le (fun e => negb (is_event eventId user e)) table). lia.
  - intros ->. lia.
Qed.

Lemma sql_delete_in table eventId user e :
  In e (sql_delete table eventId user) <->
  In e table /\ ~ (ev_id e = eventId /\ ev_user_id e = user).
Proof.
  unfold sql_delete. rewrite filter_In, negb_true_iff, <- is_event_true.
  destruct (is_event eventId user e); intuition congruence.
Qed.

(** X5. `DELETE /:id` removes the rows that have both the id and the
    owner and no other row; it answers success exactly when there was
    such a row, and when it answers 404 the table is as it was. *)
Theorem delete_event_spec (user eventId : jsstring) (w : World) :
  let r := fst (delete_event user eventId w) in
  let w' := snd (delete_event user eventId w) in
  ulid_calls w' = ulid_calls w
  /\ (forall e, In e (events w') <->
                In e (events w) /\ ~ (ev_id e = eventId /\ ev_user_id e = user))
  /\ (r = Ok (Success tt) <->
      exists e, In e (events w) /\ ev_id e = eventId /\ ev_user_id e = user)
  /\ (r = Ok (Success tt) \/ (r = Ok (Failure 404 not_found) /\ w' = w)).
Proof.
  unfold delete_event. cbv zeta.
  destruct (Nat.eqb_spec (changes (events w) (sql_delete (events w) eventId user)) 0)
    as [Hc|Hc]; cbn [fst snd events ulid_calls];
    (split; [reflexivity|]); (split; [intros e; apply sql_delete_in|]).
  - apply sql_delete_changes in Hc. split.
    + split; [discriminate|]. intros (e & Hin & Hid & Hu).
      rewrite <- Hc in Hin. apply sql_delete_in in Hin. tauto.
    + right. split; [reflexivity|]. rewrite Hc. now destruct w.
  - split; [|now left]. split; [|reflexivity]. intros _.
    assert (Hne : sql_delete (events w) eventId user <> events w)
      by (intros Heq; apply Hc; now apply sql_delete_changes).
    destruct (find_event (events w) eventId user) as [e|] eqn:Hf.
    + apply find_event_some in Hf. eauto.
    + elim Hne. unfold sql_delete. apply forallb_filter_id. apply forallb_forall.
      intros e Hin. apply negb_true_iff. apply (find_none _ _ Hf e Hin).
Qed.

(** X6. After `DELETE /:id` the event is gone for its owner: `GET /:id`
    answers 404 and a second `DELETE /:id` answers 404, whatever the first
    one answered. *)
Theorem delete_then_not_found (H : Host) (user eventId : jsstring) (w : World) :
  let w' := snd (delete_event user eventId w) in
  get_event H user eventId w' = (Ok (Failure 404 not_found), w')
  /\ delete_event user eventId w' = (Ok (Failure 404 not_found), w').
Proof.
  cbv zeta.
  assert (Hnone : forall e, In e (events (snd (delete_event user eventId w))) ->
                    ev_id e = eventId -> ev_user_id e <> user).
  { intros e Hin Hid Hu.
    unfold delete_event in Hin. cbv zeta in Hin.
    destruct (changes _ _ =? 0) in Hin; cbn [snd events] in Hin;
      apply sql_delete_in in Hin; tauto. }
  split.
  - apply find_event_none in Hnone. unfold get_event. now rewrite Hnone.
  - set (w' := snd (delete_event user eventId w)) in *.
    assert (Hsame : sql_delete (events w') eventId user = events w').
    { unfold sql_delete. apply forallb_filter_id. apply forallb_forall.
      intros e Hin. apply negb_true_iff.
      destruct (is_event eventId user e) eqn:He; [|reflexivity].
      apply is_event_true in He as [Hid Hu]. now elim (Hnone e Hin Hid). }
    unfold delete_event. cbv zeta. rewrite Hsame.
    unfold changes. rewrite Nat.sub_diag. simpl. now destruct w'.
Qed.

Lemma delete_event_spec_witness :
  fst (delete_event alice first_id world_one) = Ok (Success tt)
  /\ events (snd (delete_event alice first_id world_one)) = [].
Proof.
  split.
  - apply (proj1 (proj2 (proj2 (delete_event_spec alice first_id world_one)))).
    eexists. split; [left; reflexivity|]. split; vm_compute; reflexivity.
  - vm_compute. reflexivity.
Defined.

(** ** One owner's operations and another owner's view *)

Lemma filter_filter_implied {A} (f g : A -> bool) (l : list A) :
  (forall x, f x = true -> g x = true) -> filter f (filter g l) = filter f l.
Proof.
  intros Himp. induction l as [|x l IH]; simpl; [reflexivity|].
  destruct (g x) eqn:Hg; simpl; rewrite IH; [reflexivity|].
  destruct (f x) eqn:Hf; [|reflexivity]. apply Himp in Hf. congruence.
Qed.

Lemma select_events_rows_of table user q :
  select_events table user q = select_events (rows_of user table) user q.
Proof.
  unfold select_events, rows_of. rewrite filter_filter_implied; [reflexivity|].
  intros e He. unfold build_where in He. simpl in He. now apply andb_prop in He as [He _].
Qed.

Lemma find_event_rows_of table eventId user :
  find_event table eventId user = find_event (rows_of user table) eventId user.
Proof.
  unfold find_event, rows_of. induction table as [|e t IH]; simpl; [reflexivity|].
  destruct (jsstring_eqb (ev_user_id e) user) eqn:Hu; simpl.
  - now rewrite IH.
  - unfold is_event at 1. rewrite Hu, andb_false_r. exact IH.
Qed.

Lemma user_id_fold_assign updates e :
  ev_user_id (fold_left assign updates e) = ev_user_id e.
Proof.
  revert e. induction updates as [|a updates IH]; intros e; [reflexivity|].
  simpl. rewrite IH. now destruct a.
Qed.

Lemma rows_of_sql_update other table updates eventId user :
  other <> user ->
  rows_of other (sql_update table updates eventId user) = rows_of other table.
Proof.
  intros Hne. unfold rows_of, sql_update. induction table as [|e t IH]; simpl; [reflexivity|].
  destruct (is_event eventId user e) eqn:He.
  - apply is_event_true in He as [_ Hu]. rewrite user_id_fold_assign, Hu.
    destruct (jsstring_eqb user other) eqn:Huo; [|exact IH].
    apply jsstring_eqb_eq in Huo. congruence.
  - now rewrite IH.
Qed.

Lemma rows_of_sql_delete other table eventId user :
  other <> user ->
  rows_of other (sql_delete table eventId user) = rows_of other table.
Proof.
  intros Hne. unfold rows_of, sql_delete. induction table as [|e t IH]; simpl; [reflexivity|].
  destruct (is_event eventId user e) eqn:He; simpl.
  - apply is_event_true in He as [_ Hu]. rewrite Hu.
    destruct (jsstring_eqb user other) eqn:Huo; [|exact IH].
    apply jsstring_eqb_eq in Huo. congruence.
  - now rewrite IH.
Qed.

Lemma update_event_world (H : Host) user eventId body w :
  events (snd (update_event H user eventId body w)) = events w
  \/ events (snd (update_event H user eventId body w))
     = sql_update (events w) (build_updates body) eventId user.
Proof.
  unfold update_event.
  destruct (find_event (events w) eventId user); [|now left].
  destruct (build_updates body) as [|a updates] eqn:Hb; [now left|]. right.
  destruct (find_event _ _ _) as [updated|]; [|reflexivity].
  now destruct (view_of H updated).
Qed.

(** X7. What one owner patches or deletes is invisible to every other
    owner: after `PATCH /:id` or `DELETE /:id` by [user], another owner
    gets the same answer as before from `GET /`, `GET /:id` and
    `GET /types/list`, whatever the id and the body were. *)
Theorem owner_isolation (H : Host) (user other eventId : jsstring) (body : UpdateEvent)
    (w : World) :
  other <> user ->
  forall w',
    w' = snd (update_event H user eventId body w) \/ w' = snd (delete_event user eventId w) ->
    (forall q, fst (list_events H other q w') = fst (list_events H other q w))
    /\ (forall id, fst (get_event H other id w') = fst (get_event H other id w))
    /\ fst (list_types other w') = fst (list_types other w).
Proof.
  intros Hne w' Hw'.
  assert (Hrows : rows_of other (events w') = rows_of other (events w)).
  { destruct Hw' as [-> | ->].
    - destruct (update_event_world H user eventId body w) as [-> | ->];
        [reflexivity | now apply rows_of_sql_update].
    - unfold delete_event. cbv zeta. destruct (changes _ _ =? 0); cbn [snd events];
        now apply rows_of_sql_delete. }
  split; [|split].
  - intros q. unfold list_events.
    rewrite (select_events_rows_of (events w')), Hrows, <- select_events_rows_of.
    now destruct (views_of H _).
  - intros id. unfold get_event.
    rewrite (find_event_rows_of (events w')), Hrows, <- find_event_rows_of.
    destruct (find_event _ _ _) as [e|]; [|reflexivity]. now destruct (view_of H e).
  - unfold list_types, select_types. cbn [fst].
    change (filter (fun e => jsstring_eqb (ev_user_id e) other) (events w'))
      with (rows_of other (events w')).
    now rewrite Hrows.
Qed.

Lemma owner_isolation_witness :
  fst (get_event refHost alice first_id (snd (delete_event bob first_id world_one)))
  = fst (get_event refHost alice first_id world_one).
Proof.
  assert (Hne : alice <> bob) by (vm_compute; discriminate).
  exact (proj1 (proj2 (owner_isolation refHost (user := bob) first_id retype_body world_one
                         Hne (or_intror eq_refl))) first_id).
Defined.

(** ** The order of event types *)







(** ** The page of `GET /` *)








Lemma firstn_add {A} n m : forall l : list A,
  firstn n l ++ firstn m (skipn n l) = firstn (n + m) l.
Proof.
  induction n as [|n IH]; intros l; [reflexivity|].
  destruct l as [|x l]; simpl; [now rewrite firstn_nil|]. now rewrite IH.
Qed.

(** X10. Consecutive pages tile the result: the page of [n] rows at
    [offset] followed by the page of [m] rows at [offset + n] is the page
    of [n + m] rows at [offset]; nothing is skipped and nothing comes
    twice. *)
Theorem list_pages_compose (table : list Event) (user : jsstring) (q : ListQuery)
    (offset n m : nat) :
  select_events table user (with_page q n offset)
  ++ select_events table user (with_page q m (offset + n))
  = select_events table user (with_page q (n + m) offset).
Proof.
  unfold select_events, with_page, build_where. simpl.
  rewrite (Nat.add_comm offset n), <- skipn_skipn. apply firstn_add.
Qed.


(** * More of the code: what the imports leave in the table *)

Lemma refHost_stores_rows : stores_rows refHost.
Proof.
  intros table p table'. simpl. destruct (p_event_type p) as [ty|]; [|discriminate].
  intros [= <-]. eauto.
Qed.

Section ImportedRows.

Variables (H : Host) (now : Z) (user : jsstring).
Hypothesis Hstores : stores_rows H.

Local Ltac run := unfold bind, try_catch, ret, lift, throw; simpl.

(** A text-mode row either appends its row or leaves the table. *)
Lemma csv_row_table cols line w :
  match csv_row H now user cols line w with
  | (Ok _, w') =>
      exists e, events w' = events w ++ [e]
        /\ ev_user_id e = user /\ ev_source e = js "csv_import" /\ ev_created_at e = now
        /\ exists cell,
             js_index (parseCSVLine line) (timestampIdx cols) = Some cell
             /\ Date_parse H cell = Some (ev_timestamp e)
             /\ js_index (parseCSVLine line) (eventTypeIdx cols) = Some (ev_event_type e)
  | (Throw _, w') => events w' = events w
  end.
Proof.
  rewrite csv_row_normalize. unfold csv_normalize.
  destruct (js_index (parseCSVLine line) (timestampIdx cols)) as [cell|] eqn:Hcell;
    simpl; [|reflexivity].
  destruct (Date_parse H cell) as [t|] eqn:Ht; simpl; [|reflexivity].
  destruct (decode_cell _ (dataIdx cols) _) as [d|]; [|reflexivity].
  destruct (decode_cell _ (tagsIdx cols) _) as [g|]; [|reflexivity].
  unfold run_insert. cbn [events ulid_calls].
  destruct (D1_insert H (events w) _) as [t'|] eqn:Hins; [|reflexivity].
  apply Hstores in Hins as (ty & Hty & ->). cbn [p_event_type] in Hty.
  eexists. split; [reflexivity|]. simpl. repeat split. exists cell. auto.
Qed.

Lemma csv_loop_table cols rest : forall i results w results' w',
  csv_loop H now user cols i rest results w = (Ok results', w') ->
  exists added lines,
    events w' = events w ++ added
    /\ success results' = success results + length added
    /\ sublist lines rest
    /\ Forall2 (fun l e => is_blank l = false /\ csv_row_of H now user cols l e) lines added.
Proof.
  induction rest as [|l rest IH]; intros i results w results' w' Hrun.
  - simpl in Hrun. injection Hrun as <- <-. exists [], [].
    rewrite app_nil_r. repeat split; auto; constructor.
  - destruct (is_blank l) eqn:Hl.
    + rewrite csv_loop_blank in Hrun by assumption.
      apply IH in Hrun as (added & lines & Hev & Hs & Hsub & Hall).
      exists added, lines. repeat split; auto. now constructor.
    + rewrite csv_loop_step in Hrun by assumption.
      pose proof (csv_row_table cols (trim l) w) as Hrow.
      destruct (csv_row H now user cols (trim l) w) as [[[]|err] w1].
      * destruct Hrow as (e & Hev1 & Hrest).
        apply IH in Hrun as (added & lines & Hev & Hs & Hsub & Hall).
        exists (e :: added), (l :: lines). rewrite Hev, Hev1, <- app_assoc. simpl in *.
        split; [reflexivity|]. split; [lia|]. split; [now constructor|].
        constructor; [|assumption]. split; [assumption|]. exact Hrest.
      * apply IH in Hrun as (added & lines & Hev & Hs & Hsub & Hall).
        exists added, lines. rewrite Hev, Hrow. simpl in *. repeat split; auto.
        now constructor.
Qed.



End ImportedRows.

(** X11. On a host whose database appends what it accepts, a text-mode
    import only appends to the table, and appends as many rows as it
    reports imported: one for each of some of the data lines, in their
    order, each stamped with the owner, `csv_import` and the time of the
    request, its event type the cell of the line and its timestamp what
    `Date` reads in the timestamp cell (the seconds rule of
    `parseTimestamp` never applies to a cell); the rows that were there
    stay, and a line reported in errors leaves no row. *)
Theorem import_csv_rows (H : Host) (now : Z) (user body : jsstring) (w w' : World)
    (r : ImportReport) :
  stores_rows H ->
  import_csv H now user body w = (Ok (Success r), w') ->
  exists added lines,
    events w' = events w ++ added
    /\ length added = imported r
    /\ sublist lines (data_lines body)
    /\ Forall2 (fun l e => is_blank l = false
                           /\ csv_row_of H now user (columns_of (header_of body)) l e)
         lines added.
Proof.
  intros Hstores Hrun.
  apply import_csv_report in Hrun as (_ & _ & res & Hloop & ->).
  apply csv_loop_table in Hloop as (added & lines & Hev & Hs & Hsub & Hall); [|assumption].
  exists added, lines. simpl in *. repeat split; auto.
Qed.

Lemma import_csv_rows_witness :
  exists added,
    events (snd (import_csv refHost 0 alice body_bad_data emptyWorld)) = [] ++ added
    /\ length added = 2.
Proof.
  destruct (import_csv refHost 0 alice body_bad_data emptyWorld) as [res w'] eqn:E.
  pose proof E as E'. vm_compute in E'. injection E' as <- <-.
  apply import_csv_rows in E as (added & lines & Hev & Hlen & _);
    [|exact refHost_stores_rows].
  exists added. split; [exact Hev | exact Hlen].
Defined.



(** ** The order of the errors *)

Section ErrorOrder.

Variables (H : Host) (now : Z) (user : jsstring).

Lemma csv_loop_errors_ordered cols rest : forall i results w results' w',
  csv_loop H now user cols i rest results w = (Ok results', w') ->
  exists refs : list (nat * jsstring),
    results_errors results'
    = results_errors results ++ map (fun r => line_ref (fst r) (snd r)) refs
    /\ StronglySorted lt (map fst refs)
    /\ Forall (fun n => i + 1 <= n <= i + length rest) (map fst refs).
Proof.
  induction rest as [|l rest IH]; intros i results w results' w' Hrun.
  - simpl in Hrun. injection Hrun as <- <-. exists []. simpl.
    rewrite app_nil_r. repeat split; constructor.
  - assert (Hshift : forall refs : list (nat * jsstring),
               Forall (fun n => S i + 1 <= n <= S i + length rest) (map fst refs) ->
               Forall (fun n => i + 1 <= n <= i + length (l :: rest)) (map fst refs)).
    { intros refs. apply Forall_impl. simpl. intros n. lia. }
    destruct (is_blank l) eqn:Hl.
    + rewrite csv_loop_blank in Hrun by assumption.
      apply IH in Hrun as (refs & Herr & Hs & Hb). exists refs. auto.
    + rewrite csv_loop_step in Hrun by assumption.
      destruct (csv_row H now user cols (trim l) w) as [[[]|err] w1].
      * apply IH in Hrun as (refs & Herr & Hs & Hb). exists refs. auto.
      * apply IH in Hrun as (refs & Herr & Hs & Hb).
        exists ((i + 1, error_message (js "Unknown error") err) :: refs).
        simpl in *. rewrite <- app_assoc in Herr. split; [exact Herr|]. split.
        -- constructor; [assumption|]. eapply Forall_impl; [|exact Hb]. simpl. lia.
        -- constructor; [lia|]. now apply Hshift.
Qed.

Lemma json_loop_errors_ordered rest : forall i results w results' w',
  json_loop H now user i rest results w = (Ok results', w') ->
  exists refs : list (nat * jsstring),
    results_errors results'
    = results_errors results ++ map (fun r => event_ref (fst r) (snd r)) refs
    /\ StronglySorted lt (map fst refs)
    /\ Forall (fun n => i <= n < i + length rest) (map fst refs).
Proof.
  induction rest as [|event rest IH]; intros i results w results' w' Hrun.
  - simpl in Hrun. injection Hrun as <- <-. exists []. simpl.
    rewrite app_nil_r. repeat split; constructor.
  - rewrite json_loop_step in Hrun.
    destruct (json_row H now user event w) as [[[]|err] w1].
    + apply IH in Hrun as (refs & Herr & Hs & Hb). exists refs.
      split; [assumption|]. split; [assumption|].
      eapply Forall_impl; [|exact Hb]. simpl. lia.
    + apply IH in Hrun as (refs & Herr & Hs & Hb).
      exists ((i, error_message (js "Unknown error") err) :: refs).
      simpl in *. rewrite <- app_assoc in Herr. split; [exact Herr|]. split.
      * constructor; [assumption|]. eapply Forall_impl; [|exact Hb]. simpl. lia.
      * constructor; [lia|]. eapply Forall_impl; [|exact Hb]. simpl. lia.
Qed.

End ErrorOrder.

(** X13. The errors of an import follow the input: in text mode they are
    messages "Line n: ..." with strictly increasing line numbers n
    between 2 and the number of lines, so at most one per line; in
    structured mode they are messages "Event i: ..." with strictly
    increasing indices i below the number of records. *)
Theorem import_errors_ordered (H : Host) (now : Z) (user : jsstring) :
  (forall body w r w',
      import_csv H now user body w = (Ok (Success r), w') ->
      exists refs : list (nat * jsstring),
        errors r = map (fun x => line_ref (fst x) (snd x)) refs
        /\ StronglySorted lt (map fst refs)
        /\ Forall (fun n => 2 <= n <= length (lines_of body)) (map fst refs))
  /\ (forall evs w, exists r w' (refs : list (nat * jsstring)),
      import_json H now user evs w = (Ok (Success r), w')
      /\ errors r = map (fun x => event_ref (fst x) (snd x)) refs
      /\ StronglySorted lt (map fst refs)
      /\ Forall (fun i => i < length evs) (map fst refs)).
Proof.
  split.
  - intros body w r w' Hrun.
    apply import_csv_report in Hrun as (Hlen & _ & res & Hloop & ->).
    apply csv_loop_errors_ordered in Hloop as (refs & Herr & Hs & Hb).
    exists refs. simpl in *. split; [assumption|]. split; [assumption|].
    eapply Forall_impl; [|exact Hb]. simpl. unfold data_lines. rewrite length_tl. lia.
  - intros evs w.
    destruct (import_json_run H now user evs w) as (res & w' & Hloop & E).
    apply json_loop_errors_ordered in Hloop as (refs & Herr & Hs & Hb).
    eexists. exists w', refs. split; [exact E|]. simpl in *.
    split; [assumption|]. split; [assumption|].
    eapply Forall_impl; [|exact Hb]. simpl. lia.
Qed.

Lemma import_errors_ordered_witness :
  exists refs : list (nat * jsstring),
    errors {| imported := 2; total := 3;
              errors := [line_ref 3 (js "Invalid JSON in data column")] |}
    = map (fun x => line_ref (fst x) (snd x)) refs
    /\ StronglySorted lt (map fst refs).
Proof.
  destruct (import_csv refHost 0 alice body_bad_data emptyWorld) as [res w'] eqn:E.
  pose proof E as E'. vm_compute in E'. injection E' as <- <-.
  apply (proj1 (import_errors_ordered refHost 0 alice)) in E as (refs & Herr & Hs & _).
  exists refs. split; [exact Herr | exact Hs].
Defined.

(** * More of the code: the shape of what `parseCSVLine` returns *)

Lemma trimStart_clean s : starts_clean (trimStart s).
Proof.
  induction s as [|c s IH]; simpl; [exact I|].
  destruct (is_whitespace c) eqn:Hc; [exact IH | exact Hc].
Qed.

Lemma trimStart_id s : starts_clean s -> trimStart s = s.
Proof.
  destruct s as [|c s]; simpl; [reflexivity|]. now intros ->.
Qed.

Lemma trimStart_suffix s : exists p, s = p ++ trimStart s.
Proof.
  induction s as [|c s [p IH]]; simpl; [now exists []|].
  destruct (is_whitespace c); [|now exists []].
  exists (c :: p). simpl. now rewrite <- IH.
Qed.

Lemma trim_idempotent s : trim (trim s) = trim s.
Proof.
  unfold trim, trimEnd.
  set (t := trimStart s). set (u := trimStart (rev t)).
  assert (Hu : starts_clean u) by apply trimStart_clean.
  assert (Hru : starts_clean (rev u)).
  { destruct (trimStart_suffix (rev t)) as [p Hp]. fold u in Hp.
    assert (Ht : t = rev u ++ rev p).
    { rewrite <- (rev_involutive t), Hp, rev_app_distr. reflexivity. }
    pose proof (trimStart_clean s) as Hc. fold t in Hc. rewrite Ht in Hc.
    destruct (rev u) as [|c r]; [exact I | exact Hc]. }
  rewrite (trimStart_id _ Hru), rev_involutive, (trimStart_id _ Hu). reflexivity.
Qed.

Lemma loop_shape line : forall result current inQuotes,
  Forall (fun f => trim f = f) result ->
  let fields := parseCSVLine_loop line result current inQuotes in
  Forall (fun f => trim f = f) fields
  /\ length result + 1 <= length fields <= length result + 1 + count_occ N.eq_dec line COMMA
  /\ (unquoted line = true -> inQuotes = false ->
      length fields = length result + 1 + count_occ N.eq_dec line COMMA).
Proof.
  cbv zeta. induction line as [line IH] using (induction_ltof1 _ (@length N)).
  unfold ltof in IH. intros result current inQuotes Hres.
  assert (Hpush : Forall (fun f => trim f = f) (result ++ [trim current])).
  { apply Forall_app. split; [assumption|]. constructor; [apply trim_idempotent | constructor]. }
  destruct line as [|char rest].
  - simpl. rewrite length_app. simpl. repeat split; auto; lia.
  - cbn [parseCSVLine_loop unquoted forallb count_occ].
    destruct (N.eqb_spec char DQUOTE) as [->|Hq].
    + assert (Hc : (if N.eq_dec DQUOTE COMMA then true else false) = false) by reflexivity.
      destruct (N.eq_dec DQUOTE COMMA) as [Hd|_]; [discriminate Hd|].
      cbn [negb andb].
      assert (Hgen : forall q cur,
                 let fields := parseCSVLine_loop rest result cur q in
                 Forall (fun f => trim f = f) fields
                 /\ length result + 1 <= length fields
                    <= length result + 1 + count_occ N.eq_dec rest COMMA
                 /\ (false = true -> inQuotes = false ->
                     length fields = length result + 1 + count_occ N.eq_dec rest COMMA)).
      { intros q cur. destruct (IH rest (Nat.lt_succ_diag_r _) result cur q Hres)
          as (Ha & Hb & _). repeat split; auto; try lia; discriminate. }
      destruct inQuotes; [|apply Hgen].
      destruct rest as [|next rest']; [apply Hgen|].
      destruct (N.eqb_spec next DQUOTE) as [->|Hn]; [|apply Hgen].
      assert (Hlt : length rest' < length (DQUOTE :: DQUOTE :: rest')) by (simpl; lia).
      destruct (IH rest' Hlt result (current ++ [DQUOTE]) true Hres) as (Ha & Hb & _).
      cbn [count_occ]. destruct (N.eq_dec DQUOTE COMMA) as [Hd|_]; [discriminate Hd|].
      repeat split; auto; try lia; discriminate.
    + cbn [negb andb].
      destruct (N.eqb_spec char COMMA) as [->|Hcm].
      * destruct (N.eq_dec COMMA COMMA) as [_|Hd]; [|now elim Hd].
        destruct inQuotes; cbn [negb andb].
        -- destruct (IH rest (Nat.lt_succ_diag_r _) result (current ++ [COMMA]) true Hres)
             as (Ha & Hb & _).
           repeat split; auto; try lia; discriminate.
        -- destruct (IH rest (Nat.lt_succ_diag_r _) (result ++ [trim current]) [] false Hpush)
             as (Ha & Hb & Hc).
           rewrite length_app in *. simpl in *.
           repeat split; auto; try lia. intros Hu _. specialize (Hc Hu eq_refl). lia.
      * destruct (N.eq_dec char COMMA) as [Hd|_]; [now elim Hcm|].
        cbn [andb].
        destruct (IH rest (Nat.lt_succ_diag_r _) result (current ++ [char]) inQuotes Hres)
          as (Ha & Hb & Hc).
        repeat split; auto; lia.
Qed.

(** X14. `parseCSVLine` never fails and never returns an empty array:
    it returns between one field and one more than the line has commas,
    exactly one more when the line has no double quote; and every field
    it returns is trimmed, quoted or not. *)
Theorem parseCSVLine_shape (line : jsstring) :
  parseCSVLine line <> []
  /\ 1 <= length (parseCSVLine line) <= 1 + count_occ N.eq_dec line COMMA
  /\ (unquoted line = true ->
      length (parseCSVLine line) = 1 + count_occ N.eq_dec line COMMA)
  /\ Forall (fun f => trim f = f) (parseCSVLine line).
Proof.
  unfold parseCSVLine.
  destruct (loop_shape line (result := []) [] false (Forall_nil _)) as (Ha & Hb & Hc).
  simpl in *. split; [|split; [|split]]; auto.
  destruct (parseCSVLine_loop line [] [] false); [simpl in Hb; lia | discriminate].
Qed.

Lemma parseCSVLine_shape_witness :
  length (parseCSVLine (js "a,b,,")) = 1 + count_occ N.eq_dec (js "a,b,,") COMMA.
Proof.
  exact (proj1 (proj2 (proj2 (parseCSVLine_shape (js "a,b,,")))) eq_refl).
Defined.

(** X15. A quote that is never closed is no error: the rest of the line,
    commas included, is the last field. *)
Theorem parseCSVLine_unterminated_quote (fs : list jsstring) (s : jsstring) :
  forallb plain fs = true -> unquoted s = true ->
  parseCSVLine (join [COMMA] (fs ++ [DQUOTE :: s])) = map trim fs ++ [trim s].
Proof.
  intros Hfs Hs. unfold parseCSVLine.
  assert (Hgen : forall result,
             parseCSVLine_loop (join [COMMA] (fs ++ [DQUOTE :: s])) result [] false
             = result ++ map trim fs ++ [trim s]).
  { induction fs as [|f fs IH]; intros result.
    - simpl app. simpl join. rewrite loop_open.
      rewrite <- (app_nil_r s) at 1. rewrite loop_in_quotes by assumption. reflexivity.
    - simpl in Hfs. apply andb_prop in Hfs as [Hf Hfs].
      replace (join [COMMA] ((f :: fs) ++ [DQUOTE :: s]))
        with (f ++ COMMA :: join [COMMA] (fs ++ [DQUOTE :: s]))
        by (simpl; destruct (fs ++ [DQUOTE :: s]) eqn:E;
            [now destruct fs | reflexivity]).
      rewrite loop_plain, loop_comma by assumption.
      rewrite IH by assumption. simpl. now rewrite <- app_assoc. }
  apply Hgen.
Qed.

Lemma parseCSVLine_unterminated_quote_witness :
  parseCSVLine (js "a," ++ DQUOTE :: js "b,c") = [js "a"; js "b,c"].
Proof.
  exact (parseCSVLine_unterminated_quote [js "a"] (js "b,c") eq_refl eq_refl).
Defined.

(** * More of the code: password hashing *)

Section Base64Facts.

Ltac Zify.zify_post_hook ::= Z.to_euclidean_division_equations.

Lemma list_ind3 {A} (P : list A -> Prop) :
  P [] -> (forall a, P [a]) -> (forall a b, P [a; b]) ->
  (forall a b c rest, P rest -> P (a :: b :: c :: rest)) ->
  forall l, P l.
Proof.
  intros H0 H1 H2 H3.
  fix IH 1. intros [|a [|b [|c rest]]];
    [exact H0 | apply H1 | apply H2 | apply H3, IH].
Qed.

Lemma below_64 (f : N -> bool) :
  forallb f (map N.of_nat (seq 0 64)) = true -> forall n, (n < 64)%N -> f n = true.
Proof.
  intros Hall n Hn. rewrite forallb_forall in Hall. apply Hall.
  rewrite <- (N2Nat.id n). apply in_map. apply in_seq. lia.
Qed.

Lemma char_of_index n : (n < 64)%N -> Base64.index_of (Base64.char_of n) = Some n.
Proof.
  intros Hn.
  pose proof (below_64 (fun n => match Base64.index_of (Base64.char_of n) with
                                 | Some m => N.eqb m n
                                 | None => false
                                 end) eq_refl Hn) as Hf.
  simpl in Hf. destruct (Base64.index_of (Base64.char_of n)); [|discriminate].
  apply N.eqb_eq in Hf. now subst.
Qed.

Lemma char_of_in_alphabet n : in_alphabet (Base64.char_of n).
Proof.
  unfold in_alphabet. destruct (N.lt_ge_cases n 64) as [Hn|Hn].
  - now rewrite char_of_index.
  - unfold Base64.char_of.
    destruct (N.ltb_spec n 26); [lia|]. destruct (N.ltb_spec n 52); [lia|].
    destruct (N.ltb_spec n 62); [lia|]. destruct (N.eqb_spec n 62); [lia|]. discriminate.
Qed.

Lemma in_alphabet_facts c :
  in_alphabet c ->
  c <> Base64.EQUALS /\ c <> DOLLAR /\ Base64.is_ascii_whitespace c = false /\ (c < 256)%N.
Proof.
  unfold in_alphabet, Base64.index_of, Base64.EQUALS, DOLLAR, Base64.is_ascii_whitespace.
  intros Hc.
  assert (Hrange : (65 <= c <= 90 \/ 97 <= c <= 122 \/ 48 <= c <= 57 \/ c = 43 \/ c = 47)%N).
  { destruct (N.leb_spec 65 c), (N.leb_spec c 90), (N.leb_spec 97 c), (N.leb_spec c 122),
      (N.leb_spec 48 c), (N.leb_spec c 57), (N.eqb_spec c 43), (N.eqb_spec c 47);
      simpl in Hc; try lia; congruence. }
  repeat split; try lia.
  simpl. repeat (rewrite (proj2 (N.eqb_neq _ _)) by lia). reflexivity.
Qed.

Lemma unpadded_alphabet : forall bytes, Forall in_alphabet (unpadded bytes).
Proof.
  apply list_ind3; intros; simpl; repeat constructor; auto using char_of_in_alphabet.
Qed.

Lemma encode_unpadded : forall bytes, Base64.encode bytes = unpadded bytes ++ padding bytes.
Proof.
  apply list_ind3; intros; simpl; try reflexivity. now rewrite H.
Qed.

Lemma padding_cases bytes :
  padding bytes = []
  \/ (padding bytes = [Base64.EQUALS] /\ unpadded bytes <> [])
  \/ padding bytes = [Base64.EQUALS; Base64.EQUALS].
Proof.
  revert bytes. apply list_ind3; intros; simpl; auto.
  - right. left. split; [reflexivity | discriminate].
  - destruct H as [H|[[H Hne]|H]]; auto. right. left. split; [assumption | discriminate].
Qed.

Lemma encode_length : forall bytes,
  exists k, length (Base64.encode bytes) = 4 * k
    /\ (length (unpadded bytes) = 4 * k
        \/ S (length (unpadded bytes)) = 4 * k
        \/ S (S (length (unpadded bytes))) = 4 * k).
Proof.
  apply list_ind3; intros; simpl.
  - exists 0. auto.
  - exists 1. auto.
  - exists 1. auto.
  - destruct H as (k & Hk & Hu). exists (S k). rewrite Hk. split; lia.
Qed.

Lemma rev_head_alphabet s :
  Forall in_alphabet s ->
  match rev s with
  | c :: _ => N.eqb c Base64.EQUALS = false
  | [] => True
  end.
Proof.
  intros Hs. apply Forall_rev in Hs. destruct (rev s) as [|c r]; [exact I|].
  inversion Hs as [|? ? Hc _]; subst.
  apply in_alphabet_facts in Hc as (Hne & _). now apply N.eqb_neq.
Qed.

Lemma strip_padding_encode bytes :
  Base64.strip_padding (Base64.encode bytes) = unpadded bytes.
Proof.
  rewrite encode_unpadded. unfold Base64.strip_padding.
  pose proof (rev_head_alphabet (unpadded_alphabet bytes)) as Hhead.
  destruct (padding_cases bytes) as [-> | [[-> Hne] | ->]].
  - rewrite app_nil_r. destruct (rev (unpadded bytes)) as [|e1 [|e2 r]]; try reflexivity;
      now rewrite Hhead.
  - rewrite rev_app_distr. simpl.
    destruct (rev (unpadded bytes)) as [|e2 r] eqn:Hr.
    + apply (f_equal (@rev N)) in Hr. rewrite rev_involutive in Hr. now elim Hne.
    + rewrite Hhead. change (rev (e2 :: r) = unpadded bytes).
      rewrite <- Hr. apply rev_involutive.
  - rewrite rev_app_distr. simpl. apply rev_involutive.
Qed.

Lemma decode_unpadded : forall bytes,
  is_bytes bytes -> Base64.decode_groups (unpadded bytes) = Some bytes.
Proof.
  unfold is_bytes.
  apply (list_ind3 (fun bytes => Forall (fun b => (b < 256)%N) bytes ->
                      Base64.decode_groups (unpadded bytes) = Some bytes)).
  - reflexivity.
  - intros a Ha. inversion Ha as [|? ? Ha' _]; subst. simpl.
    rewrite !char_of_index by lia. do 2 f_equal. lia.
  - intros a b Hab. inversion Hab as [|? ? Ha' Hb]; subst.
    inversion Hb as [|? ? Hb' _]; subst. simpl.
    rewrite !char_of_index by lia. f_equal. f_equal; [lia|]. f_equal. lia.
  - intros a b c rest IH Habc. inversion Habc as [|? ? Ha' Hb]; subst.
    inversion Hb as [|? ? Hb' Hc]; subst. inversion Hc as [|? ? Hc' Hrest]; subst.
    cbn [unpadded Base64.decode_groups].
    rewrite !char_of_index by lia. rewrite (IH Hrest).
    f_equal. f_equal; [lia|]. f_equal; [lia|]. f_equal. lia.
Qed.

Lemma filter_all {A} (f : A -> bool) l : Forall (fun x => f x = true) l -> filter f l = l.
Proof.
  intros Hall. apply forallb_filter_id. now apply forallb_forall, Forall_forall.
Qed.

Lemma encode_chars bytes :
  Forall (fun c => c <> DOLLAR /\ Base64.is_ascii_whitespace c = false /\ (c < 256)%N)
    (Base64.encode bytes).
Proof.
  rewrite encode_unpadded. apply Forall_app. split.
  - eapply Forall_impl; [|apply unpadded_alphabet].
    intros c Hc. apply in_alphabet_facts in Hc. tauto.
  - destruct (padding_cases bytes) as [-> | [[-> _] | ->]]; repeat constructor;
      unfold Base64.EQUALS, DOLLAR; try lia; discriminate.
Qed.

(** `atob` undoes the encoding of bytes. *)
Lemma atob_encode bytes : is_bytes bytes -> atob (Base64.encode bytes) = Ok bytes.
Proof.
  intros Hb. unfold atob.
  rewrite filter_all
    by (eapply Forall_impl; [|apply encode_chars]; simpl; intros c (_ & -> & _); reflexivity).
  destruct (encode_length bytes) as (k & Hk & Hu).
  assert (H0 : length (Base64.encode bytes) mod 4 = 0)
    by (rewrite Hk, Nat.mul_comm; apply Nat.Div0.mod_mul).
  rewrite H0. rewrite Nat.eqb_refl. cbv zeta. rewrite strip_padding_encode.
  assert (H1 : length (unpadded bytes) mod 4 <> 1).
  { pose proof (Nat.Div0.div_mod (length (unpadded bytes)) 4).
    pose proof (Nat.mod_upper_bound (length (unpadded bytes)) 4). lia. }
  apply Nat.eqb_neq in H1. rewrite H1. now rewrite decode_unpadded.
Qed.

End Base64Facts.

(** ** The helpers of `password.ts` *)

Lemma map_fromCharCode bytes : is_bytes bytes -> map fromCharCode bytes = bytes.
Proof.
  induction 1 as [|b bytes Hb _ IH]; simpl; [reflexivity|].
  rewrite IH. f_equal. unfold fromCharCode. apply N.mod_small. lia.
Qed.

Lemma map_to_uint8 bytes : is_bytes bytes -> map to_uint8 bytes = bytes.
Proof.
  induction 1 as [|b bytes Hb _ IH]; simpl; [reflexivity|].
  rewrite IH. f_equal. unfold to_uint8. now apply N.mod_small.
Qed.

Lemma arrayBufferToBase64_bytes bytes :
  is_bytes bytes -> arrayBufferToBase64 bytes = Ok (Base64.encode bytes).
Proof.
  intros Hb. unfold arrayBufferToBase64, btoa. rewrite map_fromCharCode by assumption.
  replace (forallb (fun c => (c <? 256)%N) bytes) with true; [reflexivity|].
  symmetry. apply forallb_forall. intros b Hin.
  unfold is_bytes in Hb. rewrite Forall_forall in Hb. apply N.ltb_lt. auto.
Qed.

Lemma base64ToArrayBuffer_encode bytes :
  is_bytes bytes -> base64ToArrayBuffer (Base64.encode bytes) = Ok bytes.
Proof.
  intros Hb. unfold base64ToArrayBuffer. rewrite atob_encode by assumption.
  now rewrite map_to_uint8.
Qed.

Lemma encode_injective a b :
  is_bytes a -> is_bytes b -> Base64.encode a = Base64.encode b -> a = b.
Proof.
  intros Ha Hb Heq. apply atob_encode in Ha, Hb. rewrite Heq in Ha. congruence.
Qed.

Lemma encode_total_length : forall bytes,
  length (Base64.encode bytes) = 4 * ((length bytes + 2) / 3).
Proof.
  apply list_ind3; intros; try reflexivity.
  cbn [Base64.encode length]. rewrite H.
  replace (S (S (S (length rest))) + 2) with (length rest + 2 + 1 * 3) by lia.
  rewrite Nat.div_add by lia. lia.
Qed.

(** X16. The two helpers are inverse on bytes: an `ArrayBuffer` encoded
    by `arrayBufferToBase64` and decoded by `base64ToArrayBuffer` is the
    same buffer; the text has four characters for every three bytes
    begun and no `$` in it. *)
Theorem base64_round_trip (buffer : list N) :
  is_bytes buffer ->
  exists text,
    arrayBufferToBase64 buffer = Ok text
    /\ base64ToArrayBuffer text = Ok buffer
    /\ length text = 4 * ((length buffer + 2) / 3)
    /\ ~ In DOLLAR text.
Proof.
  intros Hb. exists (Base64.encode buffer).
  split; [now apply arrayBufferToBase64_bytes|].
  split; [now apply base64ToArrayBuffer_encode|].
  split; [apply encode_total_length|].
  intros Hin. pose proof (encode_chars buffer) as Hc. rewrite Forall_forall in Hc.
  now apply Hc in Hin as (Hne & _).
Qed.

Lemma base64_round_trip_witness :
  exists text,
    arrayBufferToBase64 [1; 2; 255; 0]%N = Ok text
    /\ base64ToArrayBuffer text = Ok [1; 2; 255; 0]%N.
Proof.
  assert (Hb : is_bytes [1; 2; 255; 0]%N) by (repeat constructor).
  destruct (base64_round_trip Hb) as (text & H1 & H2 & _).
  exists text. split; [exact H1 | exact H2].
Defined.

(** ** The comparison of `verifyPassword` *)

Lemma compare_loop_zero a : forall b result,
  length a = length b ->
  (compare_loop a b result = 0%N <-> result = 0%N /\ a = b).
Proof.
  induction a as [|x a IH]; intros [|y b] result Hlen; simpl in *; try discriminate.
  - intuition.
  - rewrite IH by lia. rewrite N.lor_eq_0_iff, N.lxor_eq_0_iff.
    split; [intros ((Hr & ->) & ->) | intros (Hr & [= -> ->])]; auto.
Qed.

(** X17. The loop that compares the computed hash with the stored one,
    accumulating the exclusive or of the code units, ends on 0 exactly
    when two texts of the same length are equal. *)
Theorem compare_loop_decides_equality (a b : jsstring) :
  length a = length b ->
  (N.eqb (compare_loop a b 0) 0 = true <-> a = b).
Proof.
  intros Hlen. rewrite N.eqb_eq, compare_loop_zero by assumption. tauto.
Qed.

Lemma compare_loop_decides_equality_witness :
  N.eqb (compare_loop (js "TWFu") (js "TWFv") 0) 0 = true <-> js "TWFu" = js "TWFv".
Proof.
  exact (compare_loop_decides_equality (js "TWFu") (js "TWFv") eq_refl).
Defined.

(** ** Splitting the stored hash *)

Lemma split_no_separator sep s : ~ In sep s -> split sep s = [s].
Proof.
  induction s as [|c s IH]; intros Hno; simpl; [reflexivity|].
  destruct (N.eqb_spec c sep) as [->|Hc]; [elim Hno; now left|].
  rewrite IH by (intros Hin; apply Hno; now right). reflexivity.
Qed.

Lemma split_at_separator sep a b :
  ~ In sep a -> split sep (a ++ sep :: b) = a :: split sep b.
Proof.
  induction a as [|c a IH]; intros Hno; simpl.
  - now rewrite N.eqb_refl.
  - destruct (N.eqb_spec c sep) as [->|Hc]; [elim Hno; now left|].
    rewrite IH by (intros Hin; apply Hno; now right). reflexivity.
Qed.

Lemma join_split sep s : join [sep] (split sep s) = s.
Proof.
  induction s as [|c s IH]; simpl; [reflexivity|].
  destruct (N.eqb_spec c sep) as [->|Hc].
  - pose proof (split_length_pos sep s) as Hlen.
    destruct (split sep s) as [|h t] eqn:Hs; [simpl in Hlen; lia|].
    change (join [sep] ([] :: h :: t)) with ([] ++ [sep] ++ join [sep] (h :: t)).
    now rewrite IH.
  - pose proof (split_length_pos sep s) as Hlen.
    destruct (split sep s) as [|h t] eqn:Hs; [simpl in Hlen; lia|].
    destruct t as [|h' t].
    + simpl in *. now rewrite IH.
    + change (join [sep] ((c :: h) :: h' :: t)) with (c :: (h ++ [sep] ++ join [sep] (h' :: t))).
      change (join [sep] (h :: h' :: t)) with (h ++ [sep] ++ join [sep] (h' :: t)) in IH.
      now rewrite IH.
Qed.

Lemma encode_no_dollar bytes : ~ In DOLLAR (Base64.encode bytes).
Proof.
  intros Hin. pose proof (encode_chars bytes) as Hc. rewrite Forall_forall in Hc.
  now apply Hc in Hin as (Hne & _).
Qed.

Lemma split_stored_hash salt bits :
  split DOLLAR (stored_hash salt bits)
  = [js "pbkdf2"; js "100000"; Base64.encode salt; Base64.encode bits].
Proof.
  change (stored_hash salt bits)
    with (js "pbkdf2" ++ DOLLAR :: (js "100000" ++ DOLLAR
            :: (Base64.encode salt ++ DOLLAR :: Base64.encode bits))).
  rewrite (@split_at_separator DOLLAR (js "pbkdf2")) by (vm_compute; intuition discriminate).
  rewrite (@split_at_separator DOLLAR (js "100000")) by (vm_compute; intuition discriminate).
  rewrite split_at_separator by apply encode_no_dollar.
  rewrite split_no_separator by apply encode_no_dollar. reflexivity.
Qed.

Section Password.

Variable C : Crypto.

Lemma hashPassword_stored salt password bits :
  is_bytes salt -> is_bytes bits ->
  deriveBits C (TextEncoder_encode C password) salt (Some PBKDF2_ITERATIONS) (KEY_LENGTH * 8)
  = Ok bits ->
  hashPassword C salt password = Ok (stored_hash salt bits).
Proof.
  intros Hs Hb Hd. unfold hashPassword. rewrite Hd.
  now rewrite !arrayBufferToBase64_bytes by assumption.
Qed.

Lemma verifyPassword_stored salt bits password bits' :
  is_bytes salt -> is_bytes bits -> is_bytes bits' ->
  deriveBits C (TextEncoder_encode C password) salt (Some PBKDF2_ITERATIONS) (KEY_LENGTH * 8)
  = Ok bits' ->
  verifyPassword C password (stored_hash salt bits)
  = Ok (if list_eq_dec N.eq_dec bits' bits then true else false).
Proof.
  intros Hs Hb Hb' Hd. unfold verifyPassword. rewrite split_stored_hash.
  cbn [length Nat.eqb negb orb js_index Z.ltb Z.compare Z.to_nat nth_error nth].
  change (jsstring_eqb (js "pbkdf2") (js "pbkdf2")) with true. cbn [negb orb].
  change (parseInt (js "100000")) with (Some PBKDF2_ITERATIONS).
  rewrite base64ToArrayBuffer_encode by assumption. rewrite Hd.
  rewrite arrayBufferToBase64_bytes by assumption.
  destruct (list_eq_dec N.eq_dec bits' bits) as [->|Hne].
  - rewrite Nat.eqb_refl. cbn [negb]. f_equal.
    apply N.eqb_eq. apply compare_loop_zero; auto.
  - destruct (Nat.eqb_spec (length (Base64.encode bits')) (length (Base64.encode bits)))
      as [Hlen|Hlen]; cbn [negb]; [|reflexivity].
    f_equal. apply not_true_is_false. intros Heq.
    apply N.eqb_eq in Heq. apply compare_loop_zero in Heq as [_ Heq]; [|assumption].
    apply Hne. now apply encode_injective.
Qed.

End Password.

Lemma split_length sep s : length (split sep s) = S (count_occ N.eq_dec s sep).
Proof.
  induction s as [|c s IH]; [reflexivity|].
  cbn [split count_occ].
  destruct (N.eqb_spec c sep) as [->|Hc].
  - destruct (N.eq_dec sep sep) as [_|Hd]; [|now elim Hd].
    cbn [length]. now rewrite IH.
  - destruct (N.eq_dec c sep) as [Hd|_]; [now elim Hc|].
    rewrite <- IH. now destruct (split sep s).
Qed.

(** X18. A password verifies against its own hash: whatever salt was
    drawn, if the derivation succeeds then `hashPassword` returns a text
    of four `$`-separated parts and `verifyPassword` accepts the password
    against it. *)
Theorem verify_own_hash (C : Crypto) (salt bits : list N) (password : jsstring) :
  is_bytes salt -> is_bytes bits ->
  deriveBits C (TextEncoder_encode C password) salt (Some PBKDF2_ITERATIONS) (KEY_LENGTH * 8)
  = Ok bits ->
  exists storedHash,
    hashPassword C salt password = Ok storedHash
    /\ length (split DOLLAR storedHash) = 4
    /\ verifyPassword C password storedHash = Ok true.
Proof.
  intros Hs Hb Hd. exists (stored_hash salt bits).
  split; [now apply hashPassword_stored|].
  split; [now rewrite split_stored_hash|].
  rewrite (verifyPassword_stored C (salt := salt) (bits := bits) password Hs Hb Hb Hd).
  now destruct (list_eq_dec N.eq_dec bits bits).
Qed.

Lemma verify_own_hash_witness :
  exists storedHash,
    hashPassword toyCrypto [1; 2; 255]%N (js "secret") = Ok storedHash
    /\ verifyPassword toyCrypto (js "secret") storedHash = Ok true.
Proof.
  assert (Hs : is_bytes [1; 2; 255]%N) by (repeat constructor).
  assert (Hb : is_bytes (map to_uint8 (js "secret") ++ [1; 2; 255]%N))
    by (vm_compute; repeat constructor).
  destruct (verify_own_hash toyCrypto (js "secret") Hs Hb eq_refl) as (h & H1 & _ & H2).
  exists h. split; [exact H1 | exact H2].
Defined.

(** X19. A password whose derived key differs from the one behind the
    stored hash is refused: `verifyPassword` returns false, it does not
    throw. *)
Theorem verify_other_key (C : Crypto) (salt bits bits' : list N) (password other : jsstring) :
  is_bytes salt -> is_bytes bits -> is_bytes bits' ->
  deriveBits C (TextEncoder_encode C password) salt (Some PBKDF2_ITERATIONS) (KEY_LENGTH * 8)
  = Ok bits ->
  deriveBits C (TextEncoder_encode C other) salt (Some PBKDF2_ITERATIONS) (KEY_LENGTH * 8)
  = Ok bits' ->
  bits' <> bits ->
  exists storedHash,
    hashPassword C salt password = Ok storedHash
    /\ verifyPassword C other storedHash = Ok false.
Proof.
  intros Hs Hb Hb' Hd Hd' Hne. exists (stored_hash salt bits).
  split; [now apply hashPassword_stored|].
  rewrite (verifyPassword_stored C (salt := salt) (bits := bits) other Hs Hb Hb' Hd').
  now destruct (list_eq_dec N.eq_dec bits' bits).
Qed.

Lemma verify_other_key_witness :
  exists storedHash,
    hashPassword toyCrypto [1; 2; 255]%N (js "secret") = Ok storedHash
    /\ verifyPassword toyCrypto (js "Secret") storedHash = Ok false.
Proof.
  assert (Hs : is_bytes [1; 2; 255]%N) by (repeat constructor).
  assert (Hb : is_bytes (map to_uint8 (js "secret") ++ [1; 2; 255]%N))
    by (vm_compute; repeat constructor).
  assert (Hb' : is_bytes (map to_uint8 (js "Secret") ++ [1; 2; 255]%N))
    by (vm_compute; repeat constructor).
  assert (Hne : map to_uint8 (js "Secret") ++ [1; 2; 255]%N
                <> map to_uint8 (js "secret") ++ [1; 2; 255]%N)
    by (vm_compute; discriminate).
  destruct (verify_other_key toyCrypto (js "secret") (js "Secret") Hs Hb Hb' eq_refl eq_refl Hne)
    as (h & H1 & H2).
  exists h. split; [exact H1 | exact H2].
Defined.

(** X20. A stored hash that does not have exactly three `$`, or whose
    first part is not `pbkdf2`, is refused with false for every
    password: nothing is decoded or derived, nothing is thrown. *)
Theorem verify_malformed_hash (C : Crypto) (password storedHash : jsstring) :
  count_occ N.eq_dec storedHash DOLLAR <> 3
  \/ hd [] (split DOLLAR storedHash) <> js "pbkdf2" ->
  verifyPassword C password storedHash = Ok false.
Proof.
  intros Hbad. unfold verifyPassword.
  destruct (Nat.eqb_spec (length (split DOLLAR storedHash)) 4) as [Hlen|Hlen];
    cbn [negb orb]; [|reflexivity].
  destruct Hbad as [Hcount|Hfirst].
  - rewrite split_length in Hlen. lia.
  - destruct (split DOLLAR storedHash) as [|p0 parts]; [discriminate|].
    simpl in Hfirst. cbn [js_index Z.ltb Z.compare Z.to_nat nth_error].
    destruct (jsstring_eqb p0 (js "pbkdf2")) eqn:Hp; [|reflexivity].
    apply jsstring_eqb_eq in Hp. congruence.
Qed.

Lemma verify_malformed_hash_witness :
  verifyPassword toyCrypto (js "secret") (js "plain-text-password") = Ok false.
Proof.
  apply verify_malformed_hash. left. vm_compute. discriminate.
Defined.

(** X21. `verifyPassword` accepts only a stored hash of the form
    `pbkdf2$n$salt$hash` for which the key derived from the password,
    with the decoded salt and the iteration count read from `n`, encodes
    to `hash`. *)
Theorem verify_accepts_only_derived (C : Crypto) (password storedHash : jsstring) :
  verifyPassword C password storedHash = Ok true ->
  exists n salt64 hash64 salt bits,
    storedHash = js "pbkdf2" ++ [DOLLAR] ++ n ++ [DOLLAR] ++ salt64 ++ [DOLLAR] ++ hash64
    /\ base64ToArrayBuffer salt64 = Ok salt
    /\ deriveBits C (TextEncoder_encode C password) salt (parseInt n) (KEY_LENGTH * 8) = Ok bits
    /\ arrayBufferToBase64 bits = Ok hash64.
Proof.
  unfold verifyPassword. intros Hv.
  pose proof (join_split DOLLAR storedHash) as Hjoin.
  destruct (split DOLLAR storedHash) as [|p0 [|p1 [|p2 [|p3 [|p4 parts]]]]];
    try discriminate Hv.
  cbn [length Nat.eqb negb orb js_index Z.ltb Z.compare Z.to_nat nth_error nth] in Hv.
  destruct (jsstring_eqb p0 (js "pbkdf2")) eqn:Hp; [|discriminate Hv].
  apply jsstring_eqb_eq in Hp as ->. cbn [negb] in Hv.
  destruct (base64ToArrayBuffer p2) as [salt|] eqn:Hsalt; [|discriminate Hv].
  destruct (deriveBits C _ salt _ _) as [bits|] eqn:Hd; [|discriminate Hv].
  destruct (arrayBufferToBase64 bits) as [computed|] eqn:Hc; [|discriminate Hv].
  destruct (Nat.eqb_spec (length computed) (length p3)) as [Hlen|Hlen];
    cbn [negb] in Hv; [|discriminate Hv].
  injection Hv as Hv. apply N.eqb_eq, compare_loop_zero in Hv as [_ ->]; [|assumption].
  exists p1, p2, p3, salt, bits.
  split; [rewrite <- Hjoin; reflexivity|].
  split; [assumption|]. split; assumption.
Qed.

Lemma verify_accepts_only_derived_witness :
  exists n salt64 hash64,
    js "pbkdf2$100000$AQL/$c2VjcmV0AQL/"
    = js "pbkdf2" ++ [DOLLAR] ++ n ++ [DOLLAR] ++ salt64 ++ [DOLLAR] ++ hash64.
Proof.
  assert (Hv : verifyPassword toyCrypto (js "secret") (js "pbkdf2$100000$AQL/$c2VjcmV0AQL/")
               = Ok true) by (vm_compute; reflexivity).
  destruct (verify_accepts_only_derived _ _ _ Hv) as (n & salt64 & hash64 & _ & _ & Heq & _).
  exists n, salt64, hash64. exact Heq.
Defined.

(** ** Accounts and sessions *)

Lemma find_app_last {A} (f : A -> bool) l x :
  find f l = None -> find f (l ++ [x]) = if f x then Some x else None.
Proof.
  induction l as [|y l IH]; simpl; [reflexivity|].
  destruct (f y); [discriminate | exact IH].
Qed.

Lemma find_app_first {A} (f : A -> bool) l x y :
  find f l = Some y -> find f (l ++ [x]) = Some y.
Proof.
  induction l as [|z l IH]; simpl; [discriminate|].
  destruct (f z); [trivial | exact IH].
Qed.

Lemma existsb_false {A} (f : A -> bool) l :
  (forall x, In x l -> f x = false) -> existsb f l = false.
Proof.
  induction l as [|y l IH]; simpl; intros Hf; [reflexivity|].
  rewrite (Hf y), IH; auto.
Qed.

Lemma find_absent {A} (f : A -> bool) l :
  (forall x, In x l -> f x = false) -> find f l = None.
Proof.
  induction l as [|y l IH]; simpl; intros Hf; [reflexivity|].
  rewrite (Hf y), IH; auto.
Qed.

Lemma jsstring_eqb_neq a b : a <> b -> jsstring_eqb a b = false.
Proof.
  intros Hne. destruct (jsstring_eqb a b) eqn:E; [|reflexivity].
  apply jsstring_eqb_eq in E. contradiction.
Qed.

(** X22. A handler behind `requireAuth` runs only for the owner of a
    live session: either the answer is 401 `Unauthorized` and the
    handler's state is untouched, or the cookie names a session of the
    table that expires after `Date.now()`, and the handler runs with the
    row of `auth_users` that session belongs to. *)
Theorem requireAuth_runs_for_session_owner (S A : Type) (now : Z) (db : Db)
    (cookie : option jsstring) (next : User -> S -> result (response A) * S) (s : S) :
  requireAuth (authMiddleware now db cookie) next s
  = (Ok (Failure 401 (js "Unauthorized")), s)
  \/ exists session row,
       In session (auth_sessions db)
       /\ cookie = Some (ses_id session)
       /\ (now < ses_expires_at session)%Z
       /\ In row (auth_users db)
       /\ usr_id row = ses_user_id session
       /\ requireAuth (authMiddleware now db cookie) next s = next (user_of row) s.
Proof.
  unfold authMiddleware.
  destruct cookie as [sessionId|]; [|now left].
  destruct (truthy_cell (Some sessionId)); [|now left].
  destruct (live_session db sessionId now) as [session|] eqn:Hs; [|now left].
  destruct (user_by_id db (ses_user_id session)) as [row|] eqn:Hu; [|now left].
  right. exists session, row.
  apply find_some in Hs as [Hin Hs]. apply andb_prop in Hs as [Hid Hexp].
  apply jsstring_eqb_eq in Hid. apply Z.ltb_lt in Hexp.
  apply find_some in Hu as [Hin' Hu]. apply jsstring_eqb_eq in Hu.
  subst sessionId. repeat split; auto.
Qed.

Section Accounts.
Variable P : Platform.

Lemma register_run userId salt now sessionId address password db bits :
  user_by_email db (toLowerCase P address) = None ->
  (forall row, In row (auth_users db) -> usr_id row <> userId) ->
  (forall s, In s (auth_sessions db) -> ses_id s <> sessionId) ->
  is_bytes salt -> is_bytes bits ->
  deriveBits (crypto P) (TextEncoder_encode (crypto P) password) salt
             (Some PBKDF2_ITERATIONS) (KEY_LENGTH * 8) = Ok bits ->
  register P userId salt now sessionId address password db
  = (Ok {| reply := Success {| body_id := userId;
                               body_email := toLowerCase P address;
                               body_email_verified := 0 |};
           cookie_of := SetCookie sessionId 2592000 |},
     {| auth_users := auth_users db
          ++ [{| usr_id := userId;
                 usr_email := toLowerCase P address;
                 usr_email_verified := 0;
                 usr_password_hash := stored_hash salt bits;
                 usr_created_at := now;
                 usr_updated_at := None |}];
        auth_sessions := auth_sessions db
          ++ [{| ses_id := sessionId;
                 ses_user_id := userId;
                 ses_expires_at := now + SESSION_DURATION_MS;
                 ses_created_at := now |}];
        auth_verification_tokens := auth_verification_tokens db |}).
Proof.
  intros Hfree Hid Hsid Hsalt Hbits Hd. unfold register.
  rewrite Hfree, (hashPassword_stored (crypto P) password Hsalt Hbits Hd).
  unfold insert_user.
  rewrite existsb_false.
  2:{ intros row Hin. rewrite (jsstring_eqb_neq (Hid row Hin)). simpl.
      apply (find_none _ _ Hfree row Hin). }
  unfold insert_session. cbn [auth_users auth_sessions auth_verification_tokens].
  rewrite existsb_false.
  2:{ intros s Hin. apply jsstring_eqb_neq, Hsid, Hin. }
  rewrite existsb_app. cbn [existsb usr_id]. rewrite jsstring_eqb_refl, !orb_true_r.
  reflexivity.
Qed.

Lemma login_run sessionId now address password db row salt bits :
  user_by_email db (toLowerCase P address) = Some row ->
  usr_password_hash row = stored_hash salt bits ->
  (forall s, In s (auth_sessions db) -> ses_id s <> sessionId) ->
  is_bytes salt -> is_bytes bits ->
  deriveBits (crypto P) (TextEncoder_encode (crypto P) password) salt
             (Some PBKDF2_ITERATIONS) (KEY_LENGTH * 8) = Ok bits ->
  login P sessionId now address password db
  = (Ok {| reply := Success {| body_id := usr_id row;
                               body_email := usr_email row;
                               body_email_verified := usr_email_verified row |};
           cookie_of := SetCookie sessionId 2592000 |},
     {| auth_users := auth_users db;
        auth_sessions := auth_sessions db
          ++ [{| ses_id := sessionId;
                 ses_user_id := usr_id row;
                 ses_expires_at := now + SESSION_DURATION_MS;
                 ses_created_at := now |}];
        auth_verification_tokens := auth_verification_tokens db |}).
Proof.
  intros Hrow Hhash Hsid Hsalt Hbits Hd. unfold login.
  rewrite Hrow, Hhash.
  rewrite (verifyPassword_stored (crypto P) (salt := salt) (bits := bits) password
             Hsalt Hbits Hbits Hd).
  destruct (list_eq_dec N.eq_dec bits bits) as [_|Hne]; [|now elim Hne].
  unfold insert_session.
  rewrite existsb_false.
  2:{ intros s Hin. apply jsstring_eqb_neq, Hsid, Hin. }
  apply find_some in Hrow as [Hin _].
  assert (Hex : existsb (fun r => jsstring_eqb (usr_id r) (usr_id row)) (auth_users db) = true).
  { apply existsb_exists. exists row. split; [exact Hin | apply jsstring_eqb_refl]. }
  rewrite Hex. reflexivity.
Qed.

End Accounts.

(** X23. Registration followed by login: for an address no account has
    and identifiers the tables do not hold, `POST /register` creates the
    account and answers with it, and a later `POST /login` with the same
    password and an address that differs at most by case answers with
    the same account and sets a new session cookie. *)
Theorem register_then_login (P : Platform) (userId sessionId sessionId' : jsstring)
    (salt bits : list N) (now now' : Z) (address address' password : jsstring) (db : Db) :
  user_by_email db (toLowerCase P address) = None ->
  (forall row, In row (auth_users db) -> usr_id row <> userId) ->
  (forall s, In s (auth_sessions db) -> ses_id s <> sessionId) ->
  (forall s, In s (auth_sessions db) -> ses_id s <> sessionId') ->
  sessionId <> sessionId' ->
  is_bytes salt -> is_bytes bits ->
  deriveBits (crypto P) (TextEncoder_encode (crypto P) password) salt
             (Some PBKDF2_ITERATIONS) (KEY_LENGTH * 8) = Ok bits ->
  toLowerCase P address' = toLowerCase P address ->
  let account := {| body_id := userId;
                    body_email := toLowerCase P address;
                    body_email_verified := 0 |} in
  exists db1 db2,
    register P userId salt now sessionId address password db
    = (Ok {| reply := Success account; cookie_of := SetCookie sessionId 2592000 |}, db1)
    /\ login P sessionId' now' address' password db1
       = (Ok {| reply := Success account; cookie_of := SetCookie sessionId' 2592000 |}, db2).
Proof.
  intros Hfree Hid Hsid Hsid' Hne Hsalt Hbits Hd Hcase account.
  eexists. eexists. split.
  - eapply register_run; eassumption.
  - eapply login_run
      with (salt := salt) (bits := bits)
           (row := {| usr_id := userId;
                      usr_email := toLowerCase P address;
                      usr_email_verified := 0;
                      usr_password_hash := stored_hash salt bits;
                      usr_created_at := now;
                      usr_updated_at := None |}).
    + unfold user_by_email in *. cbn [auth_users]. rewrite Hcase.
      rewrite (find_app_last _ _ _ Hfree). cbn [usr_email].
      now rewrite jsstring_eqb_refl.
    + reflexivity.
    + cbn [auth_sessions]. intros s Hin. apply in_app_or in Hin as [Hin|[<-|[]]].
      * now apply Hsid'.
      * exact Hne.
    + exact Hsalt.
    + exact Hbits.
    + exact Hd.
Qed.

Lemma register_then_login_witness :
  exists db1 db2,
    register toyPlatform (js "u1") [7; 8]%N 1000 (js "s1") (js "Ann@Example.org")
             (js "correct horse") emptyDb
    = (Ok {| reply := Success {| body_id := js "u1";
                                 body_email := js "ann@example.org";
                                 body_email_verified := 0 |};
             cookie_of := SetCookie (js "s1") 2592000 |}, db1)
    /\ login toyPlatform (js "s2") 2000 (js "ANN@example.org") (js "correct horse") db1
       = (Ok {| reply := Success {| body_id := js "u1";
                                    body_email := js "ann@example.org";
                                    body_email_verified := 0 |};
                cookie_of := SetCookie (js "s2") 2592000 |}, db2).
Proof.
  apply (@register_then_login toyPlatform (js "u1") (js "s1") (js "s2") [7; 8]%N
           (map to_uint8 (js "correct horse") ++ [7; 8]%N) 1000 2000
           (js "Ann@Example.org") (js "ANN@example.org") (js "correct horse") emptyDb).
  - reflexivity.
  - intros row [].
  - intros s [].
  - intros s [].
  - vm_compute. discriminate.
  - repeat constructor.
  - vm_compute. repeat constructor.
  - reflexivity.
  - reflexivity.
Defined.

(** X24. The session a successful login creates lasts thirty days: the
    cookie the response sets carries the new session id, a request
    carrying it is given the logged-in user by `authMiddleware` at every
    moment before `now + SESSION_DURATION_MS`, and none from that moment
    on. *)
Theorem login_session_lifetime (P : Platform) (sessionId : jsstring) (now : Z)
    (address password : jsstring) (db db' : Db) (body : UserBody) (header : cookie_header) :
  login P sessionId now address password db
  = (Ok {| reply := Success body; cookie_of := header |}, db') ->
  sessionId <> [] ->
  header = SetCookie sessionId 2592000
  /\ forall t : Z,
       ((t < now + 2592000000)%Z ->
        exists user, var_user (authMiddleware t db' (Some sessionId)) = Some user
                     /\ user_id user = body_id body)
       /\ ((now + 2592000000 <= t)%Z ->
           authMiddleware t db' (Some sessionId) = no_vars).
Proof.
  unfold login. intros Hlogin Hsid.
  destruct (user_by_email db (toLowerCase P address)) as [row|] eqn:Hrow;
    [|discriminate Hlogin].
  destruct (verifyPassword (crypto P) password (usr_password_hash row)) as [[|]|];
    try discriminate Hlogin.
  unfold insert_session in Hlogin.
  destruct (existsb (fun s => jsstring_eqb (ses_id s) sessionId) (auth_sessions db))
    eqn:Hfresh; [discriminate Hlogin|].
  destruct (existsb (fun r => jsstring_eqb (usr_id r) (usr_id row)) (auth_users db))
    eqn:Huser; [|discriminate Hlogin].
  cbn [negb orb] in Hlogin. injection Hlogin as <- <- <-.
  split; [reflexivity|].
  assert (Hnone : forall t, find (fun s => jsstring_eqb (ses_id s) sessionId
                                           && (t <? ses_expires_at s)%Z) (auth_sessions db)
                            = None).
  { intros t. apply find_absent. intros s Hin.
    destruct (jsstring_eqb (ses_id s) sessionId) eqn:E; [|reflexivity].
    assert (existsb (fun s => jsstring_eqb (ses_id s) sessionId) (auth_sessions db) = true)
      by (apply existsb_exists; eauto).
    congruence. }
  intros t. unfold authMiddleware, live_session. cbn [auth_sessions auth_users].
  replace (truthy_cell (Some sessionId)) with true
    by (destruct sessionId; [contradiction | reflexivity]).
  rewrite (find_app_last _ _ _ (Hnone t)). cbn [ses_id ses_expires_at ses_user_id].
  rewrite jsstring_eqb_refl. cbn [andb].
  change SESSION_DURATION_MS with 2592000000%Z.
  split; intros Ht.
  - apply Z.ltb_lt in Ht. rewrite Ht. unfold user_by_id. cbn [auth_users ses_user_id].
    apply existsb_exists in Huser as (r & Hin & Hr).
    destruct (find (fun r0 => jsstring_eqb (usr_id r0) (usr_id row)) (auth_users db))
      as [found|] eqn:Hfind.
    + exists (user_of found). split; [reflexivity|].
      apply find_some in Hfind as [_ Hfind]. now apply jsstring_eqb_eq in Hfind.
    + apply (find_none _ _ Hfind) in Hin. congruence.
  - apply Z.ltb_ge in Ht. rewrite Ht. reflexivity.
Qed.

Lemma login_session_lifetime_witness :
  (exists user, var_user (authMiddleware 2592001999 db_ann (Some (js "s2"))) = Some user
                /\ user_id user = js "u1")
  /\ authMiddleware 2592002000 db_ann (Some (js "s2")) = no_vars.
Proof.
  assert (Hlogin : login toyPlatform (js "s2") 2000 (js "ann@example.org")
                     (js "correct horse")
                     (snd (register toyPlatform (js "u1") [7; 8]%N 1000 (js "s1")
                             (js "ann@example.org") (js "correct horse") emptyDb))
                   = (Ok {| reply := Success {| body_id := js "u1";
                                                body_email := js "ann@example.org";
                                                body_email_verified := 0 |};
                            cookie_of := SetCookie (js "s2") 2592000 |}, db_ann))
    by (vm_compute; reflexivity).
  assert (Hsid : js "s2" <> []) by discriminate.
  destruct (login_session_lifetime _ _ _ _ _ Hlogin Hsid) as [_ Hlife].
  split.
  - apply (proj1 (Hlife 2592001999%Z)). reflexivity.
  - apply (proj2 (Hlife 2592002000%Z)). discriminate.
Defined.

Lemma session_id_unique (sessions : list Session) a b :
  NoDup (map ses_id sessions) -> In a sessions -> In b sessions ->
  ses_id a = ses_id b -> a = b.
Proof.
  induction sessions as [|s l IH]; simpl; intros Hnd Ha Hb Heq; [contradiction|].
  inversion Hnd as [|? ? Hnotin Hnd']; subst.
  destruct Ha as [<-|Ha], Hb as [<-|Hb]; auto.
  - elim Hnotin. rewrite Heq. now apply in_map.
  - elim Hnotin. rewrite <- Heq. now apply in_map.
Qed.

(** X25. Logout ends the session: with session ids unique in the table
    (the primary key), after `POST /logout` of a request no later request
    with the same cookie is given a user by `authMiddleware`, whether the
    session was live, expired or unknown; the users and the sessions with
    another id stay as they were. *)
Theorem logout_ends_session (now t : Z) (db : Db) (cookie : option jsstring) :
  NoDup (map ses_id (auth_sessions db)) ->
  (now <= t)%Z ->
  let db' := snd (logout (authMiddleware now db cookie) db) in
  var_user (authMiddleware t db' cookie) = None
  /\ auth_users db' = auth_users db
  /\ forall s, In s (auth_sessions db) -> Some (ses_id s) <> cookie ->
               In s (auth_sessions db').
Proof.
  intros Hnd Hle db'. subst db'. unfold logout. cbn [snd].
  split; [|split].
  - unfold authMiddleware at 2.
    destruct cookie as [sessionId|]; [|reflexivity].
    destruct (truthy_cell (Some sessionId)) eqn:Htruthy.
    2:{ unfold authMiddleware. now rewrite Htruthy. }
    destruct (live_session db sessionId now) as [session|] eqn:Hs.
    + pose proof (find_some _ _ Hs) as [Hin Hp].
      apply andb_prop in Hp as [Hid Hexp]. apply jsstring_eqb_eq in Hid.
      destruct (user_by_id db (ses_user_id session)) as [row|] eqn:Hu.
      * cbn [var_session]. unfold authMiddleware. rewrite Htruthy.
        unfold live_session, delete_session. cbn [auth_sessions].
        rewrite find_absent; [reflexivity|].
        intros x Hx. apply filter_In in Hx as [_ Hx]. rewrite Hid in Hx.
        now destruct (jsstring_eqb (ses_id x) sessionId).
      * cbn [var_session no_vars]. unfold authMiddleware. rewrite Htruthy.
        destruct (live_session db sessionId t) as [session'|] eqn:Hs'; [|reflexivity].
        apply find_some in Hs' as [Hin' Hp']. apply andb_prop in Hp' as [Hid' _].
        apply jsstring_eqb_eq in Hid'.
        assert (session' = session) as ->
          by (apply (@session_id_unique _ _ _ Hnd Hin' Hin); congruence).
        now rewrite Hu.
    + cbn [var_session no_vars]. unfold authMiddleware. rewrite Htruthy.
      destruct (live_session db sessionId t) as [session'|] eqn:Hs'; [|reflexivity].
      apply find_some in Hs' as [Hin' Hp']. apply andb_prop in Hp' as [Hid' Hexp'].
      apply (find_none _ _ Hs) in Hin'. cbn beta in Hin'. rewrite Hid' in Hin'.
      apply Z.ltb_lt in Hexp'. apply Z.ltb_ge in Hin'. lia.
  - now destruct (var_session (authMiddleware now db cookie)).
  - intros s Hin Hother.
    destruct (var_session (authMiddleware now db cookie)) as [session|] eqn:Hv;
      [|exact Hin].
    unfold delete_session. cbn [auth_sessions]. apply filter_In. split; [exact Hin|].
    apply negb_true_iff, jsstring_eqb_neq. intros Heq. apply Hother.
    unfold authMiddleware in Hv.
    destruct cookie as [sessionId|]; [|discriminate Hv].
    destruct (truthy_cell (Some sessionId)); [|discriminate Hv].
    destruct (live_session db sessionId now) as [session'|] eqn:Hs; [|discriminate Hv].
    destruct (user_by_id db (ses_user_id session')); [|discriminate Hv].
    injection Hv as ->.
    apply find_some in Hs as [_ Hp]. apply andb_prop in Hp as [Hid _].
    apply jsstring_eqb_eq in Hid. congruence.
Qed.

Lemma logout_ends_session_witness :
  var_user (authMiddleware 3000 db_ann (Some (js "s2"))) <> None
  /\ var_user (authMiddleware 4000
                 (snd (logout (authMiddleware 3000 db_ann (Some (js "s2"))) db_ann))
                 (Some (js "s2"))) = None.
Proof.
  split; [vm_compute; discriminate|].
  refine (proj1 (@logout_ends_session 3000 4000 db_ann (Some (js "s2")) _ _)).
  - vm_compute. repeat constructor; simpl; intuition discriminate.
  - lia.
Defined.

Lemma user_by_email_update_password db passwordHash now userId address :
  user_by_email (update_password db passwordHash now userId) address
  = option_map (fun row =>
                  if jsstring_eqb (usr_id row) userId
                  then {| usr_id := usr_id row;
                          usr_email := usr_email row;
                          usr_email_verified := usr_email_verified row;
                          usr_password_hash := passwordHash;
                          usr_created_at := usr_created_at row;
                          usr_updated_at := Some now |}
                  else row)
               (user_by_email db address).
Proof.
  unfold user_by_email, update_password. cbn [auth_users].
  induction (auth_users db) as [|row rows IH]; [reflexivity|].
  cbn [map find].
  replace (usr_email (if jsstring_eqb (usr_id row) userId then _ else row))
    with (usr_email row) by (now destruct (jsstring_eqb (usr_id row) userId)).
  destruct (jsstring_eqb (usr_email row) address); [reflexivity | exact IH].
Qed.

(** X26. A password reset revokes what came before it: with a token
    that is in the table, of type `password_reset` and not expired,
    `POST /reset-password` succeeds, every row of the token's user then
    carries the new hash, exactly the sessions of other users are left,
    and (tokens being unique) the same token is refused with 400 from
    then on, whatever the time and the password. *)
Theorem reset_password_revokes (P : Platform) (asked : Z) (salt : list N) (now : Z)
    (token password : jsstring) (db : Db) (tokenRecord : VerificationToken)
    (passwordHash : jsstring) :
  reset_token db token asked = Some tokenRecord ->
  hashPassword (crypto P) salt password = Ok passwordHash ->
  NoDup (map tok_token (auth_verification_tokens db)) ->
  exists db',
    reset_password P asked salt now token password db = (Ok (Success tt), db')
    /\ (forall row, In row (auth_users db') -> usr_id row = tok_user_id tokenRecord ->
                    usr_password_hash row = passwordHash)
    /\ (forall s, In s (auth_sessions db')
                  <-> In s (auth_sessions db) /\ ses_user_id s <> tok_user_id tokenRecord)
    /\ forall asked' salt' now' password',
         reset_password P asked' salt' now' token password' db'
         = (Ok (Failure 400 (js "Invalid or expired token")), db').
Proof.
  intros Htoken Hhash Hnd. unfold reset_password at 1. rewrite Htoken, Hhash.
  eexists. split; [reflexivity|]. split; [|split].
  - cbn [delete_token delete_sessions_of update_password auth_users].
    intros row Hin Hid. apply in_map_iff in Hin as (row0 & <- & _).
    destruct (jsstring_eqb (usr_id row0) (tok_user_id tokenRecord)) eqn:E;
      [reflexivity|].
    apply jsstring_eqb_eq in Hid. congruence.
  - cbn [delete_token delete_sessions_of update_password auth_sessions].
    intros s. rewrite filter_In, negb_true_iff. split; intros [Hin Hs]; split; auto.
    + intros Heq. apply jsstring_eqb_eq in Heq. congruence.
    + now apply jsstring_eqb_neq.
  - intros asked' salt' now' password'. unfold reset_password.
    replace (reset_token _ token asked') with (@None VerificationToken); [reflexivity|].
    symmetry. unfold reset_token.
    cbn [delete_token delete_sessions_of update_password auth_verification_tokens].
    apply find_absent. intros x Hx. apply filter_In in Hx as [Hx Hid].
    destruct (jsstring_eqb (tok_token x) token) eqn:E; [|reflexivity].
    apply jsstring_eqb_eq in E.
    apply find_some in Htoken as [Hin Hp].
    apply andb_prop in Hp as [Hp _]. apply andb_prop in Hp as [Hp _].
    apply jsstring_eqb_eq in Hp.
    assert (x = tokenRecord) as ->.
    { clear Hid. revert Hnd Hx Hin E Hp. generalize (auth_verification_tokens db).
      induction l as [|y l IH]; simpl; intros Hnd Hx Hin E Hp; [contradiction|].
      apply NoDup_cons_iff in Hnd as [Hnotin Hnd'].
      destruct Hx as [<-|Hx], Hin as [<-|Hin]; auto.
      - elim Hnotin. rewrite E, <- Hp. now apply in_map.
      - elim Hnotin. rewrite Hp, <- E. now apply in_map. }
    rewrite jsstring_eqb_refl in Hid. discriminate Hid.
Qed.

Lemma reset_password_revokes_witness :
  exists db',
    reset_password toyPlatform 6000 [9]%N 6001 (js "reset-me") (js "new password")
                   db_ann_token = (Ok (Success tt), db')
    /\ auth_sessions db' = []
    /\ reset_password toyPlatform 6002 [9]%N 6003 (js "reset-me") (js "another one") db'
       = (Ok (Failure 400 (js "Invalid or expired token")), db').
Proof.
  destruct (reset_token db_ann_token (js "reset-me") 6000) as [tokenRecord|] eqn:Htoken;
    [|vm_compute in Htoken; discriminate Htoken].
  destruct (hashPassword (crypto toyPlatform) [9]%N (js "new password"))
    as [passwordHash|] eqn:Hhash; [|vm_compute in Hhash; discriminate Hhash].
  assert (Hnd : NoDup (map tok_token (auth_verification_tokens db_ann_token)))
    by (vm_compute; repeat constructor; simpl; intuition discriminate).
  destruct (@reset_password_revokes toyPlatform 6000 [9]%N 6001 (js "reset-me")
              (js "new password") db_ann_token tokenRecord passwordHash Htoken Hhash Hnd)
    as (db' & Hrun & _ & Hsessions & Hagain).
  exists db'. split; [exact Hrun|]. split; [|apply Hagain].
  pose proof Htoken as Htoken'. vm_compute in Htoken'. injection Htoken' as <-.
  destruct (auth_sessions db') as [|s l]; [reflexivity|].
  destruct (proj1 (Hsessions s) (or_introl eq_refl)) as [Hin Hne].
  vm_compute in Hin. destruct Hin as [<-|[<-|[]]]; elim Hne; reflexivity.
Defined.

(** X27. The reset flow end to end: for a registered address and fresh
    token identifiers, `POST /forgot-password` stores a token, within
    the hour `POST /reset-password` accepts it with a new password, and
    afterwards `POST /login` accepts the new password for that account
    and refuses with 401 every password whose derived key differs. *)
Theorem forgot_reset_login (P : Platform) (tokenId token sessionId : jsstring)
    (now asked now' now'' : Z) (salt bits : list N)
    (address password : jsstring) (db : Db) (row : UserRow) :
  user_by_email db (toLowerCase P address) = Some row ->
  (forall t, In t (auth_verification_tokens db) ->
             tok_id t <> tokenId /\ tok_token t <> token) ->
  (asked < now + 3600000)%Z ->
  is_bytes salt -> is_bytes bits ->
  deriveBits (crypto P) (TextEncoder_encode (crypto P) password) salt
             (Some PBKDF2_ITERATIONS) (KEY_LENGTH * 8) = Ok bits ->
  (forall s, In s (auth_sessions db) -> ses_id s <> sessionId) ->
  exists db1 db2 db3,
    forgot_password P tokenId token now address db = (Ok (Success tt), db1)
    /\ reset_password P asked salt now' token password db1 = (Ok (Success tt), db2)
    /\ login P sessionId now'' address password db2
       = (Ok {| reply := Success {| body_id := usr_id row;
                                    body_email := usr_email row;
                                    body_email_verified := usr_email_verified row |};
                cookie_of := SetCookie sessionId 2592000 |}, db3)
    /\ forall other bits',
         is_bytes bits' ->
         deriveBits (crypto P) (TextEncoder_encode (crypto P) other) salt
                    (Some PBKDF2_ITERATIONS) (KEY_LENGTH * 8) = Ok bits' ->
         bits' <> bits ->
         login P sessionId now'' address other db2
         = (Ok {| reply := Failure 401 (js "Invalid email or password");
                  cookie_of := NoCookie |}, db2).
Proof.
  intros Hrow Hfresh Hlive Hsalt Hbits Hd Hsid.
  pose proof (find_some _ _ Hrow) as [Hin Hemail].
  assert (Hfk : existsb (fun r => jsstring_eqb (usr_id r) (usr_id row)) (auth_users db) = true).
  { apply existsb_exists. exists row. split; [exact Hin | apply jsstring_eqb_refl]. }
  set (kept := filter (fun t => negb (jsstring_eqb (tok_user_id t) (usr_id row)
                                      && jsstring_eqb (tok_type t) (js "password_reset")))
                      (auth_verification_tokens db)).
  set (record := {| tok_id := tokenId;
                    tok_user_id := usr_id row;
                    tok_token := token;
                    tok_type := js "password_reset";
                    tok_expires_at := now + 60 * 60 * 1000;
                    tok_created_at := now |}).
  set (db1 := {| auth_users := auth_users db;
                 auth_sessions := auth_sessions db;
                 auth_verification_tokens := kept ++ [record] |}).
  assert (Hforgot : forgot_password P tokenId token now address db = (Ok (Success tt), db1)).
  { unfold forgot_password. rewrite Hrow. unfold insert_token.
    cbn [delete_reset_tokens auth_users auth_sessions auth_verification_tokens].
    fold kept. rewrite Hfk. rewrite existsb_false; [reflexivity|].
    intros t Ht. apply filter_In in Ht as [Ht _]. destruct (Hfresh t Ht) as [H1 H2].
    now rewrite (jsstring_eqb_neq H1), (jsstring_eqb_neq H2). }
  assert (Htoken : reset_token db1 token asked = Some record).
  { unfold reset_token. cbn [db1 auth_verification_tokens].
    rewrite find_app_last.
    - cbn [record tok_token tok_type tok_expires_at]. rewrite !jsstring_eqb_refl.
      replace (asked <? now + 60 * 60 * 1000)%Z with true; [reflexivity|].
      symmetry. apply Z.ltb_lt. lia.
    - apply find_absent. intros t Ht. apply filter_In in Ht as [Ht _].
      destruct (Hfresh t Ht) as [_ H2]. now rewrite (jsstring_eqb_neq H2). }
  set (row' := {| usr_id := usr_id row;
                  usr_email := usr_email row;
                  usr_email_verified := usr_email_verified row;
                  usr_password_hash := stored_hash salt bits;
                  usr_created_at := usr_created_at row;
                  usr_updated_at := Some now' |}).
  set (db2 := delete_token
                (delete_sessions_of
                   (update_password db1 (stored_hash salt bits) now' (usr_id row))
                   (usr_id row))
                tokenId).
  assert (Hreset : reset_password P asked salt now' token password db1
                   = (Ok (Success tt), db2)).
  { unfold reset_password.
    rewrite Htoken, (hashPassword_stored (crypto P) password Hsalt Hbits Hd).
    reflexivity. }
  assert (Hrow' : user_by_email db2 (toLowerCase P address) = Some row').
  { change (user_by_email db2 (toLowerCase P address))
      with (user_by_email (update_password db1 (stored_hash salt bits) now' (usr_id row))
                          (toLowerCase P address)).
    rewrite user_by_email_update_password.
    change (user_by_email db1 (toLowerCase P address))
      with (user_by_email db (toLowerCase P address)).
    rewrite Hrow. cbn [option_map]. now rewrite jsstring_eqb_refl. }
  assert (Hsid' : forall s, In s (auth_sessions db2) -> ses_id s <> sessionId).
  { intros s Hs. cbn in Hs. apply filter_In in Hs as [Hs _]. now apply Hsid. }
  exists db1, db2. eexists. split; [exact Hforgot|]. split; [exact Hreset|]. split.
  - eapply login_run with (row := row') (salt := salt) (bits := bits); auto.
  - intros other bits' Hbits' Hd' Hne. unfold login. rewrite Hrow'. cbn [row' usr_password_hash].
    rewrite (verifyPassword_stored (crypto P) (salt := salt) (bits := bits) other
               Hsalt Hbits Hbits' Hd').
    destruct (list_eq_dec N.eq_dec bits' bits) as [Heq|_]; [contradiction | reflexivity].
Qed.

Lemma forgot_reset_login_witness :
  exists db1 db2 db3,
    forgot_password toyPlatform (js "t1") (js "reset-me") 5000 (js "Ann@Example.org") db_ann
    = (Ok (Success tt), db1)
    /\ reset_password toyPlatform 6000 [9]%N 6001 (js "reset-me") (js "new password") db1
       = (Ok (Success tt), db2)
    /\ login toyPlatform (js "s3") 7000 (js "Ann@Example.org") (js "new password") db2
       = (Ok {| reply := Success {| body_id := js "u1";
                                    body_email := js "ann@example.org";
                                    body_email_verified := 0 |};
                cookie_of := SetCookie (js "s3") 2592000 |}, db3)
    /\ login toyPlatform (js "s3") 7000 (js "Ann@Example.org") (js "correct horse") db2
       = (Ok {| reply := Failure 401 (js "Invalid email or password");
                cookie_of := NoCookie |}, db2).
Proof.
  destruct (user_by_email db_ann (toLowerCase toyPlatform (js "Ann@Example.org")))
    as [row|] eqn:Hrow; [|vm_compute in Hrow; discriminate Hrow].
  assert (Hbits : is_bytes (map to_uint8 (js "new password") ++ [9]%N))
    by (vm_compute; repeat constructor).
  assert (Hbits' : is_bytes (map to_uint8 (js "correct horse") ++ [9]%N))
    by (vm_compute; repeat constructor).
  assert (Hsid : forall s, In s (auth_sessions db_ann) -> ses_id s <> js "s3").
  { intros s Hs. vm_compute in Hs. destruct Hs as [<-|[<-|[]]]; vm_compute; discriminate. }
  destruct (@forgot_reset_login toyPlatform (js "t1") (js "reset-me") (js "s3")
              5000 6000 6001 7000 [9]%N (map to_uint8 (js "new password") ++ [9]%N)
              (js "Ann@Example.org") (js "new password") db_ann row Hrow
              (fun t (Ht : In t []) => match Ht with end) eq_refl
              (Forall_cons 9%N eq_refl (Forall_nil _)) Hbits eq_refl Hsid)
    as (db1 & db2 & db3 & Hforgot & Hreset & Hlogin & Hother).
  exists db1, db2, db3. split; [exact Hforgot|]. split; [exact Hreset|]. split.
  - pose proof Hrow as Hrow'. vm_compute in Hrow'. injection Hrow' as <-. exact Hlogin.
  - apply (Hother (js "correct horse") _ Hbits' eq_refl). vm_compute. discriminate.
Defined.

(** ** Schemas *)

Lemma assign_schema_identity updates r :
  sch_id (fold_left assign_schema updates r) = sch_id r
  /\ sch_user_id (fold_left assign_schema updates r) = sch_user_id r
  /\ sch_name (fold_left assign_schema updates r) = sch_name r
  /\ sch_created_at (fold_left assign_schema updates r) = sch_created_at r.
Proof.
  revert r. induction updates as [|a updates IH]; intros r; [now repeat split|].
  cbn [fold_left]. destruct (IH (assign_schema r a)) as (H1 & H2 & H3 & H4).
  rewrite H1, H2, H3, H4. now destruct a.
Qed.

(** X28. Schema names are per owner: when the owner has no schema of
    that name (other owners may) and the id is new, `POST /` appends the
    schema and answers with it; from then on every `POST /` of the same
    owner with that name is answered 400 and leaves the table as it
    is. *)
Theorem create_schema_name_per_owner (P : Platform) (db : Db) (user schemaId : jsstring)
    (now : Z) (body : CreateSchema) (table : list EventSchema) :
  (exists u, In u (auth_users db) /\ usr_id u = user) ->
  (forall r, In r table -> sch_id r <> schemaId) ->
  (forall r, In r table -> sch_user_id r = user -> sch_name r <> cs_name body) ->
  exists view row,
    create_schema P db user schemaId now body table = (Ok (Success view), table ++ [row])
    /\ (sv_id view, sv_user_id view, sv_name view) = (schemaId, user, cs_name body)
    /\ (sch_id row, sch_user_id row, sch_name row) = (schemaId, user, cs_name body)
    /\ forall schemaId' now' body',
         cs_name body' = cs_name body ->
         create_schema P db user schemaId' now' body' (table ++ [row])
         = (Ok (Failure 400 (js "Schema with this name already exists")), table ++ [row]).
Proof.
  intros (u & Hu & Hid) Hfresh Hname.
  assert (Hfind : find (is_named (cs_name body) user) table = None).
  { apply find_absent. intros r Hr. unfold is_named.
    destruct (jsstring_eqb (sch_user_id r) user) eqn:E; [|apply andb_false_r].
    apply jsstring_eqb_eq in E. now rewrite (jsstring_eqb_neq (Hname r Hr E)). }
  unfold create_schema at 1. rewrite Hfind. unfold insert_schema.
  cbn [sch_id sch_user_id sch_name].
  rewrite existsb_false.
  2:{ intros r Hr. rewrite (jsstring_eqb_neq (Hfresh r Hr)).
      apply (find_none _ _ Hfind r Hr). }
  replace (existsb (fun u0 => jsstring_eqb (usr_id u0) user) (auth_users db)) with true.
  2:{ symmetry. apply existsb_exists. exists u. split; [exact Hu|].
      now apply jsstring_eqb_eq. }
  cbn [negb orb]. eexists. eexists. split; [reflexivity|].
  split; [reflexivity|]. split; [reflexivity|].
  intros schemaId' now' body' Hsame. unfold create_schema.
  rewrite (find_app_last _ _ _ (eq_ind_r (fun n => find (is_named n user) table = None)
                                         Hfind Hsame)).
  unfold is_named at 1. cbn [sch_name sch_user_id].
  now rewrite Hsame, !jsstring_eqb_refl.
Qed.

Lemma create_schema_name_per_owner_witness :
  exists view row,
    create_schema toyPlatform db_ann (js "u1") (js "01HS") 9000 weight_schema []
    = (Ok (Success view), [row])
    /\ sv_name view = js "weight"
    /\ create_schema toyPlatform db_ann (js "u1") (js "01HT") 9001 weight_schema [row]
       = (Ok (Failure 400 (js "Schema with this name already exists")), [row]).
Proof.
  destruct (@create_schema_name_per_owner toyPlatform db_ann (js "u1") (js "01HS") 9000
              weight_schema [])
    as (view & row & Hrun & Hview & _ & Hagain).
  - eexists. split; [left; reflexivity | reflexivity].
  - intros r [].
  - intros r [].
  - exists view, row. split; [exact Hrun|]. split.
    + now injection Hview.
    + apply (Hagain (js "01HT") 9001%Z weight_schema eq_refl).
Defined.

(** X29. `PATCH /:id` never renames or moves a schema: whatever the
    body and the outcome, every row keeps its id, owner, name and
    creation time, only the row with the requested id and the
    requesting owner can change at all, and an answer 404 or 400 leaves
    the whole table as it was. *)
Theorem update_schema_keeps_identity (H : Host) (user schemaId : jsstring)
    (body : UpdateSchema) (table : list EventSchema) :
  Forall2 (fun r r' =>
             sch_id r' = sch_id r /\ sch_user_id r' = sch_user_id r
             /\ sch_name r' = sch_name r /\ sch_created_at r' = sch_created_at r
             /\ (r' <> r -> sch_id r = schemaId /\ sch_user_id r = user))
          table (snd (update_schema H user schemaId body table))
  /\ forall status error,
       fst (update_schema H user schemaId body table) = Ok (Failure status error) ->
       snd (update_schema H user schemaId body table) = table.
Proof.
  assert (Hsame : Forall2 (fun r r' =>
             sch_id r' = sch_id r /\ sch_user_id r' = sch_user_id r
             /\ sch_name r' = sch_name r /\ sch_created_at r' = sch_created_at r
             /\ (r' <> r -> sch_id r = schemaId /\ sch_user_id r = user)) table table).
  { induction table as [|r l IH]; constructor; [|exact IH].
    do 4 (split; [reflexivity|]). intros Hne; now elim Hne. }
  assert (Hupd : forall updates,
             Forall2 (fun r r' =>
               sch_id r' = sch_id r /\ sch_user_id r' = sch_user_id r
               /\ sch_name r' = sch_name r /\ sch_created_at r' = sch_created_at r
               /\ (r' <> r -> sch_id r = schemaId /\ sch_user_id r = user))
               table (sql_update_schema table updates schemaId user)).
  { intros updates. unfold sql_update_schema. clear Hsame.
    induction table as [|r l IH]; cbn [map]; constructor; [|exact IH].
    destruct (is_schema schemaId user r) eqn:E.
    - destruct (assign_schema_identity updates r) as (H1 & H2 & H3 & H4).
      do 4 (split; [assumption|]). intros _.
      apply andb_prop in E as [E1 E2]. now apply jsstring_eqb_eq in E1, E2.
    - do 4 (split; [reflexivity|]). intros Hne; now elim Hne. }
  unfold update_schema.
  destruct (find (is_schema schemaId user) table) as [existing|]; [|split; auto].
  destruct (build_schema_updates body) as [|a updates] eqn:Hb; [split; auto|].
  destruct (find (is_schema schemaId user) (sql_update_schema table (a :: updates) schemaId user))
    as [updated|].
  - destruct (schema_view_of H updated); cbn [fst snd]; (split; [apply Hupd|]);
      intros status error E; discriminate E.
  - cbn [fst snd]. split; [apply Hupd|]. intros status error E; discriminate E.
Qed.

(** ** Chart data *)

Lemma sort_insert_at_time t p sorted :
  filter (at_time t) (sort_insert p sorted)
  = if at_time t p then p :: filter (at_time t) sorted else filter (at_time t) sorted.
Proof.
  induction sorted as [|q rest IH]; cbn [sort_insert filter].
  - now destruct (at_time t p).
  - destruct (stays_before p q) eqn:Hb; cbn [filter].
    + now destruct (at_time t p).
    + rewrite IH. destruct (at_time t p) eqn:Hp; [|reflexivity].
      replace (at_time t q) with false; [reflexivity|].
      unfold stays_before, compare_points, at_time in *.
      destruct (pt_x p) as [s|]; [|discriminate Hb].
      destruct (pt_x q) as [u|]; [|reflexivity].
      symmetry. apply Z.eqb_neq. apply Z.eqb_eq in Hp. apply Z.leb_gt in Hb. lia.
Qed.

Lemma sort_insert_sorted p sorted :
  (exists s, pt_x p = Some s) ->
  Forall (fun q => exists s, pt_x q = Some s) sorted ->
  StronglySorted (fun a b => stays_before a b = true) sorted ->
  StronglySorted (fun a b => stays_before a b = true) (sort_insert p sorted)
  /\ forall q, In q (sort_insert p sorted) <-> q = p \/ In q sorted.
Proof.
  intros [s Hs] Hvalid Hsorted.
  induction sorted as [|q rest IH]; cbn [sort_insert].
  - split; [repeat constructor|]. intros q. simpl. intuition auto.
  - apply StronglySorted_inv in Hsorted as [Hrest Hq].
    apply Forall_cons_iff in Hvalid as [[u Hu] Hvalid].
    destruct (IH Hvalid Hrest) as [IHs IHin].
    destruct (stays_before p q) eqn:Hb.
    + split; [|intros x; simpl; intuition auto].
      constructor; [constructor; assumption|].
      constructor; [exact Hb|].
      rewrite Forall_forall in Hq |- *. intros x Hx. specialize (Hq x Hx).
      rewrite Forall_forall in Hvalid. destruct (Hvalid x Hx) as [v Hv].
      unfold stays_before, compare_points in *. rewrite Hs, Hu, ?Hv in *.
      apply Z.leb_le in Hb, Hq. apply Z.leb_le. lia.
    + split.
      * constructor; [exact IHs|].
        rewrite Forall_forall in Hq |- *. intros x Hx. apply IHin in Hx as [->|Hx]; auto.
        unfold stays_before, compare_points in *. rewrite Hs, Hu in *.
        apply Z.leb_gt in Hb. apply Z.leb_le. lia.
      * intros x. simpl. rewrite IHin. intuition auto.
Qed.

(** X30. `eventsToChartData` on events whose timestamps are valid
    dates: the points are in ascending order of time, points of the same
    moment keep the order of the events, and the points are those of the
    events whose data holds a number under the field, with that number;
    events without data, without the field or with another kind of value
    give no point. *)
Theorem eventsToChartData_spec (events : list EventView) (valueField : jsstring) :
  Forall (fun e => (Z.abs (view_timestamp e) <= 8640000000000000)%Z) events ->
  StronglySorted
    (fun a b => exists s t, pt_x a = Some s /\ pt_x b = Some t /\ (s <= t)%Z)
    (eventsToChartData events valueField)
  /\ (forall t, filter (at_time t) (eventsToChartData events valueField)
                = filter (at_time t) (chart_points events valueField))
  /\ forall t value,
       In {| pt_x := Some t; pt_y := value |} (eventsToChartData events valueField)
       <-> exists e, In e events /\ view_timestamp e = t
                     /\ number_property (view_data e) valueField = Some value.
Proof.
  intros Hrange.
  assert (Hvalid : Forall (fun q => exists s, pt_x q = Some s)
                          (chart_points events valueField)).
  { unfold chart_points. apply Forall_map. apply Forall_forall. intros e He.
    apply filter_In in He as [He _]. rewrite Forall_forall in Hrange.
    specialize (Hrange e He). cbn [pt_x]. unfold getTime.
    apply Z.leb_le in Hrange. rewrite Hrange. eauto. }
  assert (Hsort : forall points,
             Forall (fun q => exists s, pt_x q = Some s) points ->
             StronglySorted (fun a b => stays_before a b = true) (sort_points points)
             /\ (forall q, In q (sort_points points) <-> In q points)).
  { induction points as [|p points IH]; intros Hp.
    - split; [constructor | reflexivity].
    - apply Forall_cons_iff in Hp as [Hp Hps]. destruct (IH Hps) as [IHs IHin].
      cbn [sort_points fold_right]. fold (sort_points points).
      assert (Hv : Forall (fun q => exists s, pt_x q = Some s) (sort_points points)).
      { rewrite Forall_forall in Hps |- *. intros q Hq. now apply Hps, IHin. }
      destruct (@sort_insert_sorted p _ Hp Hv IHs) as [Hs Hin].
      split; [exact Hs|]. intros q. rewrite Hin, IHin. simpl. intuition auto. }
  destruct (Hsort _ Hvalid) as [Hsorted Hin].
  assert (Hfilter : forall t points,
             filter (at_time t) (sort_points points) = filter (at_time t) points).
  { intros t. induction points as [|p points IH]; [reflexivity|].
    cbn [sort_points fold_right]. fold (sort_points points).
    rewrite sort_insert_at_time, IH. reflexivity. }
  unfold eventsToChartData. split; [|split].
  - assert (Hv : Forall (fun q => exists s, pt_x q = Some s)
                        (sort_points (chart_points events valueField))).
    { rewrite Forall_forall in Hvalid |- *. intros q Hq. now apply Hvalid, Hin. }
    clear Hin. induction Hsorted as [|a l Hl IH Ha]; [constructor|].
    apply Forall_cons_iff in Hv as [[s Hs] Hv]. constructor; [now apply IH|].
    rewrite Forall_forall in Ha, Hv |- *. intros b Hb.
    destruct (Hv b Hb) as [t Ht]. specialize (Ha b Hb).
    unfold stays_before, compare_points in Ha. rewrite Hs, Ht in Ha.
    apply Z.leb_le in Ha. exists s, t. repeat split; auto. lia.
  - intros t. apply Hfilter.
  - intros t value. rewrite Hin. unfold chart_points. rewrite in_map_iff. split.
    + intros (e & Heq & He). apply filter_In in He as [He Hnum].
      exists e. split; [exact He|].
      injection Heq as Hx Hy. unfold getTime in Hx.
      destruct (Z.abs (view_timestamp e) <=? 8640000000000000)%Z; [|discriminate Hx].
      injection Hx as Hx. split; [exact Hx|].
      destruct (number_property (view_data e) valueField); [|discriminate Hnum].
      now rewrite Hy.
    + intros (e & He & Ht & Hnum). exists e. split.
      * rewrite Hnum. f_equal. unfold getTime. rewrite Forall_forall in Hrange.
        specialize (Hrange e He). apply Z.leb_le in Hrange. now rewrite Hrange, Ht.
      * apply filter_In. split; [exact He|]. now rewrite Hnum.
Qed.

Lemma eventsToChartData_spec_witness :
  eventsToChartData readings (js "kg")
  = [{| pt_x := Some 100%Z; pt_y := (70, 0)%Z |};
     {| pt_x := Some 100%Z; pt_y := (72, 0)%Z |};
     {| pt_x := Some 300%Z; pt_y := (71, 0)%Z |}]
  /\ StronglySorted
       (fun a b => exists s t, pt_x a = Some s /\ pt_x b = Some t /\ (s <= t)%Z)
       (eventsToChartData readings (js "kg")).
Proof.
  split; [vm_compute; reflexivity|].
  refine (proj1 (@eventsToChartData_spec readings (js "kg") _)).
  repeat constructor; vm_compute; discriminate.
Defined.
